(** * Memory capture core of the memory-lancedb extension

    A shallow embedding of

    - [SessionJournal] (session-journal.ts): the per-session journal with its
      in-memory cache, its per-key operation chains and its
      write-then-rename persistence,
    - [LLMDecisionMaker] (decision-maker.ts): the bounded tool-calling
      loop over a [ChatAdapter] and a [MemoryOps] backend, with the OpenAI
      and the Anthropic adapter, and
    - the plugin (index.ts): message extraction, the [agent_end] capture
      hook, the [MemoryDB] store with the memory operations built on it,
      the recall hook and the [memory_forget] tool,

    followed by the properties of the first two that the design document
    states, and by further properties of all three.

    Conventions.  An [async] method is a computation in a state-and-exception
    monad: it takes the state of the world it touches and returns the value
    it resolves with, or the value it rejects with, and the new state.
    [await] is sequencing.  JavaScript numbers that the code uses as array
    indices are integers ([Z]); the numbers that only travel from the model
    to the memory backend (importance scores) are binary64 floats.  Strings
    are Rocq strings; for ASCII text a Rocq character is a JavaScript code
    unit. *)

From Stdlib Require Import ZArith String Ascii List Lia Floats.PrimFloat.
From stdpp Require Import base option relations gmap strings list pretty.

Set Warnings "-register-all,-inexact-float".

(* ====================================================================== *)
(** * JavaScript values and built-ins used by the code                      *)
(* ====================================================================== *)

Module Js.

(** The double-quote character. *)
Definition dquote : string := String (ascii_of_nat 34) EmptyString.

(** [s.slice(0, n)] on a string. *)
Definition str_take (n : nat) (s : string) : string := substring 0 n s.

(** [parts.join(sep)]. *)
Fixpoint join (sep : string) (parts : list string) : string :=
  match parts with
  | [] => ""
  | [p] => p
  | p :: rest => p +:+ sep +:+ join sep rest
  end.

(** [arr.slice(start)] for an integer [start]: a negative start counts from
    the end of the array, and the start is clamped to [0, arr.length]. *)
Definition slice {A} (start : Z) (arr : list A) : list A :=
  let len := Z.of_nat (length arr) in
  let k := if (start <? 0)%Z then Z.max (len + start) 0 else Z.min start len in
  drop (Z.to_nat k) arr.

(** A value thrown by [throw new Error(message)]; a rejected promise carries
    one.  Only the message is ever inspected by the code. *)
Record Error := mkError { message : string }.

(** The outcome of a call: it returns (resolves) or throws (rejects). *)
Inductive Result (A : Type) : Type :=
| Ok (a : A)
| Throw (e : Error).
Arguments Ok {A} a.
Arguments Throw {A} e.

(** JSON values: what [JSON.parse] yields and what a tool call's [args]
    hold. *)
Inductive Value : Type :=
| Null
| Bool (b : bool)
| Num (x : float)
| Str (s : string)
| Arr (items : list Value)
| Obj (fields : list (string * Value)).

End Js.

Import Js.

(* ====================================================================== *)
(** * The state-and-exception monad                                         *)
(* ====================================================================== *)

(** A computation over a state [S] that returns an [A] or throws. *)
Definition Eff (S A : Type) : Type := S -> Result A * S.

Definition ret {S A} (a : A) : Eff S A := fun s => (Ok a, s).

Definition throw {S A} (e : Error) : Eff S A := fun s => (Throw e, s).

Definition bind {S A B} (c : Eff S A) (k : A -> Eff S B) : Eff S B :=
  fun s =>
    match c s with
    | (Ok a, s') => k a s'
    | (Throw e, s') => (Throw e, s')
    end.

(** [try { body } catch (e) { handler e }]: the handler starts from the state
    the body had reached when it threw. *)
Definition try_catch {S A} (body : Eff S A) (handler : Error -> Eff S A) : Eff S A :=
  fun s =>
    match body s with
    | (Ok a, s') => (Ok a, s')
    | (Throw e, s') => handler e s'
    end.

Definition gets {S A} (f : S -> A) : Eff S A := fun s => (Ok (f s), s).

Definition modify {S} (f : S -> S) : Eff S unit := fun s => (Ok tt, f s).

Declare Scope eff_scope.
Delimit Scope eff_scope with eff.
Notation "'let*' x ':=' c 'in' k" := (bind c (fun x => k))
  (at level 10, x pattern, c at level 100, k at level 200) : eff_scope.
Notation "c ';;' k" := (bind c (fun _ => k))
  (at level 100, k at level 200, right associativity) : eff_scope.

(* ====================================================================== *)
(** * Data model (session-journal.ts, Types)                                *)
(* ====================================================================== *)

(** [role: "user" | "assistant"] *)
Inductive Role : Type := user | assistant.

Definition role_string (r : Role) : string :=
  match r with user => "user" | assistant => "assistant" end.

Record CleanMessage : Type := mkCleanMessage {
  role : Role;
  text : string
}.

(** [action: "store" | "forget" | "update"] *)
Inductive Action : Type := ActStore | ActForget | ActUpdate.

Definition action_string (a : Action) : string :=
  match a with
  | ActStore => "store"
  | ActForget => "forget"
  | ActUpdate => "update"
  end.

Record MemoryLogEntry : Type := mkMemoryLogEntry {
  (** Index in cleanContext at the time this action was decided *)
  deltaIndex : Z;
  action : Action;
  memoryId : string;
  log_text : string;
  timestamp : Z
}.

Record JournalData : Type := mkJournalData {
  (** How far into cleanContext the LLM has already evaluated *)
  processedIndex : Z;
  (** Full user/assistant plain-text message history for the session *)
  cleanContext : list CleanMessage;
  (** Memory operations performed during this session *)
  memoryLogs : list MemoryLogEntry
}.

#[global] Instance Role_eq_dec : EqDecision Role.
Proof. solve_decision. Defined.
#[global] Instance CleanMessage_eq_dec : EqDecision CleanMessage.
Proof. solve_decision. Defined.

(* ====================================================================== *)
(** * SessionJournal (session-journal.ts)                                   *)
(* ====================================================================== *)

(** What the journal takes from its host: the [sessions] directory fixed by
    the constructor, [path.join] and [path.dirname], and the JSON codec.
    [JSON_parse raw = None] stands for [JSON.parse] throwing; a parsed value is
    taken at the type the code casts it to ([as JournalData]). *)
Class Host : Type := {
  sessionsDir : string;
  path_join : string -> string -> string;
  path_dirname : string -> string;
  JSON_parse : string -> option JournalData;
  JSON_stringify : JournalData -> string
}.

Module SessionJournal.

(** The journal instance together with the file system it persists to.
    [queues] and [cache] are the two private maps of the class, both keyed by
    the session key as given; a chain in [queues] is represented by the
    number of operations that were appended to it.  [files] maps a path to
    the content of the file there. *)
Record State : Type := mkState {
  queues : gmap string nat;
  cache : gmap string JournalData;
  files : gmap string string
}.

Definition set_queues (f : gmap string nat -> gmap string nat) (s : State) : State :=
  mkState (f (queues s)) (cache s) (files s).
Definition set_cache (f : gmap string JournalData -> gmap string JournalData)
    (s : State) : State :=
  mkState (queues s) (f (cache s)) (files s).
Definition set_files (f : gmap string string -> gmap string string) (s : State) : State :=
  mkState (queues s) (cache s) (f (files s)).

(** A journal that was just constructed over a given file system. *)
Definition new (fs : gmap string string) : State := mkState ∅ ∅ fs.

(** ** File system *)

(** The three calls [save] awaits, in the order it awaits them. *)
Inductive FsStep : Type :=
| Mkdir (dir : string)
| WriteFile (path content : string)
| Rename (src dst : string).

(** [fs.readFile(path, "utf-8")]: throws when there is no file. *)
Definition readFile (path : string) (fs : gmap string string) : Result string :=
  match fs !! path with
  | Some raw => Ok raw
  | None => Throw (mkError ("ENOENT: no such file or directory, open " +:+ path))
  end.

(** One completed file-system call.  [mkdir(dir, {recursive: true})] leaves
    every file as it is; [writeFile] replaces the content at its path;
    [rename] moves the source over the destination in one step and throws
    when the source is missing. *)
Definition fs_step (st : FsStep) (fs : gmap string string)
    : Result (gmap string string) :=
  match st with
  | Mkdir _ => Ok fs
  | WriteFile path content => Ok (<[path := content]> fs)
  | Rename src dst =>
      match fs !! src with
      | Some content => Ok (<[dst := content]> (delete src fs))
      | None => Throw (mkError ("ENOENT: no such file or directory, rename " +:+ src))
      end
  end.

Definition fs_readFile (path : string) : Eff State string :=
  fun s => (readFile path (files s), s).

Definition fs_do (st : FsStep) : Eff State unit :=
  fun s =>
    match fs_step st (files s) with
    | Ok fs' => (Ok tt, set_files (fun _ => fs') s)
    | Throw e => (Throw e, s)
    end.

Fixpoint fs_run (steps : list FsStep) : Eff State unit :=
  match steps with
  | [] => ret tt
  | st :: rest => (fs_do st ;; fs_run rest)%eff
  end.

(** The process is interrupted somewhere in a sequence of file-system calls:
    before a call starts, or in the middle of a [writeFile], which then
    leaves some prefix of the content at its path.  [rename] is atomic. *)
Inductive interrupted : list FsStep -> gmap string string -> gmap string string -> Prop :=
| interrupted_before steps fs :
    interrupted steps fs fs
| interrupted_in_write path content written rest fs :
    String.prefix written content = true ->
    interrupted (WriteFile path content :: rest) fs (<[path := written]> fs)
| interrupted_later st rest fs fs1 fs2 :
    fs_step st fs = Ok fs1 ->
    interrupted rest fs1 fs2 ->
    interrupted (st :: rest) fs fs2.

Section WithHost.
Context `{host : Host}.

(** ** Internals *)

(** The character class [[a-zA-Z0-9_-]]. *)
Definition safe_char (c : ascii) : bool :=
  let n := nat_of_ascii c in
  ((97 <=? n) && (n <=? 122) || (65 <=? n) && (n <=? 90)
   || (48 <=? n) && (n <=? 57) || (n =? 95) || (n =? 45))%nat.

(** [sessionKey.replace(/[^a-zA-Z0-9_-]/g, "_")] *)
Fixpoint sanitize (sessionKey : string) : string :=
  match sessionKey with
  | EmptyString => EmptyString
  | String c rest =>
      String (if safe_char c then c else "_"%char) (sanitize rest)
  end.

(** Sanitize session key for use as a safe filename *)
Definition journalPath (sessionKey : string) : string :=
  let safe := sanitize sessionKey in
  path_join sessionsDir (safe +:+ ".json").

(** [`${filePath}.${randomUUID().slice(0, 8)}.tmp`]; the UUID drawn by
    [randomUUID()] is an argument. *)
Definition tmpPathOf (filePath uuid : string) : string :=
  filePath +:+ "." +:+ str_take 8 uuid +:+ ".tmp".

Definition cache_set (sessionKey : string) (data : JournalData) : Eff State unit :=
  modify (set_cache (fun c => <[sessionKey := data]> c)).

Definition fresh_journal : JournalData :=
  {| processedIndex := 0; cleanContext := []; memoryLogs := [] |}.

Definition load (sessionKey : string) : Eff State JournalData :=
  (let* cached := gets (fun s => cache s !! sessionKey) in
   match cached with
   | Some data => ret data
   | None =>
       let filePath := journalPath sessionKey in
       try_catch
         (let* raw := fs_readFile filePath in
          let* data :=
            match JSON_parse raw with
            | Some data => ret data
            | None => throw (mkError "SyntaxError: not valid JSON")
            end in
          cache_set sessionKey data ;;
          ret data)
         (fun _ =>
            (* File doesn't exist or is corrupt → start fresh *)
            cache_set sessionKey fresh_journal ;;
            ret fresh_journal)
   end)%eff.

(** The file-system calls of [save], in order. *)
Definition save_steps (sessionKey : string) (data : JournalData) (uuid : string)
    : list FsStep :=
  let filePath := journalPath sessionKey in
  let tmpPath := tmpPathOf filePath uuid in
  let dir := path_dirname filePath in
  [ Mkdir dir;
    WriteFile tmpPath (JSON_stringify data);
    Rename tmpPath filePath ].

(** Atomic write: write to temp file, then rename *)
Definition save (sessionKey : string) (data : JournalData) (uuid : string)
    : Eff State unit :=
  (cache_set sessionKey data ;;
   fs_run (save_steps sessionKey data uuid))%eff.

(** [prev.then(fn, fn)]: [fn] runs after whatever was chained on the key
    before it, whether that failed or not; the caller gets [fn]'s outcome.
    Operations are run one at a time, so the chain is the order of the
    calls. *)
Definition enqueue {T} (sessionKey : string) (fn : Eff State T) : Eff State T :=
  (modify (set_queues (fun q =>
             <[sessionKey := S (default 0%nat (q !! sessionKey))]> q)) ;;
   fn)%eff.

(** ** Public operations *)

(** The key under which a message is looked up: [`${m.role}:${m.text}`]. *)
Definition dedup_key (m : CleanMessage) : string :=
  role_string (role m) +:+ ":" +:+ text m.

(** Append new messages (deduped) and return the unprocessed delta.
    The journal object is the one the cache holds, so pushing onto its
    [cleanContext] changes the cached journal at once. *)
Definition appendMessages (sessionKey : string) (messages : list CleanMessage)
    (uuid : string) : Eff State (JournalData * list CleanMessage) :=
  enqueue sessionKey
    (let* journal := load sessionKey in
     (* Deduplicate: skip messages already in the clean context *)
     let existing : gset string := list_to_set (map dedup_key (cleanContext journal)) in
     let fresh := filter (fun m => dedup_key m ∉ existing) messages in
     let* journal :=
       if (0 <? length fresh)%nat then
         let pushed :=
           {| processedIndex := processedIndex journal;
              cleanContext := cleanContext journal ++ fresh;
              memoryLogs := memoryLogs journal |} in
         cache_set sessionKey pushed ;;
         save sessionKey pushed uuid ;;
         ret pushed
       else ret journal in
     let delta := slice (processedIndex journal) (cleanContext journal) in
     ret (journal, delta))%eff.

(** Atomically commit decision results: new memory logs + advance
    processedIndex. *)
Definition commitDecisions (sessionKey : string) (logs : list MemoryLogEntry)
    (newProcessedIndex : Z) (uuid : string) : Eff State unit :=
  enqueue sessionKey
    (let* journal := load sessionKey in
     let committed :=
       {| processedIndex := newProcessedIndex;
          cleanContext := cleanContext journal;
          memoryLogs := memoryLogs journal ++ logs |} in
     cache_set sessionKey committed ;;
     save sessionKey committed uuid)%eff.

(** ** What the operations compute

    The same operations read off as functions of the journal they start
    from; the theorems below relate them to the code above. *)

(** The journal an operation on [sessionKey] starts from: the cached one, or
    else the one parsed from its file, or else a fresh one. *)
Definition loaded (sessionKey : string) (s : State) : JournalData :=
  match cache s !! sessionKey with
  | Some data => data
  | None =>
      match files s !! journalPath sessionKey with
      | Some raw => default fresh_journal (JSON_parse raw)
      | None => fresh_journal
      end
  end.

(** The file system after a completed [save]. *)
Definition saved_files (sessionKey : string) (data : JournalData) (uuid : string)
    (fs : gmap string string) : gmap string string :=
  let filePath := journalPath sessionKey in
  let tmpPath := tmpPathOf filePath uuid in
  <[filePath := JSON_stringify data]> (delete tmpPath (<[tmpPath := JSON_stringify data]> fs)).

Definition existing_keys (journal : JournalData) : gset string :=
  list_to_set (map dedup_key (cleanContext journal)).

Definition fresh_of (journal : JournalData) (messages : list CleanMessage)
    : list CleanMessage :=
  filter (fun m => dedup_key m ∉ existing_keys journal) messages.

Definition pushed (journal : JournalData) (fresh : list CleanMessage) : JournalData :=
  {| processedIndex := processedIndex journal;
     cleanContext := cleanContext journal ++ fresh;
     memoryLogs := memoryLogs journal |}.

Definition appended (journal : JournalData) (messages : list CleanMessage) : JournalData :=
  match fresh_of journal messages with
  | [] => journal
  | fresh => pushed journal fresh
  end.

Definition delta_of (journal : JournalData) : list CleanMessage :=
  slice (processedIndex journal) (cleanContext journal).

Definition chained (sessionKey : string) (q : gmap string nat) : gmap string nat :=
  <[sessionKey := S (default 0%nat (q !! sessionKey))]> q.

Definition committed (journal : JournalData) (logs : list MemoryLogEntry)
    (newProcessedIndex : Z) : JournalData :=
  {| processedIndex := newProcessedIndex;
     cleanContext := cleanContext journal;
     memoryLogs := memoryLogs journal ++ logs |}.

(** The journal file of a session is missing, or [JSON.parse] rejects it. *)
Definition unreadable (sessionKey : string) (s : State) : Prop :=
  files s !! journalPath sessionKey = None
  \/ exists raw, files s !! journalPath sessionKey = Some raw /\ JSON_parse raw = None.

(** [0 <= processedIndex <= length(cleanContext)] *)
Definition index_in_range (journal : JournalData) : Prop :=
  (0 <= processedIndex journal <= Z.of_nat (length (cleanContext journal)))%Z.

(** One call on the journal, on any session.  A [commitDecisions] is taken
    here only with an index inside the session's clean context, as the
    capture handler passes it ([journalData.cleanContext.length]). *)
Inductive journal_step : State -> State -> Prop :=
| step_appendMessages sessionKey messages uuid s :
    journal_step s (snd (appendMessages sessionKey messages uuid s))
| step_commitDecisions sessionKey logs newProcessedIndex uuid s :
    (0 <= newProcessedIndex
       <= Z.of_nat (length (cleanContext (loaded sessionKey s))))%Z ->
    journal_step s (snd (commitDecisions sessionKey logs newProcessedIndex uuid s)).

End WithHost.

End SessionJournal.

(* ====================================================================== *)
(** * LLMDecisionMaker (decision-maker.ts)                              *)
(* ====================================================================== *)

(** Conversions between numbers and strings that [String(x)] and [Number(x)]
    fall back on: the decimal printing of a number and the numeric reading of
    a string. *)
Class NumberCodec : Type := {
  number_to_string : float -> string;
  string_to_number : string -> float
}.

(** A pending tool call returned by the model. *)
Record ToolCallRequest : Type := mkToolCallRequest {
  id : string;
  name : string;
  args : gmap string Value
}.

(** Result of a single chat completion round. *)
Record AdapterResponse : Type := mkAdapterResponse {
  toolCalls : list ToolCallRequest;
  (** True when the model signalled it is done (no more tool calls). *)
  done : bool
}.

(** [interface ChatAdapter], over the type of the adapter object's state (its
    transcript and whatever stands behind its client).  [newAdapter] is the
    constructor, called with the system prompt and the user prompt;
    [complete] may reject (a transport failure); [pushToolResult] only
    appends to the transcript. *)
Class ChatAdapter (A : Type) : Type := {
  newAdapter : string -> string -> A;
  complete : A -> Result AdapterResponse * A;
  pushToolResult : string -> string -> bool -> A -> A
}.

(** Low-level memory operations provided by the plugin host, over the state of
    the memory store.  The category is the string the code passes along. *)
Record MemoryOps (O : Type) : Type := mkMemoryOps {
  (** Embed + store. Returns the new memory ID. Throws on duplicate. *)
  store : string -> string -> float -> Eff O string;
  (** Delete by ID. Throws if ID is invalid. *)
  forget : string -> Eff O bool;
  (** Delete + re-embed + insert. Returns the new memory ID. *)
  update : string -> string -> string -> float -> Eff O string
}.
Arguments store {O} _ _ _ _ _.
Arguments forget {O} _ _ _.
Arguments update {O} _ _ _ _ _ _.

Record DecisionResult : Type := mkDecisionResult {
  logs : list MemoryLogEntry
}.

(** What [evaluate] does to the outside, in the order it does it: each call
    on the adapter, on the memory operations and on the logger, with what the
    call returned. *)
Inductive Event : Type :=
| Completed (outcome : Result AdapterResponse)
| PushedToolResult (toolCallId content : string) (isError : bool)
| Stored (text category : string) (importance : float) (outcome : Result string)
| Forgot (memoryId : string) (outcome : Result bool)
| Updated (memoryId text category : string) (importance : float)
    (outcome : Result string)
| LoggedInfo (msg : string)
| LoggedWarn (msg : string).

Module LLMDecisionMaker.

Definition MAX_TOOL_ITERATIONS : nat := 5.

Definition SYSTEM_PROMPT : string :=
  "You are a memory management system for an AI assistant. Your job is to analyze new conversation messages and decide what should be stored in, updated in, or removed from long-term memory.

You have three tools: store_memory, forget_memory, update_memory.

RULES:
1. ONLY analyze messages in [NEW DELTA]. Use [CONTEXT] for background and [MEMORY LOGS] to avoid duplicates.
2. Store the ORIGINAL text from the conversation, not your own summary or rephrasing.
3. SKIP: greetings, acknowledgments, one-word replies, code blocks (unless they contain configuration or preference decisions), system-injected XML tags.
4. STORE: explicit preferences (" +:+ dquote +:+ "I prefer…" +:+ dquote +:+ ", "
  +:+ dquote +:+ "I like…" +:+ dquote +:+ ", " +:+ dquote +:+ "I always…" +:+ dquote
  +:+ "), personal facts (name, email, phone), architectural/technical decisions, named entities.
5. If new information contradicts or refines an existing memory (check MEMORY LOGS), use update_memory with the existing memory's ID.
6. Only use forget_memory when the user explicitly asks to forget something.
7. If there is nothing worth storing, respond with a brief text message and NO tool calls.
8. Importance guide: 0.9 explicit " +:+ dquote +:+ "remember this" +:+ dquote
  +:+ ", 0.8 preferences/decisions, 0.6 facts/entities, 0.5 other.".

(** The state [evaluate] runs in: the memory store behind [ops] and the calls
    made so far. *)
Record Env (O : Type) : Type := mkEnv {
  backend : O;
  calls : list Event
}.
Arguments mkEnv {O} _ _.
Arguments backend {O} _.
Arguments calls {O} _.

(** The state inside the loop: the adapter of this evaluation as well. *)
Record World (A O : Type) : Type := mkWorld {
  adapter : A;
  env : Env O
}.
Arguments mkWorld {A O} _ _.
Arguments adapter {A O} _.
Arguments env {A O} _.

Section WithBackends.
Context {A O : Type} `{chat : ChatAdapter A} `{codec : NumberCodec}.
Variable ops : MemoryOps O.

(** ** Coercions *)

(** [String(v)] *)
Fixpoint toString (v : Value) : string :=
  match v with
  | Null => "null"
  | Bool true => "true"
  | Bool false => "false"
  | Num x => number_to_string x
  | Str s => s
  | Arr items =>
      join "," (map (fun item => match item with Null => "" | _ => toString item end) items)
  | Obj _ => "[object Object]"
  end.

(** [Number(v)] *)
Definition toNumber (v : Value) : float :=
  match v with
  | Null => 0%float
  | Bool true => 1%float
  | Bool false => 0%float
  | Num x => x
  | Str s => string_to_number s
  | Arr _ | Obj _ => string_to_number (toString v)
  end.

(** [args.key ?? fallback]: a missing key reads as [undefined]. *)
Definition nullish (args : gmap string Value) (key : string) (fallback : Value) : Value :=
  match args !! key with
  | None | Some Null => fallback
  | Some v => v
  end.

(** [!s] on a string *)
Definition is_empty (s : string) : bool :=
  match s with EmptyString => true | String _ _ => false end.

(** ** Effects *)

Definition emit (ev : Event) : Eff (Env O) unit :=
  modify (fun e => mkEnv (backend e) (calls e ++ [ev])).

Definition logger_info (msg : string) : Eff (Env O) unit := emit (LoggedInfo msg).
Definition logger_warn (msg : string) : Eff (Env O) unit := emit (LoggedWarn msg).

(** A call on [this.ops]: it runs on the memory store and is recorded with its
    outcome. *)
Definition call_ops {T} (op : Eff O T) (record : Result T -> Event) : Eff (Env O) T :=
  fun e =>
    let '(outcome, o') := op (backend e) in
    (outcome, mkEnv o' (calls e ++ [record outcome])).

(** Code that does not touch the adapter, run inside the loop. *)
Definition lift {T} (c : Eff (Env O) T) : Eff (World A O) T :=
  fun w => let '(r, e') := c (env w) in (r, mkWorld (adapter w) e').

Definition adapter_complete : Eff (World A O) AdapterResponse :=
  fun w =>
    let '(outcome, a') := complete (adapter w) in
    (outcome, mkWorld a' (mkEnv (backend (env w)) (calls (env w) ++ [Completed outcome]))).

Definition adapter_pushToolResult (toolCallId content : string) (isError : bool)
    : Eff (World A O) unit :=
  modify (fun w =>
    mkWorld (pushToolResult toolCallId content isError (adapter w))
            (mkEnv (backend (env w))
                   (calls (env w) ++ [PushedToolResult toolCallId content isError]))).

(** ** Internals *)

Definition executeTool (name : string) (args : gmap string Value) (deltaIndex : Z)
    : Eff (Env O) (option MemoryLogEntry) :=
  (if String.eqb name "store_memory" then
     let text := toString (nullish args "text" (Str "")) in
     let category := toString (nullish args "category" (Str "other")) in
     let importance := toNumber (nullish args "importance" (Num 0.7%float)) in
     if is_empty text then throw (mkError "text is required for store_memory") else
     let* memoryId := call_ops (store ops text category importance)
                               (Stored text category importance) in
     logger_info ("memory-lancedb: stored " +:+ str_take 8 memoryId +:+ ": "
                  +:+ dquote +:+ str_take 60 text +:+ dquote) ;;
     ret (Some {| deltaIndex := deltaIndex; action := ActStore; memoryId := memoryId;
                  log_text := text; timestamp := 0 |})
   else if String.eqb name "forget_memory" then
     let memoryId := toString (nullish args "memoryId" (Str "")) in
     if is_empty memoryId then throw (mkError "memoryId is required for forget_memory") else
     call_ops (forget ops memoryId) (Forgot memoryId) ;;
     logger_info ("memory-lancedb: forgot " +:+ str_take 8 memoryId) ;;
     ret (Some {| deltaIndex := deltaIndex; action := ActForget; memoryId := memoryId;
                  log_text := ""; timestamp := 0 |})
   else if String.eqb name "update_memory" then
     let memoryId := toString (nullish args "memoryId" (Str "")) in
     let text := toString (nullish args "text" (Str "")) in
     let category := toString (nullish args "category" (Str "other")) in
     let importance := toNumber (nullish args "importance" (Num 0.7%float)) in
     if is_empty memoryId then throw (mkError "memoryId is required for update_memory") else
     if is_empty text then throw (mkError "text is required for update_memory") else
     let* newId := call_ops (update ops memoryId text category importance)
                            (Updated memoryId text category importance) in
     logger_info ("memory-lancedb: updated " +:+ str_take 8 memoryId +:+ " → "
                  +:+ str_take 8 newId) ;;
     ret (Some {| deltaIndex := deltaIndex; action := ActUpdate; memoryId := newId;
                  log_text := text; timestamp := 0 |})
   else
     throw (mkError ("Unknown tool: " +:+ name)))%eff.

(** [log.timestamp = now] *)
Definition set_timestamp (now : Z) (log : MemoryLogEntry) : MemoryLogEntry :=
  {| deltaIndex := deltaIndex log; action := action log; memoryId := memoryId log;
     log_text := log_text log; timestamp := now |}.

Definition handleToolCall (tc : ToolCallRequest) (deltaIndex : Z) (now : Z)
    : Eff (World A O) (option MemoryLogEntry) :=
  try_catch
    (let* log := lift (executeTool (name tc) (args tc) deltaIndex) in
     let log := set_timestamp now <$> log in
     let resultText :=
       match log with
       | Some log => "Success: " +:+ action_string (action log) +:+ " memory " +:+ memoryId log
       | None => "No action taken."
       end in
     adapter_pushToolResult (id tc) resultText false ;;
     ret log)%eff
    (fun err =>
       let resultText := "Error: " +:+ message err in
       lift (logger_warn ("memory-lancedb: tool " +:+ name tc +:+ " failed: " +:+ resultText)) ;;
       adapter_pushToolResult (id tc) resultText true ;;
       ret None)%eff.

(** [for (const tc of response.toolCalls) { const log = await
    this.handleToolCall(...); if (log) logs.push(log); }] *)
Fixpoint handleToolCalls (tcs : list ToolCallRequest) (deltaIndex : Z) (now : Z)
    (logs : list MemoryLogEntry) : Eff (World A O) (list MemoryLogEntry) :=
  match tcs with
  | [] => ret logs
  | tc :: rest =>
      (let* log := handleToolCall tc deltaIndex now in
       handleToolCalls rest deltaIndex now
         (match log with Some log => logs ++ [log] | None => logs end))%eff
  end.

(** The [for] loop of [evaluate] with [remaining] rounds left, that is at
    [iter = MAX_TOOL_ITERATIONS - remaining]. *)
Fixpoint rounds (remaining : nat) (journal : JournalData) (now : Z)
    (logs : list MemoryLogEntry) : Eff (World A O) (list MemoryLogEntry) :=
  match remaining with
  | 0%nat => ret logs
  | S remaining =>
      (let* response := adapter_complete in
       let deltaIndex := Z.of_nat (length (cleanContext journal)) in
       if (length (toolCalls response) =? 0)%nat || done response then
         (* Execute any final tool calls before breaking *)
         handleToolCalls (toolCalls response) deltaIndex now logs
       else
         let* logs := handleToolCalls (toolCalls response) deltaIndex now logs in
         rounds remaining journal now logs)%eff
  end.

Definition message_line (m : CleanMessage) : string :=
  "[" +:+ role_string (role m) +:+ "]: " +:+ text m.

Definition newline : string := String (ascii_of_nat 10) EmptyString.

Definition buildPrompt (journal : JournalData) (delta : list CleanMessage) : string :=
  let context_part :=
    (* [CONTEXT] – full conversation history for background understanding *)
    if (0 <? length (cleanContext journal))%nat then
      ["[CONTEXT]" +:+ newline +:+ join newline (map message_line (cleanContext journal))]
    else [] in
  let logs_part :=
    (* [MEMORY LOGS] – actions already taken in this session *)
    if (0 <? length (memoryLogs journal))%nat then
      ["[MEMORY LOGS]" +:+ newline +:+
       join newline
         (map (fun l => "- " +:+ action_string (action l) +:+ " ["
                        +:+ str_take 8 (memoryId l) +:+ "]: " +:+ str_take 80 (log_text l))
              (memoryLogs journal))]
    else ["[MEMORY LOGS]" +:+ newline +:+ "No memory operations in this session yet."] in
  let delta_part :=
    (* [NEW DELTA] – only these messages should be analyzed for decisions *)
    ["[NEW DELTA]" +:+ newline +:+ join newline (map message_line delta)] in
  join (newline +:+ newline) (context_part ++ logs_part ++ delta_part).

(** Evaluate a journal's delta and execute memory operations via tool calls.
    Returns logs of all operations performed.  [now] is what [Date.now()]
    returns.  The adapter is local to the call. *)
Definition evaluate (journal : JournalData) (delta : list CleanMessage) (now : Z)
    : Eff (Env O) DecisionResult :=
  if (length delta =? 0)%nat then ret {| logs := [] |}
  else
    let userPrompt := buildPrompt journal delta in
    let adapter := newAdapter SYSTEM_PROMPT userPrompt in
    fun e =>
      let '(outcome, w) := rounds MAX_TOOL_ITERATIONS journal now [] (mkWorld adapter e) in
      (match outcome with
       | Ok logs => Ok {| logs := logs |}
       | Throw err => Throw err
       end, env w).

(** ** Reading the record of calls *)

(** [String(args.key ?? fallback)] *)
Definition arg_string (args : gmap string Value) (key fallback : string) : string :=
  toString (nullish args key (Str fallback)).

(** [Number(args.key ?? fallback)] *)
Definition arg_number (args : gmap string Value) (key : string) (fallback : float) : float :=
  toNumber (nullish args key (Num fallback)).

(** The ways in which executing one tool call fails, with the message of the
    error: a required argument is missing (or empty), the memory operation
    throws, or the tool is not one of the three. *)
Inductive tool_failure (tc : ToolCallRequest) (o : O) : string -> Prop :=
| store_without_text :
    name tc = "store_memory" ->
    arg_string (args tc) "text" "" = "" ->
    tool_failure tc o "text is required for store_memory"
| store_throws err o' :
    name tc = "store_memory" ->
    arg_string (args tc) "text" "" ≠ "" ->
    store ops (arg_string (args tc) "text" "") (arg_string (args tc) "category" "other")
      (arg_number (args tc) "importance" 0.7%float) o = (Throw err, o') ->
    tool_failure tc o (message err)
| forget_without_memoryId :
    name tc = "forget_memory" ->
    arg_string (args tc) "memoryId" "" = "" ->
    tool_failure tc o "memoryId is required for forget_memory"
| forget_throws err o' :
    name tc = "forget_memory" ->
    arg_string (args tc) "memoryId" "" ≠ "" ->
    forget ops (arg_string (args tc) "memoryId" "") o = (Throw err, o') ->
    tool_failure tc o (message err)
| update_without_memoryId :
    name tc = "update_memory" ->
    arg_string (args tc) "memoryId" "" = "" ->
    tool_failure tc o "memoryId is required for update_memory"
| update_without_text :
    name tc = "update_memory" ->
    arg_string (args tc) "memoryId" "" ≠ "" ->
    arg_string (args tc) "text" "" = "" ->
    tool_failure tc o "text is required for update_memory"
| update_throws err o' :
    name tc = "update_memory" ->
    arg_string (args tc) "memoryId" "" ≠ "" ->
    arg_string (args tc) "text" "" ≠ "" ->
    update ops (arg_string (args tc) "memoryId" "") (arg_string (args tc) "text" "")
      (arg_string (args tc) "category" "other")
      (arg_number (args tc) "importance" 0.7%float) o = (Throw err, o') ->
    tool_failure tc o (message err)
| unknown_tool :
    name tc ≠ "store_memory" -> name tc ≠ "forget_memory" -> name tc ≠ "update_memory" ->
    tool_failure tc o ("Unknown tool: " +:+ name tc).

End WithBackends.

(** The number of [complete()] calls in a record of calls. *)
Definition is_completed (ev : Event) : bool :=
  match ev with Completed _ => true | _ => false end.

Definition count_completed (evs : list Event) : nat :=
  length (List.filter is_completed evs).

(** The log entry of a memory operation that succeeded. *)
Definition entry_of_event (deltaIndex now : Z) (ev : Event) : option MemoryLogEntry :=
  match ev with
  | Stored text _ _ (Ok memoryId) =>
      Some {| deltaIndex := deltaIndex; action := ActStore; memoryId := memoryId;
              log_text := text; timestamp := now |}
  | Forgot memoryId (Ok _) =>
      Some {| deltaIndex := deltaIndex; action := ActForget; memoryId := memoryId;
              log_text := ""; timestamp := now |}
  | Updated _ text _ _ (Ok newId) =>
      Some {| deltaIndex := deltaIndex; action := ActUpdate; memoryId := newId;
              log_text := text; timestamp := now |}
  | _ => None
  end.

(** The log entries of the memory operations that succeeded, in order. *)
Definition logs_of_calls (deltaIndex now : Z) (evs : list Event) : list MemoryLogEntry :=
  omap (entry_of_event deltaIndex now) evs.

(** ** Test doubles *)

(** An adapter that plays a fixed script: each [complete()] returns the next
    response, and once the script is over the model has nothing more to ask
    for.  Its state is the rest of the script and the tool results pushed so
    far. *)
Record Scripted : Type := mkScripted {
  script : list AdapterResponse;
  pushed_results : list (string * string * bool)
}.

Definition scripted_adapter (responses : list AdapterResponse) : ChatAdapter Scripted :=
  {| newAdapter := fun _ _ => mkScripted responses [];
     complete := fun a =>
       match script a with
       | [] => (Ok {| toolCalls := []; done := true |}, a)
       | response :: rest => (Ok response, mkScripted rest (pushed_results a))
       end;
     pushToolResult := fun toolCallId content isError a =>
       mkScripted (script a) (pushed_results a ++ [(toolCallId, content, isError)]) |}.

(** An adapter whose model asks for the same tool call on every round and
    never signals that it is done. *)
Definition insistent_adapter (tc : ToolCallRequest) : ChatAdapter unit :=
  {| newAdapter := fun _ _ => tt;
     complete := fun a => (Ok {| toolCalls := [tc]; done := false |}, a);
     pushToolResult := fun _ _ _ a => a |}.

(** Memory operations over a store that only counts the memories it was
    given: the n-th memory gets the n-th of the given ids ([fallback] once
    they run out); [forget] succeeds. *)
Definition counting_ops (ids : list string) (fallback : string) : MemoryOps nat :=
  {| store := fun _ _ _ n => (Ok (default fallback (ids !! n)), S n);
     forget := fun _ n => (Ok true, n);
     update := fun _ _ _ _ n => (Ok (default fallback (ids !! n)), S n) |}.

(** Memory operations that always throw, as on a store that finds every text
    a near-duplicate and every id invalid. *)
Definition failing_ops : MemoryOps unit :=
  {| store := fun _ _ _ o => (Throw (mkError "Similar memory already exists"), o);
     forget := fun _ o => (Throw (mkError "Invalid memoryId format"), o);
     update := fun _ _ _ _ o => (Throw (mkError "Invalid memoryId format"), o) |}.

(** A number codec for examples, which prints every number as [NaN] and
    reads every string as [NaN]. *)
Definition example_codec : NumberCodec :=
  {| number_to_string := fun _ => "NaN";
     string_to_number := fun _ => nan |}.

End LLMDecisionMaker.

Import SessionJournal.
Import LLMDecisionMaker.

(* ====================================================================== *)
(** * Examples                                                              *)
(* ====================================================================== *)

(** A host for examples: POSIX-style paths and a stub of the JSON codec,
    which reads every document as corrupt. *)
Definition example_host : Host :=
  {| sessionsDir := "/db/sessions";
     path_join := fun dir file => dir +:+ "/" +:+ file;
     path_dirname := fun _ => "/db/sessions";
     JSON_parse := fun _ => None;
     JSON_stringify := fun _ => "{}" |}.

(** A session with one message in its context and nothing processed yet. *)
Definition example_loaded : State :=
  snd (appendMessages (host := example_host) "s" [{| role := user; text := "hi" |}]
         "6f1c2d3e-aaaa" (new ∅)).

(** A file system in which the journal file of session [s] is not JSON. *)
Definition example_corrupt : State :=
  new (<["/db/sessions/s.json" := "{ processedIndex: "]> ∅).

(** The journal, the delta and the tool call of the end-to-end example. *)
Definition dark_mode : CleanMessage := {| role := user; text := "I like dark mode" |}.

Definition dark_mode_journal : JournalData :=
  {| processedIndex := 0; cleanContext := [dark_mode]; memoryLogs := [] |}.

Definition dark_mode_call (toolCallId : string) : ToolCallRequest :=
  {| id := toolCallId;
     name := "store_memory";
     args := <["text" := Str "I like dark mode"]>
               (<["category" := Str "preference"]>
                  (<["importance" := Num 0.8%float]> ∅)) |}.

(* ====================================================================== *)
(** * A host whose codec reads back what it printed                         *)
(* ====================================================================== *)

(** A host is lawful when parsing what [JSON.stringify] printed gives the
    journal back, as [JSON.parse] does for a [JournalData]. *)
Definition lawful (host : Host) : Prop :=
  forall data, JSON_parse (JSON_stringify data) = Some data.

(** The binary digits of a positive number, lowest first, as text. *)
Fixpoint pos_to_bits (p : positive) : string :=
  match p with
  | xH => EmptyString
  | xO p => String "0" (pos_to_bits p)
  | xI p => String "1" (pos_to_bits p)
  end.

Fixpoint bits_to_pos (s : string) : option positive :=
  match s with
  | EmptyString => Some xH
  | String c rest =>
      match bits_to_pos rest with
      | Some p =>
          if Ascii.eqb c "0" then Some (xO p)
          else if Ascii.eqb c "1" then Some (xI p)
          else None
      | None => None
      end
  end.

Definition role_of_bool (b : bool) : Role := if b then user else assistant.
Definition bool_of_role (r : Role) : bool := match r with user => true | assistant => false end.

Definition action_of_nat (n : nat) : Action :=
  match n with 0%nat => ActStore | 1%nat => ActForget | _ => ActUpdate end.
Definition nat_of_action (a : Action) : nat :=
  match a with ActStore => 0%nat | ActForget => 1%nat | ActUpdate => 2%nat end.

(** A journal as nested tuples, and back. *)
Definition journal_to_tuple (data : JournalData)
    : Z * list (bool * string) * list (Z * nat * string * string * Z) :=
  (processedIndex data,
   map (fun m => (bool_of_role (role m), text m)) (cleanContext data),
   map (fun l => (deltaIndex l, nat_of_action (action l), memoryId l, log_text l, timestamp l))
       (memoryLogs data)).

Definition journal_of_tuple
    (t : Z * list (bool * string) * list (Z * nat * string * string * Z)) : JournalData :=
  let '(index, context, entries) := t in
  {| processedIndex := index;
     cleanContext := map (fun '(r, t) => {| role := role_of_bool r; text := t |}) context;
     memoryLogs :=
       map (fun '(d, a, i, t, ts) =>
              {| deltaIndex := d; action := action_of_nat a; memoryId := i;
                 log_text := t; timestamp := ts |}) entries |}.

#[global] Instance Action_eq_dec : EqDecision Action.
Proof. solve_decision. Defined.
#[global] Instance MemoryLogEntry_eq_dec : EqDecision MemoryLogEntry.
Proof. solve_decision. Defined.
#[global] Instance JournalData_eq_dec : EqDecision JournalData.
Proof. solve_decision. Defined.

#[global] Instance JournalData_countable : Countable JournalData.
Proof.
  apply (inj_countable' journal_to_tuple journal_of_tuple).
  intros [index context entries]. unfold journal_to_tuple, journal_of_tuple.
  cbn [processedIndex cleanContext memoryLogs]. f_equal.
  - rewrite map_map. rewrite <- (map_id context) at 2. apply map_ext.
    by intros [[] t].
  - rewrite map_map. rewrite <- (map_id entries) at 2. apply map_ext.
    by intros [d [] i t ts].
Defined.

(** A host with POSIX-style paths whose codec prints a journal as the binary
    digits of its code and reads such digits back.  It is not JSON, but it
    is lawful. *)
Definition storage_host : Host :=
  {| sessionsDir := "/db/sessions";
     path_join := fun dir file => dir +:+ "/" +:+ file;
     path_dirname := fun _ => "/db/sessions";
     JSON_parse := fun raw => match bits_to_pos raw with
                              | Some p => decode p
                              | None => None
                              end;
     JSON_stringify := fun data => pos_to_bits (encode data) |}.

(** Every character of a string is in the class [[a-zA-Z0-9_-]]. *)
Fixpoint all_safe (s : string) : bool :=
  match s with
  | EmptyString => true
  | String c rest => safe_char c && all_safe rest
  end.

Section JournalSteps.
Context `{host : Host}.

(** One call on the journal for the session [sessionKey], with any
    arguments. *)
Inductive journal_step_on (sessionKey : string) (s : State) : State -> Prop :=
| step_on_appendMessages messages uuid :
    journal_step_on sessionKey s (snd (appendMessages sessionKey messages uuid s))
| step_on_commitDecisions logs newProcessedIndex uuid :
    journal_step_on sessionKey s
      (snd (commitDecisions sessionKey logs newProcessedIndex uuid s)).

End JournalSteps.


(* ====================================================================== *)
(** * Internal tool schemas (decision-maker.ts)                             *)
(* ====================================================================== *)

(** One entry of [properties]: its [type], its [description] and, for the
    category, its [enum]. *)
Record ParamSchema : Type := mkParamSchema {
  param_type : string;
  param_description : string;
  param_enum : option (list string)
}.

(** [InternalToolDef]; [parameters.type] is always ["object"]. *)
Record InternalToolDef : Type := mkInternalToolDef {
  tool_name : string;
  tool_description : string;
  tool_properties : list (string * ParamSchema);
  tool_required : list string
}.

Definition category_schema : ParamSchema :=
  {| param_type := "string";
     param_description := "Memory category";
     param_enum := Some ["preference"; "fact"; "decision"; "entity"; "other"] |}.

Definition TOOL_DEFS : list InternalToolDef :=
  [ {| tool_name := "store_memory";
       tool_description := "Store a new piece of information in long-term memory.";
       tool_properties :=
         [ ("text", {| param_type := "string";
                       param_description := "The original conversation text to store";
                       param_enum := None |});
           ("category", category_schema);
           ("importance", {| param_type := "number";
                             param_description := "Importance score from 0 to 1";
                             param_enum := None |}) ];
       tool_required := ["text"; "category"; "importance"] |};
    {| tool_name := "forget_memory";
       tool_description :=
         "Delete a memory by its ID. Only use when the user explicitly asks to forget.";
       tool_properties :=
         [ ("memoryId", {| param_type := "string";
                           param_description := "UUID of the memory to delete";
                           param_enum := None |}) ];
       tool_required := ["memoryId"] |};
    {| tool_name := "update_memory";
       tool_description :=
         "Update an existing memory (replaces it with new text). Use when new information contradicts or refines a previously stored memory.";
       tool_properties :=
         [ ("memoryId", {| param_type := "string";
                           param_description := "UUID of the memory to update";
                           param_enum := None |});
           ("text", {| param_type := "string";
                       param_description := "Updated memory text";
                       param_enum := None |});
           ("category", category_schema);
           ("importance", {| param_type := "number";
                             param_description := "Updated importance score 0-1";
                             param_enum := None |}) ];
       tool_required := ["memoryId"; "text"; "category"; "importance"] |} ].

(* ====================================================================== *)
(** * Reading the record of calls, continued                                *)
(* ====================================================================== *)

(** The ids of the tool results pushed to the adapter, in order. *)
Definition pushed_ids (evs : list Event) : list string :=
  omap (fun ev => match ev with PushedToolResult i _ _ => Some i | _ => None end) evs.

(** The ids of the tool calls the adapter returned, in order. *)
Definition requested_ids (evs : list Event) : list string :=
  concat (map (fun ev => match ev with
                         | Completed (Ok response) => map id (toolCalls response)
                         | _ => []
                         end) evs).

(** A call on the memory operations. *)
Definition is_ops_event (ev : Event) : bool :=
  match ev with
  | Stored _ _ _ _ | Forgot _ _ | Updated _ _ _ _ _ => true
  | _ => false
  end.

(** A call on the memory operations or on the logger: not one on the
    adapter. *)
Definition is_backend_event (ev : Event) : bool :=
  match ev with
  | Completed _ | PushedToolResult _ _ _ => false
  | _ => true
  end.



(* ====================================================================== *)
(** * Chat adapters (decision-maker.ts)                                     *)
(* ====================================================================== *)

(** [JSON.parse(tc.function.arguments) as Record<string, unknown>]: the
    parser of the runtime, with the error it throws on a malformed document;
    a parsed value is taken at the type the code casts it to. *)
Class ArgumentsCodec : Type := {
  JSON_parse_arguments : string -> Result (gmap string Value)
}.

(** ** OpenAI adapter *)

(** An entry of [message.tool_calls]: a function call, or a call of another
    [type], which has no [function]. *)
Inductive OpenAIToolCall : Type :=
| FunctionToolCall (call_id fn_name fn_arguments : string)
| CustomToolCall (call_id : string).

(** [choice.message]: [tool_calls] may be absent. *)
Record OpenAIAssistantMessage : Type := mkOpenAIAssistantMessage {
  assistant_content : option string;
  assistant_tool_calls : option (list OpenAIToolCall)
}.

(** [OpenAI.ChatCompletionMessageParam], as far as the adapter builds it. *)
Inductive OpenAIMessage : Type :=
| SystemMessage (content : string)
| UserMessage (content : string)
| AssistantMessage (reply : OpenAIAssistantMessage)
| ToolMessage (tool_call_id content : string).

Record OpenAIChoice : Type := mkOpenAIChoice {
  choice_message : OpenAIAssistantMessage;
  finish_reason : string
}.

(** [{ type: "function", function: { name, description, parameters } }] *)
Record OpenAITool : Type := mkOpenAITool {
  openai_tool_type : string;
  openai_tool_function : InternalToolDef
}.

(** The argument of [client.chat.completions.create]. *)
Record OpenAIRequest : Type := mkOpenAIRequest {
  request_model : string;
  request_messages : list OpenAIMessage;
  request_tools : list OpenAITool;
  request_tool_choice : string
}.

(** The OpenAI SDK client, over the state of whatever answers it:
    [new OpenAI({ apiKey, baseURL })] and [chat.completions.create], which
    resolves to [response.choices] or rejects. *)
Class OpenAIClient (C : Type) : Type := {
  openai_client : string -> string -> C;
  chat_completions_create : OpenAIRequest -> C -> Result (list OpenAIChoice) * C
}.

(** The fields of an [OpenAIAdapter] object. *)
Record OpenAIAdapter (C : Type) : Type := mkOpenAIAdapter {
  openai_sdk : C;
  openai_model : string;
  openai_messages : list OpenAIMessage;
  openai_tools : list OpenAITool
}.
Arguments mkOpenAIAdapter {C} _ _ _ _.
Arguments openai_sdk {C} _.
Arguments openai_model {C} _.
Arguments openai_messages {C} _.
Arguments openai_tools {C} _.

(** ** Anthropic adapter *)

(** A block of [response.content]. *)
Inductive AnthropicBlock : Type :=
| TextBlock (block_text : string)
| ToolUseBlock (block_id block_name : string) (block_input : gmap string Value)
| OtherBlock (block_type : string).

(** [Anthropic.Messages.MessageParam], as far as the adapter builds it: the
    user prompt, an assistant reply, and a user message that holds one
    [tool_result] block. *)
Inductive AnthropicMessage : Type :=
| UserPrompt (content : string)
| AssistantReply (content : list AnthropicBlock)
| ToolResult (tool_use_id content : string) (is_error : bool).

Record AnthropicResponse : Type := mkAnthropicResponse {
  response_content : list AnthropicBlock;
  stop_reason : option string
}.

(** [{ name, description, input_schema }] *)
Record AnthropicTool : Type := mkAnthropicTool {
  anthropic_tool_name : string;
  anthropic_tool_description : string;
  anthropic_tool_input_schema : list (string * ParamSchema) * list string
}.

(** The argument of [client.messages.create]. *)
Record AnthropicRequest : Type := mkAnthropicRequest {
  anthropic_request_model : string;
  anthropic_request_max_tokens : Z;
  anthropic_request_system : string;
  anthropic_request_messages : list AnthropicMessage;
  anthropic_request_tools : list AnthropicTool;
  anthropic_request_tool_choice : string
}.

Class AnthropicClient (C : Type) : Type := {
  anthropic_client : string -> string -> C;
  messages_create : AnthropicRequest -> C -> Result AnthropicResponse * C
}.

(** The fields of an [AnthropicAdapter] object. *)
Record AnthropicAdapter (C : Type) : Type := mkAnthropicAdapter {
  anthropic_sdk : C;
  anthropic_model : string;
  anthropic_messages : list AnthropicMessage;
  anthropic_tools : list AnthropicTool;
  anthropic_systemPrompt : string
}.
Arguments mkAnthropicAdapter {C} _ _ _ _ _.
Arguments anthropic_sdk {C} _.
Arguments anthropic_model {C} _.
Arguments anthropic_messages {C} _.
Arguments anthropic_tools {C} _.
Arguments anthropic_systemPrompt {C} _.

Module Adapters.

Section OpenAI.
Context {C : Type} `{client : OpenAIClient C} `{parser : ArgumentsCodec}.

(** [constructor(model, apiKey, baseUrl, systemPrompt, userPrompt)] *)
Definition openai_new (model apiKey baseUrl systemPrompt userPrompt : string)
    : OpenAIAdapter C :=
  {| openai_sdk := openai_client apiKey baseUrl;
     openai_model := model;
     openai_messages := [SystemMessage systemPrompt; UserMessage userPrompt];
     openai_tools := map (fun t => {| openai_tool_type := "function";
                                      openai_tool_function := t |}) TOOL_DEFS |}.

(** The loop over [choice.message.tool_calls], from the calls collected so
    far: a call that is not a function call is skipped, a function call
    whose arguments [JSON.parse] rejects ends the loop with that error. *)
Fixpoint openai_collect (tool_calls : list OpenAIToolCall)
    (toolCalls : list ToolCallRequest) : Result (list ToolCallRequest) :=
  match tool_calls with
  | [] => Ok toolCalls
  | CustomToolCall _ :: rest => openai_collect rest toolCalls
  | FunctionToolCall call_id fn_name fn_arguments :: rest =>
      match JSON_parse_arguments fn_arguments with
      | Ok parsed =>
          openai_collect rest
            (toolCalls ++ [{| id := call_id; name := fn_name; args := parsed |}])
      | Throw err => Throw err
      end
  end.

Definition openai_request (a : OpenAIAdapter C) : OpenAIRequest :=
  {| request_model := openai_model a;
     request_messages := openai_messages a;
     request_tools := openai_tools a;
     request_tool_choice := "auto" |}.

Definition openai_complete : Eff (OpenAIAdapter C) AdapterResponse :=
  fun a =>
    let '(outcome, sdk) := chat_completions_create (openai_request a) (openai_sdk a) in
    let a := mkOpenAIAdapter sdk (openai_model a) (openai_messages a) (openai_tools a) in
    match outcome with
    | Throw err => (Throw err, a)
    | Ok choices =>
        match choices with
        | [] => (Ok {| toolCalls := []; done := true |}, a)
        | choice :: _ =>
            let a :=
              mkOpenAIAdapter (openai_sdk a) (openai_model a)
                (openai_messages a ++ [AssistantMessage (choice_message choice)])
                (openai_tools a) in
            match openai_collect
                    (default [] (assistant_tool_calls (choice_message choice))) [] with
            | Throw err => (Throw err, a)
            | Ok toolCalls =>
                (Ok {| toolCalls := toolCalls;
                       done := (length toolCalls =? 0)%nat
                               || String.eqb (finish_reason choice) "stop" |}, a)
            end
        end
    end.

(** [_isError] is not used. *)
Definition openai_pushToolResult (toolCallId content : string) (_isError : bool)
    (a : OpenAIAdapter C) : OpenAIAdapter C :=
  mkOpenAIAdapter (openai_sdk a) (openai_model a)
    (openai_messages a ++ [ToolMessage toolCallId content]) (openai_tools a).

End OpenAI.

Section Anthropic.
Context {C : Type} `{client : AnthropicClient C}.

Definition anthropic_new (model apiKey baseUrl systemPrompt userPrompt : string)
    : AnthropicAdapter C :=
  {| anthropic_sdk := anthropic_client apiKey baseUrl;
     anthropic_model := model;
     anthropic_messages := [UserPrompt userPrompt];
     anthropic_tools :=
       map (fun t => {| anthropic_tool_name := tool_name t;
                        anthropic_tool_description := tool_description t;
                        anthropic_tool_input_schema :=
                          (tool_properties t, tool_required t) |}) TOOL_DEFS;
     anthropic_systemPrompt := systemPrompt |}.

(** The loop over [response.content], from the calls collected so far. *)
Fixpoint anthropic_collect (content : list AnthropicBlock)
    (toolCalls : list ToolCallRequest) : list ToolCallRequest :=
  match content with
  | [] => toolCalls
  | ToolUseBlock block_id block_name block_input :: rest =>
      anthropic_collect rest
        (toolCalls ++ [{| id := block_id; name := block_name; args := block_input |}])
  | _ :: rest => anthropic_collect rest toolCalls
  end.

Definition anthropic_request (a : AnthropicAdapter C) : AnthropicRequest :=
  {| anthropic_request_model := anthropic_model a;
     anthropic_request_max_tokens := 4096;
     anthropic_request_system := anthropic_systemPrompt a;
     anthropic_request_messages := anthropic_messages a;
     anthropic_request_tools := anthropic_tools a;
     anthropic_request_tool_choice := "auto" |}.

Definition anthropic_complete : Eff (AnthropicAdapter C) AdapterResponse :=
  fun a =>
    let '(outcome, sdk) := messages_create (anthropic_request a) (anthropic_sdk a) in
    let a := mkAnthropicAdapter sdk (anthropic_model a) (anthropic_messages a)
               (anthropic_tools a) (anthropic_systemPrompt a) in
    match outcome with
    | Throw err => (Throw err, a)
    | Ok response =>
        (* Append assistant reply to conversation *)
        let a :=
          mkAnthropicAdapter (anthropic_sdk a) (anthropic_model a)
            (anthropic_messages a ++ [AssistantReply (response_content response)])
            (anthropic_tools a) (anthropic_systemPrompt a) in
        let toolCalls := anthropic_collect (response_content response) [] in
        (Ok {| toolCalls := toolCalls;
               done := (length toolCalls =? 0)%nat
                       || negb (bool_decide (stop_reason response = Some "tool_use")) |},
         a)
    end.

(** Anthropic expects tool results as content blocks inside a user
    message. *)
Definition anthropic_pushToolResult (toolCallId content : string) (isError : bool)
    (a : AnthropicAdapter C) : AnthropicAdapter C :=
  mkAnthropicAdapter (anthropic_sdk a) (anthropic_model a)
    (anthropic_messages a ++ [ToolResult toolCallId content isError])
    (anthropic_tools a) (anthropic_systemPrompt a).

End Anthropic.

(** The adapter [evaluate] creates: [AnthropicAdapter] when [api] is
    ["anthropic-messages"], [OpenAIAdapter] for any other value. *)
Definition create {CA CO : Type} `{anthropic : AnthropicClient CA}
    `{openai : OpenAIClient CO} `{parser : ArgumentsCodec}
    (api model apiKey baseUrl : string)
    : ChatAdapter (AnthropicAdapter CA + OpenAIAdapter CO) :=
  {| newAdapter := fun systemPrompt userPrompt =>
       if String.eqb api "anthropic-messages"
       then inl (anthropic_new model apiKey baseUrl systemPrompt userPrompt)
       else inr (openai_new model apiKey baseUrl systemPrompt userPrompt);
     complete := fun a =>
       match a with
       | inl a => let '(outcome, a) := anthropic_complete a in (outcome, inl a)
       | inr a => let '(outcome, a) := openai_complete a in (outcome, inr a)
       end;
     pushToolResult := fun toolCallId content isError a =>
       match a with
       | inl a => inl (anthropic_pushToolResult toolCallId content isError a)
       | inr a => inr (openai_pushToolResult toolCallId content isError a)
       end |}.

End Adapters.

(** ** Reading a transcript *)

(** The ids of the function calls of an assistant message, in order. *)
Definition function_call_ids (reply : OpenAIAssistantMessage) : list string :=
  omap (fun tc => match tc with
                  | FunctionToolCall call_id _ _ => Some call_id
                  | CustomToolCall _ => None
                  end)
       (default [] (assistant_tool_calls reply)).

(** The ids of the [tool_use] blocks of an assistant reply, in order. *)
Definition tool_use_ids (content : list AnthropicBlock) : list string :=
  omap (fun block => match block with
                     | ToolUseBlock block_id _ _ => Some block_id
                     | _ => None
                     end) content.

(** An OpenAI transcript in which every function call has its answer: the
    two prompts, then rounds of one assistant message followed by one [tool]
    message per function call of that message, in the order of the calls. *)
Inductive answered : list OpenAIMessage -> Prop :=
| answered_prompts systemPrompt userPrompt :
    answered [SystemMessage systemPrompt; UserMessage userPrompt]
| answered_round transcript reply results :
    answered transcript ->
    map fst results = function_call_ids reply ->
    answered (transcript ++ AssistantMessage reply
                :: map (fun r => ToolMessage (fst r) (snd r)) results).

(** The same for an Anthropic transcript: the prompt, then rounds of one
    assistant reply followed by one [tool_result] message per [tool_use]
    block of that reply. *)
Inductive tool_uses_answered : list AnthropicMessage -> Prop :=
| tool_uses_answered_prompt userPrompt :
    tool_uses_answered [UserPrompt userPrompt]
| tool_uses_answered_round transcript content results :
    tool_uses_answered transcript ->
    map (fun r => fst (fst r)) results = tool_use_ids content ->
    tool_uses_answered
      (transcript ++ AssistantReply content
         :: map (fun r => ToolResult (fst (fst r)) (snd (fst r)) (snd r)) results).

(** The tool results among the calls, in order. *)
Definition pushed_results_of (evs : list Event) : list (string * string * bool) :=
  omap (fun ev => match ev with
                  | PushedToolResult toolCallId content isError =>
                      Some (toolCallId, content, isError)
                  | _ => None
                  end) evs.

(** The adapter after the given tool results were pushed, in order. *)
Definition replay_results {A} `{chat : ChatAdapter A}
    (results : list (string * string * bool)) (a : A) : A :=
  foldl (fun a r => pushToolResult (fst (fst r)) (snd (fst r)) (snd r) a) a results.

(** The transcript of whichever adapter was created has every call
    answered. *)
Definition transcript_answered {CA CO}
    (a : AnthropicAdapter CA + OpenAIAdapter CO) : Prop :=
  match a with
  | inl a => tool_uses_answered (anthropic_messages a)
  | inr a => answered (openai_messages a)
  end.

(** ** Test doubles for the clients *)

(** An OpenAI client that plays a fixed script of replies and then rejects. *)
Definition scripted_openai (replies : list (list OpenAIChoice))
    : OpenAIClient (list (list OpenAIChoice)) :=
  {| openai_client := fun _ _ => replies;
     chat_completions_create := fun _ c =>
       match c with
       | [] => (Throw (mkError "Connection error."), [])
       | choices :: rest => (Ok choices, rest)
       end |}.

(** An Anthropic client that plays a fixed script of replies and then
    rejects. *)
Definition scripted_anthropic (replies : list AnthropicResponse)
    : AnthropicClient (list AnthropicResponse) :=
  {| anthropic_client := fun _ _ => replies;
     messages_create := fun _ c =>
       match c with
       | [] => (Throw (mkError "Connection error."), [])
       | response :: rest => (Ok response, rest)
       end |}.

(** The arguments of one store request, as the model writes them. *)
Definition dark_arguments : string :=
  "{" +:+ dquote +:+ "text" +:+ dquote +:+ ":" +:+ dquote +:+ "dark" +:+ dquote +:+ "}".

(** A parser for examples, which reads the empty object and that store
    request, and rejects everything else. *)
Definition example_parser : ArgumentsCodec :=
  {| JSON_parse_arguments := fun raw =>
       if String.eqb raw "{}" then Ok ∅
       else if String.eqb raw dark_arguments then Ok (<["text" := Str "dark"]> ∅)
       else Throw (mkError "SyntaxError: Unexpected token") |}.


(* ====================================================================== *)
(** * The plugin (index.ts): message extraction and the capture hook        *)
(* ====================================================================== *)

(** What the plugin takes from the runtime: [String.prototype.trim] and the
    [length] of a string in UTF-16 code units; for an error [String(err)]
    and its [stack], which may be missing; and the [TypeError] thrown on
    reading the given property of [undefined]. *)
Class JsRuntime : Type := {
  trim : string -> string;
  utf16_length : string -> nat;
  error_string : Error -> string;
  error_stack : Error -> option string;
  property_of_undefined : string -> Error
}.

(** [s.includes(needle)] *)
Fixpoint includes (needle s : string) : bool :=
  String.prefix needle s
  || match s with
     | EmptyString => false
     | String _ rest => includes needle rest
     end.

(** [obj.key]; [None] is [undefined].  The first field of that name is the
    property. *)
Fixpoint get_field (key : string) (fields : list (string * Value)) : option Value :=
  match fields with
  | [] => None
  | (k, v) :: rest => if String.eqb k key then Some v else get_field key rest
  end.

(** [event] and [ctx] of the [agent_end] hook, as far as the handler reads
    them. *)
Record AgentEndEvent : Type := mkAgentEndEvent {
  event_success : bool;
  event_messages : option (list Value)
}.

Record AgentContext : Type := mkAgentContext {
  ctx_sessionId : option string;
  ctx_sessionKey : option string
}.

Module Plugin.

(** The state the handler works on: the session journal, and the decision
    maker's environment, whose record of calls also holds the lines the
    handler logs. *)
Record State (O : Type) : Type := mkState {
  journal : SessionJournal.State;
  world : Env O
}.
Arguments mkState {O} _ _.
Arguments journal {O} _.
Arguments world {O} _.

Definition RELEVANT_MEMORIES : string := "<relevant-memories>".

Section WithRuntime.
Context `{runtime : JsRuntime}.

(** [text.length > 0 && !text.includes("<relevant-memories>")] *)
Definition capturable (text : string) : bool :=
  (0 <? String.length text)%nat && negb (includes RELEVANT_MEMORIES text).

(** The body of the loop over the blocks of an array content. *)
Definition extract_block (role : Role) (result : list CleanMessage) (block : Value)
    : list CleanMessage :=
  match block with
  | Obj fields =>
      match get_field "type" fields, get_field "text" fields with
      | Some (Str type), Some (Str block_text) =>
          if String.eqb type "text" then
            let text := trim block_text in
            if capturable text then result ++ [{| role := role; text := text |}]
            else result
          else result
      | _, _ => result
      end
  | _ => result
  end.

(** The body of the loop over the messages. *)
Definition extract_message (result : list CleanMessage) (msg : Value)
    : list CleanMessage :=
  match msg with
  | Obj fields =>
      let role :=
        match get_field "role" fields with
        | Some (Str role) =>
            if String.eqb role "user" then Some user
            else if String.eqb role "assistant" then Some assistant
            else None
        | _ => None
        end in
      match role with
      | None => result
      | Some role =>
          match get_field "content" fields with
          | Some (Str content) =>
              let text := trim content in
              if capturable text then result ++ [{| role := role; text := text |}]
              else result
          | Some (Arr blocks) => foldl (extract_block role) result blocks
          | _ => result
          end
      end
  | _ => result
  end.

(** Extract user/assistant plain-text messages from an agent event's message
    array. *)
Definition extractCleanMessages (messages : list Value) : list CleanMessage :=
  foldl extract_message [] messages.

(** [m] is what the message [msg] holds under one of its texts: [msg] is an
    object whose [role] is that of [m], and the text of [m] is the trimmed
    [content] when that is a string, or the trimmed [text] of a block of
    [type] ["text"] when [content] is an array. *)
Inductive extracted_from (msg : Value) (m : CleanMessage) : Prop :=
| from_content fields content :
    msg = Obj fields ->
    get_field "role" fields = Some (Str (role_string (role m))) ->
    get_field "content" fields = Some (Str content) ->
    text m = trim content ->
    extracted_from msg m
| from_block fields blocks block block_text :
    msg = Obj fields ->
    get_field "role" fields = Some (Str (role_string (role m))) ->
    get_field "content" fields = Some (Arr blocks) ->
    Obj block ∈ blocks ->
    get_field "type" block = Some (Str "text") ->
    get_field "text" block = Some (Str block_text) ->
    text m = trim block_text ->
    extracted_from msg m.

End WithRuntime.

Section WithPlugin.
Context {A O : Type} `{host : Host} `{chat : ChatAdapter A} `{codec : NumberCodec}
  `{runtime : JsRuntime}.
Variable ops : MemoryOps O.

Definition on_journal {T} (c : Eff SessionJournal.State T) : Eff (State O) T :=
  fun s => let '(r, j) := c (journal s) in (r, mkState j (world s)).

Definition on_world {T} (c : Eff (Env O) T) : Eff (State O) T :=
  fun s => let '(r, e) := c (world s) in (r, mkState (journal s) e).

(** The state after the handler logged the given lines. *)
Definition logged (lines : list Event) (s : State O) : State O :=
  mkState (journal s) (mkEnv (backend (world s)) (calls (world s) ++ lines)).

Definition info (msg : string) : Eff (State O) unit := on_world (logger_info msg).
Definition warn (msg : string) : Eff (State O) unit := on_world (logger_warn msg).

Definition bool_string (b : bool) : string := if b then "true" else "false".

(** [ctx.sessionId ?? ctx.sessionKey] *)
Definition session_key_of (ctx : AgentContext) : option string :=
  match ctx_sessionId ctx with
  | Some sessionId => Some sessionId
  | None => ctx_sessionKey ctx
  end.

(** The [agent_end] handler of auto-capture.  [uuid1] and [uuid2] are what
    [randomUUID()] returns in the two saves, [now] what [Date.now()] returns
    in [evaluate]. *)
Definition agent_end (event : AgentEndEvent) (ctx : AgentContext)
    (uuid1 uuid2 : string) (now : Z) : Eff (State O) unit :=
  (info ("memory-lancedb: agent_end triggered, success="
         +:+ bool_string (event_success event) +:+ ", messages="
         +:+ pretty (length (default [] (event_messages event)))) ;;
   match event_success event, event_messages event with
   | true, Some (first :: others) =>
       let messages := first :: others in
       match session_key_of ctx with
       | None | Some EmptyString =>
           warn "memory-lancedb: no sessionId/sessionKey in agent_end context, skipping capture"
       | Some sessionKey =>
           info ("memory-lancedb: using sessionId="
                 +:+ default "(none)" (ctx_sessionId ctx)
                 +:+ " (fallback sessionKey="
                 +:+ default "(none)" (ctx_sessionKey ctx) +:+ ")") ;;
           try_catch
             ((* Extract user/assistant plain text from the event messages *)
              let cleanMsgs := extractCleanMessages messages in
              info ("memory-lancedb: extracted " +:+ pretty (length cleanMsgs)
                    +:+ " clean messages from " +:+ pretty (length messages)
                    +:+ " raw messages") ;;
              if (length cleanMsgs =? 0)%nat then
                info "memory-lancedb: no clean messages, skipping"
              else
                (* Append to journal and get unprocessed delta *)
                let* appended := on_journal (appendMessages sessionKey cleanMsgs uuid1) in
                let journalData := fst appended in
                let delta := snd appended in
                info ("memory-lancedb: journal state - context="
                      +:+ pretty (length (cleanContext journalData))
                      +:+ ", processedIndex=" +:+ pretty (processedIndex journalData)
                      +:+ ", delta=" +:+ pretty (length delta)) ;;
                if (length delta =? 0)%nat then
                  info "memory-lancedb: delta is empty, skipping LLM call"
                else
                  (* Run LLM decision maker on the delta *)
                  info ("memory-lancedb: calling LLM decision maker with "
                        +:+ pretty (length delta) +:+ " new messages...") ;;
                  let* result := on_world (evaluate ops journalData delta now) in
                  info ("memory-lancedb: LLM returned " +:+ pretty (length (logs result))
                        +:+ " memory operations") ;;
                  (* Commit decisions (advance processedIndex + save logs) *)
                  on_journal
                    (commitDecisions sessionKey (logs result)
                       (Z.of_nat (length (cleanContext journalData))) uuid2) ;;
                  info ("memory-lancedb: committed decisions, new processedIndex="
                        +:+ pretty (length (cleanContext journalData))) ;;
                  if (0 <? length (logs result))%nat then
                    info ("memory-lancedb: auto-captured "
                          +:+ pretty (length (logs result))
                          +:+ " memory operations via LLM")
                  else ret tt)
             (fun err =>
                warn ("memory-lancedb: LLM capture failed: " +:+ error_string err) ;;
                (* Log full stack if available *)
                match error_stack err with
                | Some (String c rest) =>
                    warn ("memory-lancedb: stack: " +:+ String c rest)
                | _ => ret tt
                end)
       end
   | _, _ => info "memory-lancedb: skipping - no success or no messages"
   end)%eff.

End WithPlugin.

End Plugin.

(** A line of the log. *)
Definition is_log_event (ev : Event) : bool :=
  match ev with
  | LoggedInfo _ | LoggedWarn _ => true
  | _ => false
  end.

(** A runtime for examples, whose [trim] leaves every string as it is and
    whose errors have no stack. *)
Definition example_runtime : JsRuntime :=
  {| trim := fun s => s;
     utf16_length := String.length;
     error_string := fun err => "Error: " +:+ message err;
     error_stack := fun _ => None;
     property_of_undefined := fun key =>
       mkError ("Cannot read properties of undefined (reading '" +:+ key +:+ "')") |}.


(* ====================================================================== *)
(** * The plugin (index.ts): the memory store                               *)
(* ====================================================================== *)

Record MemoryEntry : Type := mkMemoryEntry {
  entry_id : string;
  entry_text : string;
  entry_vector : list float;
  entry_importance : float;
  entry_category : string;
  entry_createdAt : Z
}.

Record MemorySearchResult : Type := mkMemorySearchResult {
  result_entry : MemoryEntry;
  result_score : float
}.

(** A row a vector search returns: the entry and its [_distance], which may
    be missing. *)
Record TableRow : Type := mkTableRow {
  row_entry : MemoryEntry;
  row_distance : option float
}.

(** The LanceDB driver, over the state of the database: the dynamic import
    of the package, the connection, and the calls on the one table the
    plugin uses.  Every call may reject. *)
Class LanceDB (L : Type) : Type := {
  lancedb_import : Eff L unit;
  lancedb_connect : string -> Eff L unit;
  db_tableNames : Eff L (list string);
  db_openTable : string -> Eff L unit;
  db_createTable : string -> list MemoryEntry -> Eff L unit;
  table_add : list MemoryEntry -> Eff L unit;
  table_vectorSearch : list float -> Z -> Eff L (list TableRow);
  table_delete : string -> Eff L unit;
  table_countRows : Eff L Z
}.

(** The embeddings endpoint of the OpenAI SDK: [client.embeddings.create]
    resolves to the embeddings of [response.data], in order. *)
Class EmbeddingsClient (E : Type) : Type := {
  embeddings_create : string -> string -> Eff E (list (list float))
}.

(** [randomUUID()] and [Date.now()], over the state they draw from. *)
Class Entropy (R : Type) : Type := {
  randomUUID : Eff R string;
  Date_now : Eff R Z
}.

(** [0-9a-f] under the [i] flag. *)
Definition is_hex (c : ascii) : bool :=
  let n := nat_of_ascii c in
  ((48 <=? n) && (n <=? 57) || (97 <=? n) && (n <=? 102) || (65 <=? n) && (n <=? 70))%nat.

(** [[0-9a-f]{n}] at the start of [s]: what follows it. *)
Fixpoint hex_run (n : nat) (s : string) : option string :=
  match n with
  | 0%nat => Some s
  | S n =>
      match s with
      | String c rest => if is_hex c then hex_run n rest else None
      | EmptyString => None
      end
  end.

(** Groups of hexadecimal digits of the given lengths, with a hyphen
    between two groups, and nothing after the last. *)
Fixpoint hex_groups (groups : list nat) (s : string) : bool :=
  match groups with
  | [] => false
  | [n] => match hex_run n s with Some EmptyString => true | _ => false end
  | n :: rest =>
      match hex_run n s with
      | Some (String c s') => Ascii.eqb c "-" && hex_groups rest s'
      | _ => false
      end
  end.

(** [/^[0-9a-f]{8}-[0-9a-f]{4}-[0-9a-f]{4}-[0-9a-f]{4}-[0-9a-f]{12}$/i.test(id)] *)
Definition uuidRegex_test (id : string) : bool := hex_groups [8; 4; 4; 4; 12]%nat id.

(** Every character of a string satisfies [p]. *)
Fixpoint all_chars (p : ascii -> bool) (s : string) : bool :=
  match s with
  | EmptyString => true
  | String c rest => p c && all_chars p rest
  end.

(** A hexadecimal digit or a hyphen. *)
Definition uuid_char (c : ascii) : bool := is_hex c || Ascii.eqb c "-".

Module MemoryDB.

Definition TABLE_NAME : string := "memories".

(** The fields of a [MemoryDB] object that are set, the state of the driver
    behind them, and the module's [lancedbImportPromise]; a promise is
    represented by what it settles to. *)
Record State (L R : Type) : Type := mkState {
  lance : L;
  entropy : R;
  lancedbImportPromise : option (Result unit);
  db : bool;
  table : bool;
  initPromise : option (Result unit);
  dbPath : string;
  vectorDim : nat
}.
Arguments mkState {L R} _ _ _ _ _ _ _ _.
Arguments lance {L R} _.
Arguments entropy {L R} _.
Arguments lancedbImportPromise {L R} _.
Arguments db {L R} _.
Arguments table {L R} _.
Arguments initPromise {L R} _.
Arguments dbPath {L R} _.
Arguments vectorDim {L R} _.

(** [new MemoryDB(dbPath, vectorDim)] *)
Definition create {L R} (driver : L) (source : R) (path : string) (dim : nat)
    : State L R :=
  mkState driver source None false false None path dim.

Section WithDriver.
Context {L R : Type} `{driver : LanceDB L} `{random : Entropy R} `{runtime : JsRuntime}.

Definition on_lance {T} (c : Eff L T) : Eff (State L R) T :=
  fun s =>
    let '(r, l) := c (lance s) in
    (r, mkState l (entropy s) (lancedbImportPromise s) (db s) (table s) (initPromise s)
          (dbPath s) (vectorDim s)).

Definition on_entropy {T} (c : Eff R T) : Eff (State L R) T :=
  fun s =>
    let '(r, e) := c (entropy s) in
    (r, mkState (lance s) e (lancedbImportPromise s) (db s) (table s) (initPromise s)
          (dbPath s) (vectorDim s)).

Definition set_db : Eff (State L R) unit :=
  modify (fun s => mkState (lance s) (entropy s) (lancedbImportPromise s) true (table s)
                     (initPromise s) (dbPath s) (vectorDim s)).

Definition set_table : Eff (State L R) unit :=
  modify (fun s => mkState (lance s) (entropy s) (lancedbImportPromise s) (db s) true
                     (initPromise s) (dbPath s) (vectorDim s)).

Definition set_initPromise (outcome : Result unit) (s : State L R) : State L R :=
  mkState (lance s) (entropy s) (lancedbImportPromise s) (db s) (table s) (Some outcome)
    (dbPath s) (vectorDim s).

Definition loadLanceDB : Eff (State L R) unit :=
  fun s =>
    let '(outcome, s) :=
      match lancedbImportPromise s with
      | Some outcome => (outcome, s)
      | None =>
          let '(outcome, s) := on_lance lancedb_import s in
          (outcome,
           mkState (lance s) (entropy s) (Some outcome) (db s) (table s) (initPromise s)
             (dbPath s) (vectorDim s))
      end in
    match outcome with
    | Ok tt => (Ok tt, s)
    | Throw err =>
        (* Common on macOS today: upstream package may not ship darwin
           native bindings. *)
        (Throw (mkError ("memory-lancedb: failed to load LanceDB. " +:+ error_string err)),
         s)
    end.

(** The row the table is created with. *)
Definition schema_row (dim : nat) : MemoryEntry :=
  {| entry_id := "__schema__";
     entry_text := "";
     entry_vector := repeat 0%float dim;
     entry_importance := 0;
     entry_category := "other";
     entry_createdAt := 0 |}.

Definition schema_filter : string := "id = " +:+ dquote +:+ "__schema__" +:+ dquote.

Definition doInitialize : Eff (State L R) unit :=
  (loadLanceDB ;;
   let* path := gets dbPath in
   on_lance (lancedb_connect path) ;;
   set_db ;;
   let* tables := on_lance db_tableNames in
   if existsb (String.eqb TABLE_NAME) tables then
     on_lance (db_openTable TABLE_NAME) ;;
     set_table
   else
     let* dim := gets vectorDim in
     on_lance (db_createTable TABLE_NAME [schema_row dim]) ;;
     set_table ;;
     on_lance (table_delete schema_filter))%eff.

Definition ensureInitialized : Eff (State L R) unit :=
  fun s =>
    if table s then (Ok tt, s)
    else
      match initPromise s with
      | Some outcome => (outcome, s)
      | None =>
          let '(outcome, s) := doInitialize s in
          (outcome, set_initPromise outcome s)
      end.

Definition store (text : string) (vector : list float) (importance : float)
    (category : string) : Eff (State L R) MemoryEntry :=
  (ensureInitialized ;;
   let* uuid := on_entropy randomUUID in
   let* now := on_entropy Date_now in
   let fullEntry :=
     {| entry_id := uuid;
        entry_text := text;
        entry_vector := vector;
        entry_importance := importance;
        entry_category := category;
        entry_createdAt := now |} in
   on_lance (table_add [fullEntry]) ;;
   ret fullEntry)%eff.

(** LanceDB uses L2 distance by default; convert to similarity score.
    Use inverse for a 0-1 range: sim = 1 / (1 + d) *)
Definition score_of (row : TableRow) : float :=
  (1 / (1 + default 0 (row_distance row)))%float.

Definition search (vector : list float) (limit : Z) (minScore : float)
    : Eff (State L R) (list MemorySearchResult) :=
  (ensureInitialized ;;
   let* results := on_lance (table_vectorSearch vector limit) in
   let mapped :=
     map (fun row => {| result_entry := row_entry row; result_score := score_of row |})
       results in
   ret (List.filter (fun r => PrimFloat.leb minScore (result_score r)) mapped))%eff.

Definition id_filter (id : string) : string := "id = '" +:+ id +:+ "'".

Definition delete (id : string) : Eff (State L R) bool :=
  (ensureInitialized ;;
   (* Validate UUID format to prevent injection *)
   if negb (uuidRegex_test id) then
     throw (mkError ("Invalid memory ID format: " +:+ id))
   else
     on_lance (table_delete (id_filter id)) ;;
     ret true)%eff.

Definition count : Eff (State L R) Z :=
  (ensureInitialized ;;
   on_lance table_countRows)%eff.

End WithDriver.

End MemoryDB.

Module Embeddings.

Section WithClient.
Context {E : Type} `{client : EmbeddingsClient E} `{runtime : JsRuntime}.

(** [response.data[0].embedding] *)
Definition embed (model text : string) : Eff E (list float) :=
  (let* data := embeddings_create model text in
   match data with
   | embedding :: _ => ret embedding
   | [] => throw (property_of_undefined "embedding")
   end)%eff.

End WithClient.

End Embeddings.

(** What the memory operations work on: the store, and the embeddings
    client with its model. *)
Record Backend (L E R : Type) : Type := mkBackend {
  memory_db : MemoryDB.State L R;
  embeddings : E;
  embedding_model : string
}.
Arguments mkBackend {L E R} _ _ _.
Arguments memory_db {L E R} _.
Arguments embeddings {L E R} _.
Arguments embedding_model {L E R} _.

Module Capture.

Section WithBackend.
Context {L E R : Type} `{driver : LanceDB L} `{client : EmbeddingsClient E}
  `{random : Entropy R} `{runtime : JsRuntime}.

Definition on_db {T} (c : Eff (MemoryDB.State L R) T) : Eff (Backend L E R) T :=
  fun s =>
    let '(r, d) := c (memory_db s) in
    (r, mkBackend d (embeddings s) (embedding_model s)).

Definition embed (text : string) : Eff (Backend L E R) (list float) :=
  fun s =>
    let '(r, e) := Embeddings.embed (embedding_model s) text (embeddings s) in
    (r, mkBackend (memory_db s) e (embedding_model s)).

(** Build memory operations for the decision maker *)
Definition ops : MemoryOps (Backend L E R) :=
  {| store := fun text category importance =>
       (let* vector := embed text in
        (* Check for near-duplicates *)
        let* existing := on_db (MemoryDB.search vector 1 0.95%float) in
        match existing with
        | nearest :: _ =>
            throw (mkError ("Similar memory already exists: " +:+ dquote
                            +:+ str_take 60 (entry_text (result_entry nearest)) +:+ dquote
                            +:+ " (id: " +:+ entry_id (result_entry nearest)
                            +:+ "). Use update_memory to modify it."))
        | [] =>
            let* entry := on_db (MemoryDB.store text vector importance category) in
            ret (entry_id entry)
        end)%eff;
     forget := fun memoryId => on_db (MemoryDB.delete memoryId);
     update := fun memoryId text category importance =>
       ((* delete + re-embed + insert (holding the session queue lock) *)
        on_db (MemoryDB.delete memoryId) ;;
        let* vector := embed text in
        let* entry := on_db (MemoryDB.store text vector importance category) in
        ret (entry_id entry))%eff |}.

Definition on_backend {T} (c : Eff (Backend L E R) T) : Eff (Env (Backend L E R)) T :=
  fun e => let '(r, o) := c (backend e) in (r, mkEnv o (calls e)).

(** What auto-recall prepends to the context of the agent. *)
Definition recall_context (results : list MemorySearchResult) : string :=
  let memoryContext :=
    join newline
      (map (fun r => "- [" +:+ entry_category (result_entry r) +:+ "] "
                     +:+ entry_text (result_entry r)) results) in
  "<relevant-memories>" +:+ newline
  +:+ "The following memories may be relevant to this conversation:" +:+ newline
  +:+ memoryContext +:+ newline +:+ "</relevant-memories>".

(** Auto-recall: inject relevant memories before agent starts.  The result
    is [prependContext], if any. *)
Definition before_agent_start (prompt : option string)
    : Eff (Env (Backend L E R)) (option string) :=
  match prompt with
  | None | Some EmptyString => ret None
  | Some prompt =>
      if (utf16_length prompt <? 5)%nat then ret None
      else
        try_catch
          (let* vector := on_backend (embed prompt) in
           let* results := on_backend (on_db (MemoryDB.search vector 3 0.3%float)) in
           if (length results =? 0)%nat then ret None
           else
             logger_info ("memory-lancedb: injecting " +:+ pretty (length results)
                          +:+ " memories into context") ;;
             ret (Some (recall_context results)))%eff
          (fun err =>
             logger_warn ("memory-lancedb: recall failed: " +:+ error_string err) ;;
             ret None)%eff
  end.

End WithBackend.

End Capture.

(** ** The [memory_forget] tool *)

(** [details] of what the tool returns. *)
Inductive ForgetDetails : Type :=
| ForgetDeleted (id : string)
| ForgetFound (found : Z)
| ForgetCandidates (candidates : list (string * string * string * float))
| ForgetError (error : string).

(** What the tool returns: the text of its one content block, and the
    details. *)
Record ForgetReply : Type := mkForgetReply {
  reply_text : string;
  reply_details : ForgetDetails
}.

Module Tools.

Section WithBackend.
Context {L E R : Type} `{driver : LanceDB L} `{client : EmbeddingsClient E}
  `{random : Entropy R} `{runtime : JsRuntime}.

(** [execute] of [memory_forget], on [params.query] and
    [params.memoryId]. *)
Definition memory_forget (query memoryId : option string)
    : Eff (Backend L E R) ForgetReply :=
  match memoryId with
  | Some (String c rest) =>
      let memoryId := String c rest in
      (Capture.on_db (MemoryDB.delete memoryId) ;;
       ret {| reply_text := "Memory " +:+ memoryId +:+ " forgotten.";
              reply_details := ForgetDeleted memoryId |})%eff
  | _ =>
      match query with
      | Some (String c rest) =>
          let query := String c rest in
          (let* vector := Capture.embed query in
           let* results := Capture.on_db (MemoryDB.search vector 5 0.7%float) in
           match results with
           | [] =>
               ret {| reply_text := "No matching memories found.";
                      reply_details := ForgetFound 0 |}
           | first :: others =>
               if (length results =? 1)%nat && PrimFloat.ltb 0.9%float (result_score first)
               then
                 Capture.on_db (MemoryDB.delete (entry_id (result_entry first))) ;;
                 ret {| reply_text := "Forgotten: " +:+ dquote
                                      +:+ entry_text (result_entry first) +:+ dquote;
                        reply_details := ForgetDeleted (entry_id (result_entry first)) |}
               else
                 let list :=
                   join newline
                     (map (fun r => "- [" +:+ str_take 8 (entry_id (result_entry r))
                                    +:+ "] " +:+ str_take 60 (entry_text (result_entry r))
                                    +:+ "...") results) in
                 (* Strip vector data for serialization *)
                 let sanitizedCandidates :=
                   map (fun r => (entry_id (result_entry r), entry_text (result_entry r),
                                  entry_category (result_entry r), result_score r))
                     results in
                 ret {| reply_text := "Found " +:+ pretty (length results)
                                      +:+ " candidates. Specify memoryId:" +:+ newline
                                      +:+ list;
                        reply_details := ForgetCandidates sanitizedCandidates |}
           end)%eff
      | _ =>
          ret {| reply_text := "Provide query or memoryId.";
                 reply_details := ForgetError "missing_param" |}
      end
  end.

End WithBackend.

End Tools.
(** ** Test doubles for the store *)

(** A driver that keeps the entries of the table in a list: a search returns
    every entry at distance 0, and a delete removes the entries whose id the
    filter names. *)
Definition list_driver : LanceDB (list MemoryEntry) :=
  {| lancedb_import := ret tt;
     lancedb_connect := fun _ => ret tt;
     db_tableNames := ret [MemoryDB.TABLE_NAME];
     db_openTable := fun _ => ret tt;
     db_createTable := fun _ rows => modify (fun _ => rows);
     table_add := fun rows => modify (fun entries => entries ++ rows);
     table_vectorSearch := fun _ _ =>
       gets (map (fun entry => {| row_entry := entry; row_distance := Some 0%float |}));
     table_delete := fun filter =>
       modify (List.filter
                 (fun entry => negb (String.eqb (MemoryDB.id_filter (entry_id entry))
                                       filter)));
     table_countRows := gets (fun entries => Z.of_nat (length entries)) |}.

(** A driver whose package cannot be loaded. *)
Definition missing_driver : LanceDB unit :=
  {| lancedb_import := throw (mkError "Cannot find module '@lancedb/lancedb'");
     lancedb_connect := fun _ => ret tt;
     db_tableNames := ret [];
     db_openTable := fun _ => ret tt;
     db_createTable := fun _ _ => ret tt;
     table_add := fun _ => ret tt;
     table_vectorSearch := fun _ _ => ret [];
     table_delete := fun _ => ret tt;
     table_countRows := ret 0%Z |}.

(** An embeddings client that maps every text to the same vector, and one
    that is out of reach. *)
Definition constant_embeddings : EmbeddingsClient unit :=
  {| embeddings_create := fun _ _ => ret [[1%float; 0%float]] |}.

Definition failing_embeddings : EmbeddingsClient unit :=
  {| embeddings_create := fun _ _ => throw (mkError "Connection error.") |}.

(** A source of ids and times that returns the same id and the same time
    on every call. *)
Definition fixed_entropy (uuid : string) (now : Z) : Entropy unit :=
  {| randomUUID := ret uuid; Date_now := ret now |}.

(** An id of the form of a UUID, and an entry stored under it. *)
Definition example_uuid : string := "123e4567-e89b-12d3-a456-426614174000".

Definition example_entry : MemoryEntry :=
  {| entry_id := example_uuid;
     entry_text := "I like dark mode";
     entry_vector := [1%float; 0%float];
     entry_importance := 0.8%float;
     entry_category := "preference";
     entry_createdAt := 1700000000000 |}.

(** A store that is initialised and holds that entry. *)
Definition example_db : MemoryDB.State (list MemoryEntry) unit :=
  MemoryDB.mkState [example_entry] tt (Some (Ok tt)) true true (Some (Ok tt))
    "/db/memory" 2.

(* ====================================================================== *)
(** * Proof automation                                                      *)
(* ====================================================================== *)

(** Decide the comparisons of a known tool name in the goal. *)
Ltac known_name :=
  repeat match goal with
         | |- context [String.eqb ?a ?b] =>
             let v := eval vm_compute in (String.eqb a b) in
             change (String.eqb a b) with v
         end;
  cbv iota.

(** Close a goal about a tool call that is rejected before any memory
    operation is called. *)
Ltac rejected_at e :=
  cbn [is_empty]; unfold throw;
  eexists (mkError _), [], (backend e);
  rewrite app_nil_r; destruct e; split_and!; reflexivity.

(* ====================================================================== *)
(** * Facts about the monad                                                 *)
(* ====================================================================== *)

(** Write a state of the plugin with its two fields. *)
Ltac flatten_state :=
  unfold Plugin.logged;
  cbn [Plugin.journal Plugin.world backend calls];
  rewrite <- ?app_assoc.

Lemma bind_Ok {S A B} (c : Eff S A) (k : A -> Eff S B) s a s' :
  c s = (Ok a, s') -> bind c k s = k a s'.
Proof. unfold bind. by intros ->. Qed.

Lemma slice_0 {A} (arr : list A) : slice 0 arr = arr.
Proof.
  unfold slice. change (0 <? 0)%Z with false. cbv iota.
  by rewrite Z.min_l by lia.
Qed.

(* ====================================================================== *)
(** * SessionJournal: the operations                                        *)
(* ====================================================================== *)

Section JournalFacts.
Context `{host : Host}.

Lemma load_loaded sessionKey s :
  load sessionKey s
  = (Ok (loaded sessionKey s),
     set_cache (fun c => <[sessionKey := loaded sessionKey s]> c) s).
Proof.
  destruct s as [q c f].
  unfold load, loaded, bind, gets, try_catch, fs_readFile, readFile, cache_set, modify,
    ret, throw,
    set_cache; simpl.
  destruct (c !! sessionKey) as [data|] eqn:Hc.
  - by rewrite insert_id.
  - destruct (f !! journalPath sessionKey) as [raw|] eqn:Hf; simpl; rewrite Hf.
    + by destruct (JSON_parse raw).
    + done.
Qed.

Lemma append_grows (p x : string) c : p +:+ String c x ≠ p.
Proof. induction p as [|a p IH]; simpl; [done|]. intros [=]. by apply IH. Qed.

Lemma tmpPath_distinct filePath uuid : tmpPathOf filePath uuid ≠ filePath.
Proof. unfold tmpPathOf. apply append_grows. Qed.

Lemma save_ok sessionKey data uuid s :
  save sessionKey data uuid s
  = (Ok tt, mkState (queues s) (<[sessionKey := data]> (cache s))
                    (saved_files sessionKey data uuid (files s))).
Proof.
  unfold save, save_steps, saved_files, fs_run, fs_do, bind, cache_set, modify, ret.
  destruct s as [q c f]; simpl.
  by rewrite lookup_insert_eq.
Qed.

Lemma saved_files_canonical sessionKey data uuid fs :
  saved_files sessionKey data uuid fs !! journalPath sessionKey
  = Some (JSON_stringify data).
Proof. unfold saved_files. apply lookup_insert_eq. Qed.

Lemma loaded_set_queues sessionKey g s :
  loaded sessionKey (set_queues g s) = loaded sessionKey s.
Proof. by destruct s. Qed.

Lemma loaded_cached sessionKey s data :
  cache s !! sessionKey = Some data -> loaded sessionKey s = data.
Proof. unfold loaded. by intros ->. Qed.

Lemma enqueue_run {T} sessionKey (fn : Eff State T) s :
  enqueue sessionKey fn s = fn (set_queues (chained sessionKey) s).
Proof. reflexivity. Qed.

Lemma appendMessages_spec sessionKey messages uuid s :
  let journal := loaded sessionKey s in
  let journal' := appended journal messages in
  appendMessages sessionKey messages uuid s
  = (Ok (journal', delta_of journal'),
     mkState (chained sessionKey (queues s))
             (<[sessionKey := journal']> (cache s))
             (match fresh_of journal messages with
              | [] => files s
              | _ => saved_files sessionKey journal' uuid (files s)
              end)).
Proof.
  intros journal journal'.
  unfold appendMessages. rewrite enqueue_run.
  erewrite bind_Ok by apply load_loaded. rewrite loaded_set_queues. fold journal.
  fold (existing_keys journal). fold (fresh_of journal messages).
  subst journal'. unfold appended.
  destruct (fresh_of journal messages) as [|m fresh] eqn:Hfresh.
  - destruct s as [q c f]. reflexivity.
  - change (0 <? length (m :: fresh))%nat with true. cbv iota.
    fold (pushed journal (m :: fresh)).
    erewrite bind_Ok; cycle 1.
    { erewrite bind_Ok by reflexivity. erewrite bind_Ok by apply save_ok. reflexivity. }
    destruct s as [q c f]. unfold ret, delta_of, set_cache, set_queues, chained; simpl.
    by rewrite !insert_insert_eq.
Qed.

Lemma commitDecisions_spec sessionKey logs newProcessedIndex uuid s :
  let journal' := committed (loaded sessionKey s) logs newProcessedIndex in
  commitDecisions sessionKey logs newProcessedIndex uuid s
  = (Ok tt,
     mkState (chained sessionKey (queues s))
             (<[sessionKey := journal']> (cache s))
             (saved_files sessionKey journal' uuid (files s))).
Proof.
  intros journal'.
  unfold commitDecisions. rewrite enqueue_run.
  erewrite bind_Ok by apply load_loaded. rewrite loaded_set_queues.
  fold (committed (loaded sessionKey s) logs newProcessedIndex). fold journal'.
  erewrite bind_Ok by reflexivity. rewrite save_ok.
  destruct s as [q c f]. unfold set_cache, set_queues, chained; simpl.
  by rewrite !insert_insert_eq.
Qed.

(** ** Deduplication *)

Lemma filter_all_out {A} (P : A -> Prop) `{forall x, Decision (P x)} (l : list A) :
  Forall (fun x => ¬ P x) l -> filter P l = [].
Proof.
  induction 1 as [|x l Hx _ IH]; [done|].
  by rewrite filter_cons_False.
Qed.

Lemma filter_all_in {A} (P : A -> Prop) `{forall x, Decision (P x)} (l : list A) :
  Forall P l -> filter P l = l.
Proof.
  induction 1 as [|x l Hx _ IH]; [done|].
  rewrite filter_cons_True by done. by rewrite IH.
Qed.

Lemma elem_of_existing_keys journal key :
  key ∈ existing_keys journal <-> exists m, m ∈ cleanContext journal /\ dedup_key m = key.
Proof.
  unfold existing_keys. rewrite elem_of_list_to_set, list_elem_of_In, in_map_iff.
  split; intros (m & H1 & H2); exists m; rewrite ?list_elem_of_In in *; auto.
Qed.

Lemma existing_keys_appended journal messages key :
  key ∈ existing_keys journal -> key ∈ existing_keys (appended journal messages).
Proof.
  rewrite !elem_of_existing_keys. intros (m & Hm & <-). exists m. split; [|done].
  unfold appended. destruct (fresh_of journal messages); [done|].
  simpl. apply elem_of_app. by left.
Qed.

Lemma appended_covers journal messages m :
  m ∈ messages -> dedup_key m ∈ existing_keys (appended journal messages).
Proof.
  intros Hm.
  destruct (decide (dedup_key m ∈ existing_keys journal)) as [Hin|Hout].
  - by apply existing_keys_appended.
  - assert (Hfresh : m ∈ fresh_of journal messages).
    { unfold fresh_of. by apply list_elem_of_filter. }
    apply elem_of_existing_keys. exists m. split; [|done].
    unfold appended. destruct (fresh_of journal messages) as [|m0 fresh] eqn:E.
    + by apply elem_of_nil in Hfresh.
    + simpl. apply elem_of_app. by right.
Qed.

Lemma fresh_of_appended journal messages :
  fresh_of (appended journal messages) messages = [].
Proof.
  unfold fresh_of. apply filter_all_out. apply Forall_forall.
  intros m Hm Hout. apply Hout. by apply appended_covers.
Qed.

Lemma appended_again journal messages :
  appended (appended journal messages) messages = appended journal messages.
Proof. unfold appended at 1. by rewrite fresh_of_appended. Qed.

Lemma fresh_of_fresh_journal messages : fresh_of fresh_journal messages = messages.
Proof.
  unfold fresh_of. apply filter_all_in. apply Forall_forall.
  intros m _. unfold existing_keys. simpl. set_solver.
Qed.

Lemma appended_fresh_journal messages :
  appended fresh_journal messages
  = {| processedIndex := 0; cleanContext := messages; memoryLogs := [] |}.
Proof.
  unfold appended. rewrite fresh_of_fresh_journal. by destruct messages.
Qed.

Lemma appended_length journal messages :
  (length (cleanContext journal) <= length (cleanContext (appended journal messages)))%nat.
Proof.
  unfold appended. destruct (fresh_of journal messages); [done|].
  simpl. rewrite length_app. lia.
Qed.

Lemma appended_processedIndex journal messages :
  processedIndex (appended journal messages) = processedIndex journal.
Proof. unfold appended. by destruct (fresh_of journal messages). Qed.

End JournalFacts.

(* ====================================================================== *)
(** * SessionJournal: properties                                            *)
(* ====================================================================== *)

Section JournalIdempotence.
Context `{host : Host}.

(** C1 (as the code has it).  A second [appendMessages(k, M)] right after the
    first appends nothing, leaves cache and files as they are, and returns the
    same journal and the same delta as the first call: the unprocessed suffix
    [cleanContext.slice(processedIndex)]. *)
Theorem appendMessages_twice_same_delta sessionKey messages uuid1 uuid2 s journal delta s1 :
  appendMessages sessionKey messages uuid1 s = (Ok (journal, delta), s1) ->
  appendMessages sessionKey messages uuid2 s1
  = (Ok (journal, delta), set_queues (chained sessionKey) s1)
  /\ delta = slice (processedIndex journal) (cleanContext journal).
Proof.
  rewrite appendMessages_spec. intros [= <- <- <-].
  split; [|done].
  rewrite appendMessages_spec. cbn [cache files queues].
  rewrite (loaded_cached sessionKey _ (appended (loaded sessionKey s) messages))
    by apply lookup_insert_eq.
  rewrite appended_again, fresh_of_appended.
  unfold set_queues; cbn [cache files queues].
  by rewrite insert_insert_eq.
Qed.

End JournalIdempotence.

(** C1, the claim as stated, fails: on a new session the second call returns
    the message again, since nothing was committed in between. *)
Lemma appendMessages_second_delta_not_empty :
  ~ (forall (host : Host) sessionKey messages uuid1 uuid2 s r1 s1 r2 s2,
       appendMessages sessionKey messages uuid1 s = (Ok r1, s1) ->
       appendMessages sessionKey messages uuid2 s1 = (Ok r2, s2) ->
       snd r2 = []).
Proof.
  intros H.
  pose (hi := {| role := user; text := "hi" |}).
  pose proof (H example_host "s" [hi] "6f1c2d3e-aaaa" "9b8a7c6d-bbbb" (new ∅)
                _ _ _ _ (appendMessages_spec _ _ _ _) (appendMessages_spec _ _ _ _)) as E.
  vm_compute in E. discriminate E.
Qed.

Lemma appendMessages_twice_same_delta_witness :
  let hi := {| role := user; text := "hi" |} in
  appendMessages (host := example_host) "s" [hi] "9b8a7c6d-bbbb" example_loaded
  = (Ok ({| processedIndex := 0; cleanContext := [hi]; memoryLogs := [] |}, [hi]),
     set_queues (chained "s") example_loaded).
Proof.
  intros hi.
  refine (proj1 (appendMessages_twice_same_delta (host := example_host)
                   "s" [hi] "6f1c2d3e-aaaa" "9b8a7c6d-bbbb" (new ∅)
                   {| processedIndex := 0; cleanContext := [hi]; memoryLogs := [] |} [hi]
                   example_loaded _)).
  vm_compute. reflexivity.
Defined.

Section JournalInvariants.
Context `{host : Host}.

Lemma loaded_new_empty sessionKey : loaded sessionKey (new ∅) = fresh_journal.
Proof. reflexivity. Qed.

(** C2.  A batch that repeats a message not yet in the clean context gets
    both copies appended: the filter looks only at what the context held
    before the call. *)
Theorem appendMessages_keeps_repeats_within_batch sessionKey m uuid :
  fst (appendMessages sessionKey [m; m] uuid (new ∅))
  = Ok ({| processedIndex := 0; cleanContext := [m; m]; memoryLogs := [] |}, [m; m]).
Proof.
  rewrite appendMessages_spec. cbn [fst].
  rewrite loaded_new_empty, appended_fresh_journal.
  unfold delta_of. cbn [processedIndex cleanContext]. by rewrite slice_0.
Qed.

(** The part of C2 that the code does keep: a batch whose messages are all in
    the clean context already leaves the journal as it is. *)
Lemma appended_present journal messages :
  Forall (fun m => dedup_key m ∈ existing_keys journal) messages ->
  appended journal messages = journal.
Proof.
  intros Hall. unfold appended, fresh_of.
  rewrite filter_all_out; [done|].
  eapply Forall_impl; [exact Hall|]. intros m Hin Hout. by apply Hout.
Qed.

(** ** Index invariant *)

Lemma index_in_range_fresh : index_in_range fresh_journal.
Proof. unfold index_in_range. simpl. lia. Qed.

Lemma index_in_range_appended journal messages :
  index_in_range journal -> index_in_range (appended journal messages).
Proof.
  unfold index_in_range. rewrite appended_processedIndex.
  pose proof (appended_length journal messages). lia.
Qed.

Lemma journal_step_cache sessionKey s s' data :
  journal_step s s' ->
  cache s !! sessionKey = Some data -> index_in_range data ->
  exists data', cache s' !! sessionKey = Some data' /\ index_in_range data'.
Proof.
  intros Hstep Hc Hr.
  destruct Hstep as [k messages uuid s|k logs n uuid s Hn].
  - rewrite appendMessages_spec. cbn [snd cache].
    destruct (decide (k = sessionKey)) as [->|Hne].
    + rewrite lookup_insert_eq. eexists; split; [done|].
      rewrite (loaded_cached _ _ _ Hc). by apply index_in_range_appended.
    + rewrite lookup_insert_ne by done. eauto.
  - rewrite commitDecisions_spec. cbn [snd cache].
    destruct (decide (k = sessionKey)) as [->|Hne].
    + rewrite lookup_insert_eq. eexists; split; [done|]. exact Hn.
    + rewrite lookup_insert_ne by done. eauto.
Qed.

(** C3 (as the code has it).  [commitDecisions] stores the index it is given:
    right after it the session's [processedIndex] is [newProcessedIndex] and
    its clean context is unchanged, so the two agree exactly when the caller
    passes the context's length.  [0 <= processedIndex <= length(cleanContext)]
    holds after a first [appendMessages], or a first [commitDecisions] with an
    index inside the context, on a session whose journal had it when loaded (a
    fresh journal has it); and for a session the cache holds, it is kept by
    every sequence of journal calls, on any sessions, whose commits pass an
    index inside the context. *)
Theorem processedIndex_invariant sessionKey :
  (forall logs newProcessedIndex uuid s,
     let s' := snd (commitDecisions sessionKey logs newProcessedIndex uuid s) in
     exists data',
       cache s' !! sessionKey = Some data'
       /\ processedIndex data' = newProcessedIndex
       /\ cleanContext data' = cleanContext (loaded sessionKey s))
  /\ (forall messages uuid s,
        index_in_range (loaded sessionKey s) ->
        exists data',
          cache (snd (appendMessages sessionKey messages uuid s)) !! sessionKey = Some data'
          /\ index_in_range data')
  /\ (forall logs newProcessedIndex uuid s,
        (0 <= newProcessedIndex
           <= Z.of_nat (length (cleanContext (loaded sessionKey s))))%Z ->
        exists data',
          cache (snd (commitDecisions sessionKey logs newProcessedIndex uuid s)) !! sessionKey
          = Some data'
          /\ index_in_range data')
  /\ (forall s s' data,
        cache s !! sessionKey = Some data -> index_in_range data ->
        rtc journal_step s s' ->
        exists data', cache s' !! sessionKey = Some data' /\ index_in_range data').
Proof.
  split_and!.
  - intros logs n uuid s s'. subst s'. rewrite commitDecisions_spec. cbn [snd cache].
    rewrite lookup_insert_eq. eexists; split; [done|]. done.
  - intros messages uuid s Hr. rewrite appendMessages_spec. cbn [snd cache].
    rewrite lookup_insert_eq. eexists; split; [done|]. by apply index_in_range_appended.
  - intros logs n uuid s Hn. rewrite commitDecisions_spec. cbn [snd cache].
    rewrite lookup_insert_eq. eexists; split; [done|]. exact Hn.
  - intros s s' data Hc Hr Hrun. revert data Hc Hr.
    induction Hrun as [s|s s1 s' Hstep _ IH]; intros data Hc Hr.
    + eauto.
    + destruct (journal_step_cache sessionKey s s1 data Hstep Hc Hr) as (d1 & Hc1 & Hr1).
      eauto.
Qed.

End JournalInvariants.

(** C3, the claim as stated, fails: [commitDecisions] takes any index. *)
Lemma commitDecisions_index_unchecked :
  ~ (forall (host : Host) sessionKey logs newProcessedIndex uuid s data',
       cache (snd (commitDecisions sessionKey logs newProcessedIndex uuid s)) !! sessionKey
       = Some data' ->
       (0 <= processedIndex data' <= Z.of_nat (length (cleanContext data')))%Z
       /\ processedIndex data' = Z.of_nat (length (cleanContext data'))).
Proof.
  intros H.
  specialize (H example_host "s" [] 5%Z "6f1c2d3e-aaaa" (new ∅)
                {| processedIndex := 5; cleanContext := []; memoryLogs := [] |}).
  rewrite commitDecisions_spec in H. cbn [snd cache] in H.
  rewrite lookup_insert_eq in H.
  destruct (H eq_refl) as [[_ Hle] _]. simpl in Hle. lia.
Qed.

Lemma processedIndex_invariant_witness :
  let hi := {| role := user; text := "hi" |} in
  (exists data',
     cache (snd (appendMessages (host := example_host) "s" [hi] "6f1c2d3e-aaaa" (new ∅)))
       !! "s" = Some data'
     /\ index_in_range data')
  /\ (exists data',
        cache (snd (commitDecisions (host := example_host) "s" [] 1 "9b8a7c6d-bbbb"
                      example_loaded)) !! "s" = Some data'
        /\ index_in_range data')
  /\ (exists data',
        cache (snd (appendMessages (host := example_host) "s" [hi; hi] "0a1b2c3d-cccc"
                      (snd (commitDecisions (host := example_host) "s" [] 1 "9b8a7c6d-bbbb"
                              example_loaded)))) !! "s" = Some data'
        /\ index_in_range data').
Proof.
  intros hi.
  pose proof (processedIndex_invariant (host := example_host) "s")
    as (_ & Happend & Hcommit & Hrun).
  split_and!.
  - apply Happend. unfold index_in_range. vm_compute. split; discriminate.
  - apply Hcommit. vm_compute. split; discriminate.
  - refine (Hrun example_loaded _
              {| processedIndex := 0; cleanContext := [hi]; memoryLogs := [] |} _ _ _).
    + vm_compute. reflexivity.
    + unfold index_in_range. vm_compute. split; discriminate.
    + eapply rtc_l; [|apply rtc_once; apply step_appendMessages].
      apply step_commitDecisions. vm_compute. split; discriminate.
Defined.

Section JournalPersistence.
Context `{host : Host}.

(** ** Loading *)

Lemma loaded_unreadable sessionKey s :
  cache s !! sessionKey = None -> unreadable sessionKey s ->
  loaded sessionKey s = fresh_journal.
Proof.
  unfold loaded. intros -> [->|(raw & -> & ->)]; reflexivity.
Qed.

(** C8.  When a session is not in the cache and its file is missing or does
    not parse, [load] resolves with a fresh empty journal, and
    [appendMessages] and [commitDecisions] resolve as on a new session; the
    read or parse error reaches no caller. *)
Theorem load_failure_starts_fresh sessionKey s :
  cache s !! sessionKey = None ->
  unreadable sessionKey s ->
  fst (load sessionKey s)
  = Ok {| processedIndex := 0; cleanContext := []; memoryLogs := [] |}
  /\ (forall messages uuid,
        fst (appendMessages sessionKey messages uuid s)
        = Ok ({| processedIndex := 0; cleanContext := messages; memoryLogs := [] |},
              messages))
  /\ (forall logs newProcessedIndex uuid,
        let r := commitDecisions sessionKey logs newProcessedIndex uuid s in
        fst r = Ok tt
        /\ cache (snd r) !! sessionKey
           = Some {| processedIndex := newProcessedIndex; cleanContext := [];
                     memoryLogs := logs |}).
Proof.
  intros Hc Hf. pose proof (loaded_unreadable sessionKey s Hc Hf) as Hl.
  split; [|split].
  - by rewrite load_loaded, Hl.
  - intros messages uuid. rewrite appendMessages_spec, Hl, appended_fresh_journal.
    cbn [fst]. unfold delta_of. cbn [processedIndex cleanContext]. by rewrite slice_0.
  - intros logs n uuid r. subst r. rewrite commitDecisions_spec, Hl.
    cbn [fst snd cache]. by rewrite lookup_insert_eq.
Qed.

(** ** Persistence *)

Lemma interrupted_nil fs fs' : interrupted [] fs fs' -> fs' = fs.
Proof. by inversion 1. Qed.

(** C9.  [save] writes the serialized journal to a temporary path, which is
    never the session's own path, and renames it onto that path afterwards.
    Wherever the sequence is interrupted, the session's file holds what it
    held before or the whole new document; interrupted after the write and
    before the rename, it holds what it held before.  A completed [save]
    leaves the new document there. *)
Theorem save_is_crash_safe sessionKey data uuid :
  tmpPathOf (journalPath sessionKey) uuid ≠ journalPath sessionKey
  /\ save_steps sessionKey data uuid
     = [ Mkdir (path_dirname (journalPath sessionKey));
         WriteFile (tmpPathOf (journalPath sessionKey) uuid) (JSON_stringify data);
         Rename (tmpPathOf (journalPath sessionKey) uuid) (journalPath sessionKey) ]
  /\ (forall fs fs',
        interrupted (save_steps sessionKey data uuid) fs fs' ->
        fs' !! journalPath sessionKey = fs !! journalPath sessionKey
        \/ fs' !! journalPath sessionKey = Some (JSON_stringify data))
  /\ (forall fs : gmap string string,
        <[tmpPathOf (journalPath sessionKey) uuid := JSON_stringify data]> fs
          !! journalPath sessionKey
        = fs !! journalPath sessionKey)
  /\ (forall s,
        fst (save sessionKey data uuid s) = Ok tt
        /\ files (snd (save sessionKey data uuid s)) !! journalPath sessionKey
           = Some (JSON_stringify data)).
Proof.
  pose proof (tmpPath_distinct (journalPath sessionKey) uuid) as Hne.
  split; [done|]. split; [done|]. split; [|split].
  - intros fs fs' Hint. unfold save_steps in Hint.
    inversion Hint as [| |st rest f0 f1 f2 Hmk Hrest]; subst; [by left|].
    injection Hmk as <-.
    inversion Hrest as [|path content written rest f0|st rest f0 f1 f2 Hwr Hrest2];
      subst; [by left| |].
    { left. by apply lookup_insert_ne. }
    injection Hwr as <-.
    inversion Hrest2 as [| |st rest f0 f1 f2 Hrn Hrest3]; subst.
    { left. by apply lookup_insert_ne. }
    simpl in Hrn. rewrite lookup_insert_eq in Hrn. injection Hrn as <-.
    apply interrupted_nil in Hrest3 as ->.
    right. apply lookup_insert_eq.
  - intros fs. by apply lookup_insert_ne.
  - intros s. rewrite save_ok. cbn [fst snd files]. split; [done|].
    apply saved_files_canonical.
Qed.

(** ** Session keys and file names *)

(** C10.  The keys [a.b] and [a:b] differ and have the same journal path.
    After a first [appendMessages] on [a.b] of a new journal, cache and
    queues hold [a.b] only, the file both keys share holds the journal of
    [a.b], and a [load] for [a:b] reads that file. *)
Theorem journalPath_not_injective m uuid :
  "a.b" ≠ "a:b"
  /\ journalPath "a.b" = journalPath "a:b"
  /\ let written := {| processedIndex := 0; cleanContext := [m]; memoryLogs := [] |} in
     let s := snd (appendMessages "a.b" [m] uuid (new ∅)) in
     cache s !! "a.b" = Some written
     /\ cache s !! "a:b" = None
     /\ queues s !! "a.b" = Some 1%nat
     /\ queues s !! "a:b" = None
     /\ files s !! journalPath "a:b" = Some (JSON_stringify written)
     /\ fst (load "a:b" s)
        = Ok (default fresh_journal (JSON_parse (JSON_stringify written))).
Proof.
  split; [done|]. split; [done|].
  intros written s. subst s.
  rewrite appendMessages_spec, loaded_new_empty, appended_fresh_journal.
  rewrite fresh_of_fresh_journal. cbn [snd cache queues files]. fold written.
  assert (Hfile : saved_files "a.b" written uuid ∅ !! journalPath "a:b"
                  = Some (JSON_stringify written)).
  { change (journalPath "a:b") with (journalPath "a.b"). apply saved_files_canonical. }
  change (cache (new ∅)) with (∅ : gmap string JournalData).
  change (queues (new ∅)) with (∅ : gmap string nat).
  change (files (new ∅)) with (∅ : gmap string string).
  split_and!.
  - by rewrite lookup_insert_eq.
  - by rewrite lookup_insert_ne.
  - unfold chained. by rewrite lookup_insert_eq.
  - unfold chained. by rewrite lookup_insert_ne.
  - exact Hfile.
  - rewrite load_loaded. cbn [fst]. unfold loaded. cbn [cache files].
    rewrite lookup_insert_ne by done. rewrite lookup_empty.
    by rewrite Hfile.
Qed.

End JournalPersistence.

Lemma load_failure_starts_fresh_witness :
  fst (load (host := example_host) "s" example_corrupt)
  = Ok {| processedIndex := 0; cleanContext := []; memoryLogs := [] |}
  /\ (forall messages uuid,
        fst (appendMessages (host := example_host) "s" messages uuid example_corrupt)
        = Ok ({| processedIndex := 0; cleanContext := messages; memoryLogs := [] |},
              messages))
  /\ (forall logs newProcessedIndex uuid,
        let r := commitDecisions (host := example_host) "s" logs newProcessedIndex uuid
                   example_corrupt in
        fst r = Ok tt
        /\ cache (snd r) !! "s"
           = Some {| processedIndex := newProcessedIndex; cleanContext := [];
                     memoryLogs := logs |}).
Proof.
  apply (load_failure_starts_fresh (host := example_host) "s" example_corrupt).
  - reflexivity.
  - right. exists "{ processedIndex: ". split; reflexivity.
Defined.

Lemma save_is_crash_safe_witness :
  let data := {| processedIndex := 1; cleanContext := []; memoryLogs := [] |} in
  let fs : gmap string string := <["/db/sessions/s.json" := "old"]> ∅ in
  let fs' := <["/db/sessions/s.json.6f1c2d3e.tmp" := "{"]> fs in
  fs' !! "/db/sessions/s.json" = fs !! "/db/sessions/s.json"
  \/ fs' !! "/db/sessions/s.json" = Some "{}".
Proof.
  intros data fs fs'.
  refine (proj1 (proj2 (proj2 (save_is_crash_safe (host := example_host)
                                 "s" data "6f1c2d3e-aaaa"))) fs fs' _).
  eapply interrupted_later; [reflexivity|].
  apply (interrupted_in_write _ "{}" "{"). reflexivity.
Defined.

(* ====================================================================== *)
(** * LLMDecisionMaker: the loop                                            *)
(* ====================================================================== *)

Lemma count_completed_app evs1 evs2 :
  count_completed (evs1 ++ evs2) = (count_completed evs1 + count_completed evs2)%nat.
Proof. unfold count_completed. by rewrite List.filter_app, length_app. Qed.

Lemma logs_of_calls_app deltaIndex now evs1 evs2 :
  logs_of_calls deltaIndex now (evs1 ++ evs2)
  = logs_of_calls deltaIndex now evs1 ++ logs_of_calls deltaIndex now evs2.
Proof. unfold logs_of_calls. apply omap_app. Qed.

Lemma logs_of_calls_deltaIndex di now evs log :
  log ∈ logs_of_calls di now evs -> deltaIndex log = di.
Proof.
  unfold logs_of_calls. rewrite list_elem_of_omap. intros (ev & _ & Hev).
  destruct ev as [| |? ? ? [?|?]|? [?|?]|? ? ? ? [?|?]| |]; simpl in Hev;
    by inversion Hev.
Qed.

Lemma is_empty_true s : is_empty s = true <-> s = "".
Proof. destruct s; simpl; split; congruence. Qed.

Lemma is_empty_false s : is_empty s = false <-> s ≠ "".
Proof. destruct s; simpl; split; congruence. Qed.

Section DecisionFacts.
Context {A O : Type} `{chat : ChatAdapter A} `{codec : NumberCodec}.
Variable ops : MemoryOps O.

(** What one [executeTool] adds to the record of calls, and what it returns:
    a log entry, with the memory operation that produced it recorded as
    succeeded, or an error that is one of the failures of [tool_failure]. *)
Lemma executeTool_outcome tc deltaIndex e :
  exists new o',
    snd (executeTool ops (name tc) (args tc) deltaIndex e) = mkEnv o' (calls e ++ new)
    /\ count_completed new = 0%nat
    /\ match fst (executeTool ops (name tc) (args tc) deltaIndex e) with
       | Ok (Some log) =>
           forall now, logs_of_calls deltaIndex now new = [set_timestamp now log]
       | Ok None => False
       | Throw err =>
           tool_failure ops tc (backend e) (message err)
           /\ forall now, logs_of_calls deltaIndex now new = []
       end.
Proof.
  unfold executeTool.
  destruct (String.eqb_spec (name tc) "store_memory") as [Hstore|Hnstore].
  { fold (arg_string (args tc) "text" "") (arg_string (args tc) "category" "other")
         (arg_number (args tc) "importance" 0.7%float).
    destruct (is_empty (arg_string (args tc) "text" "")) eqn:Htext.
    - exists [], (backend e). apply is_empty_true in Htext.
      unfold throw; simpl. rewrite app_nil_r. destruct e; simpl.
      split_and!; try done. by constructor.
    - apply is_empty_false in Htext.
      unfold bind, call_ops, logger_info, emit, modify, ret.
      destruct (store ops _ _ _ (backend e)) as [[memoryId|err] o'] eqn:Hop; simpl.
      + eexists [_; _], o'. rewrite <- app_assoc. simpl. split_and!; done.
      + eexists [_], o'. simpl. split_and!; try done.
        by eapply store_throws. }
  destruct (String.eqb_spec (name tc) "forget_memory") as [Hforget|Hnforget].
  { fold (arg_string (args tc) "memoryId" "").
    destruct (is_empty (arg_string (args tc) "memoryId" "")) eqn:Hid.
    - exists [], (backend e). apply is_empty_true in Hid.
      unfold throw; simpl. rewrite app_nil_r. destruct e; simpl.
      split_and!; try done. by constructor.
    - apply is_empty_false in Hid.
      unfold bind, call_ops, logger_info, emit, modify, ret.
      destruct (forget ops _ (backend e)) as [[b|err] o'] eqn:Hop; simpl.
      + eexists [_; _], o'. rewrite <- app_assoc. simpl. split_and!; done.
      + eexists [_], o'. simpl. split_and!; try done.
        by eapply forget_throws. }
  destruct (String.eqb_spec (name tc) "update_memory") as [Hupdate|Hnupdate].
  { fold (arg_string (args tc) "memoryId" "") (arg_string (args tc) "text" "")
         (arg_string (args tc) "category" "other")
         (arg_number (args tc) "importance" 0.7%float).
    destruct (is_empty (arg_string (args tc) "memoryId" "")) eqn:Hid.
    { exists [], (backend e). apply is_empty_true in Hid.
      unfold throw; simpl. rewrite app_nil_r. destruct e; simpl.
      split_and!; try done. by constructor. }
    apply is_empty_false in Hid.
    destruct (is_empty (arg_string (args tc) "text" "")) eqn:Htext.
    - exists [], (backend e). apply is_empty_true in Htext.
      unfold throw; simpl. rewrite app_nil_r. destruct e; simpl.
      split_and!; try done. by apply update_without_text.
    - apply is_empty_false in Htext.
      unfold bind, call_ops, logger_info, emit, modify, ret.
      destruct (update ops _ _ _ _ (backend e)) as [[newId|err] o'] eqn:Hop; simpl.
      + eexists [_; _], o'. rewrite <- app_assoc. simpl. split_and!; done.
      + eexists [_], o'. simpl. split_and!; try done.
        by eapply update_throws. }
  exists [], (backend e). unfold throw; simpl. rewrite app_nil_r. destruct e; simpl.
  split_and!; try done. by constructor.
Qed.

Lemma executeTool_failure tc deltaIndex e msg :
  tool_failure ops tc (backend e) msg ->
  exists err attempted o',
    message err = msg
    /\ executeTool ops (name tc) (args tc) deltaIndex e
       = (Throw err, mkEnv o' (calls e ++ attempted))
    /\ count_completed attempted = 0%nat
    /\ forall now, logs_of_calls deltaIndex now attempted = [].
Proof.
  intros Hfail. unfold executeTool.
  fold (arg_string (args tc) "text" "") (arg_string (args tc) "category" "other")
       (arg_number (args tc) "importance" 0.7%float) (arg_string (args tc) "memoryId" "").
  destruct Hfail as [Hn Ht|err o' Hn Ht Hop|Hn Hi|err o' Hn Hi Hop|Hn Hi|Hn Hi Ht
                    |err o' Hn Hi Ht Hop|Hn1 Hn2 Hn3];
    try (rewrite Hn; known_name).
  - rewrite Ht. rejected_at e.
  - apply is_empty_false in Ht. rewrite Ht.
    unfold bind, call_ops. rewrite Hop. eexists err, [_], o'. by split_and!.
  - rewrite Hi. rejected_at e.
  - apply is_empty_false in Hi. rewrite Hi.
    unfold bind, call_ops. rewrite Hop. eexists err, [_], o'. by split_and!.
  - rewrite Hi. rejected_at e.
  - rewrite Ht. apply is_empty_false in Hi. rewrite Hi.
    rejected_at e.
  - apply is_empty_false in Hi, Ht. rewrite Hi, Ht.
    unfold bind, call_ops. rewrite Hop. eexists err, [_], o'. by split_and!.
  - apply String.eqb_neq in Hn1, Hn2, Hn3. rewrite Hn1, Hn2, Hn3.
    rejected_at e.
Qed.

(** One tool call never makes [handleToolCall] throw; it returns the entry of
    the memory operation it performed, if that succeeded. *)
Lemma handleToolCall_outcome tc deltaIndex now w :
  exists log new w',
    handleToolCall ops tc deltaIndex now w = (Ok log, w')
    /\ calls (env w') = calls (env w) ++ new
    /\ count_completed new = 0%nat
    /\ logs_of_calls deltaIndex now new = option_list log.
Proof.
  destruct (executeTool_outcome tc deltaIndex (env w)) as (new & o' & Hsnd & Hcount & Hfst).
  unfold handleToolCall, try_catch, bind, lift, adapter_pushToolResult, logger_warn,
    emit, modify, ret.
  destruct (executeTool ops (name tc) (args tc) deltaIndex (env w)) as [[[log|]|err] e'];
    simpl in Hsnd, Hfst; subst e'; simpl; [|done|].
  - eexists (Some (set_timestamp now log)), (new ++ [_]), _. split; [done|].
    simpl. rewrite app_assoc, count_completed_app, logs_of_calls_app, Hcount, Hfst.
    done.
  - destruct Hfst as [_ Hlogs].
    eexists None, (new ++ [_; _]), _. split; [done|].
    simpl. rewrite <- !app_assoc, count_completed_app, logs_of_calls_app, Hcount, Hlogs.
    done.
Qed.

(** A tool call that fails: the error goes back to the model as a tool
    result flagged as an error, after a warning; no log entry is returned. *)
Lemma handleToolCall_failure tc deltaIndex now w msg :
  tool_failure ops tc (backend (env w)) msg ->
  exists attempted o',
    handleToolCall ops tc deltaIndex now w
    = (Ok None,
       mkWorld (pushToolResult (id tc) ("Error: " +:+ msg) true (adapter w))
         (mkEnv o'
            (calls (env w) ++ attempted ++
             [LoggedWarn ("memory-lancedb: tool " +:+ name tc +:+ " failed: "
                          +:+ "Error: " +:+ msg);
              PushedToolResult (id tc) ("Error: " +:+ msg) true])))
    /\ count_completed attempted = 0%nat
    /\ logs_of_calls deltaIndex now attempted = [].
Proof.
  intros Hfail.
  destruct (executeTool_failure tc deltaIndex (env w) msg Hfail)
    as (err & attempted & o' & <- & Hexec & Hcount & Hlogs).
  exists attempted, o'. split; [|done].
  unfold handleToolCall, try_catch, bind, lift. rewrite Hexec.
  unfold adapter_pushToolResult, logger_warn, emit, modify, ret. simpl.
  by rewrite <- !app_assoc.
Qed.

Lemma handleToolCalls_outcome tcs deltaIndex now logs w :
  exists new w',
    handleToolCalls ops tcs deltaIndex now logs w
    = (Ok (logs ++ logs_of_calls deltaIndex now new), w')
    /\ calls (env w') = calls (env w) ++ new
    /\ count_completed new = 0%nat.
Proof.
  revert logs w. induction tcs as [|tc rest IH]; intros logs w.
  - exists [], w. simpl. unfold ret. by rewrite !app_nil_r.
  - destruct (handleToolCall_outcome tc deltaIndex now w)
      as (log & new1 & w1 & Hcall & Hcalls1 & Hcount1 & Hlogs1).
    simpl. erewrite bind_Ok by exact Hcall.
    destruct (IH (match log with Some l => logs ++ [l] | None => logs end) w1)
      as (new2 & w2 & Hrest & Hcalls2 & Hcount2).
    exists (new1 ++ new2), w2. split_and!.
    + rewrite Hrest, logs_of_calls_app, Hlogs1.
      destruct log; simpl; by rewrite <- ?app_assoc.
    + by rewrite Hcalls2, Hcalls1, app_assoc.
    + by rewrite count_completed_app, Hcount1, Hcount2.
Qed.

(** One round of the loop. *)
Lemma rounds_S remaining journal now logs w :
  rounds ops (S remaining) journal now logs w
  = let deltaIndex := Z.of_nat (length (cleanContext journal)) in
    match complete (adapter w) with
    | (Ok response, a') =>
        let w1 := mkWorld a' (mkEnv (backend (env w))
                                (calls (env w) ++ [Completed (Ok response)])) in
        if (length (toolCalls response) =? 0)%nat || done response then
          handleToolCalls ops (toolCalls response) deltaIndex now logs w1
        else
          bind (handleToolCalls ops (toolCalls response) deltaIndex now logs)
               (fun logs => rounds ops remaining journal now logs) w1
    | (Throw err, a') =>
        (Throw err,
         mkWorld a' (mkEnv (backend (env w)) (calls (env w) ++ [Completed (Throw err)])))
    end.
Proof.
  cbn [rounds]. unfold bind at 1, adapter_complete.
  destruct (complete (adapter w)) as [[response|err] a']; [|reflexivity].
  by destruct ((length (toolCalls response) =? 0)%nat || done response).
Qed.

(** The loop: with [remaining] rounds left it calls [complete()] at most
    [remaining] times, and either returns the logs it had plus the entries of
    the memory operations that succeeded, or rejects with what a [complete()]
    rejected with, that call being the last one made. *)
Lemma rounds_outcome remaining journal now logs w :
  let deltaIndex := Z.of_nat (length (cleanContext journal)) in
  exists new,
    calls (env (snd (rounds ops remaining journal now logs w))) = calls (env w) ++ new
    /\ (count_completed new <= remaining)%nat
    /\ (fst (rounds ops remaining journal now logs w)
        = Ok (logs ++ logs_of_calls deltaIndex now new)
        \/ exists err,
             fst (rounds ops remaining journal now logs w) = Throw err
             /\ last new = Some (Completed (Throw err))).
Proof.
  intros deltaIndex. revert logs w.
  induction remaining as [|remaining IH]; intros logs w.
  - exists []. simpl. rewrite !app_nil_r. split_and!; auto.
  - rewrite rounds_S. fold deltaIndex. cbv zeta.
    destruct (complete (adapter w)) as [[response|err] a'] eqn:Hcomplete.
    + set (w1 := mkWorld a' (mkEnv (backend (env w))
                               (calls (env w) ++ [Completed (Ok response)]))).
      destruct (handleToolCalls_outcome (toolCalls response) deltaIndex now logs w1)
        as (new1 & w2 & Hcalls & Hcalls1 & Hcount1).
      destruct ((length (toolCalls response) =? 0)%nat || done response).
      * exists ([Completed (Ok response)] ++ new1).
        rewrite Hcalls. cbn [fst snd]. rewrite Hcalls1. subst w1. cbn [env calls].
        rewrite <- app_assoc. split_and!; [done| |by left].
        rewrite count_completed_app, Hcount1. unfold count_completed; simpl. lia.
      * erewrite bind_Ok by exact Hcalls.
        destruct (IH (logs ++ logs_of_calls deltaIndex now new1) w2)
          as (new2 & Hcalls2 & Hcount2 & Hres).
        exists ([Completed (Ok response)] ++ new1 ++ new2).
        rewrite Hcalls2, Hcalls1. subst w1. cbn [env calls].
        rewrite <- !app_assoc. split_and!; [done| |].
        { rewrite !count_completed_app, Hcount1. unfold count_completed at 1; simpl. lia. }
        destruct Hres as [Hok|(err & Herr & Hlast)].
        { left. rewrite Hok, !logs_of_calls_app. simpl. by rewrite <- app_assoc. }
        { right. exists err. split; [done|].
          destruct new2 as [|ev new2]; [done|].
          rewrite !app_assoc. by rewrite last_app_cons. }
    + exists [Completed (Throw err)]. cbn [fst snd env calls].
      split_and!; [done|unfold count_completed; simpl; lia|]. right. by exists err.
Qed.

(** [evaluate] as a whole. *)
Lemma evaluate_outcome journal delta now e :
  let deltaIndex := Z.of_nat (length (cleanContext journal)) in
  exists new,
    calls (snd (evaluate ops journal delta now e)) = calls e ++ new
    /\ (count_completed new <= MAX_TOOL_ITERATIONS)%nat
    /\ (fst (evaluate ops journal delta now e)
        = Ok {| logs := logs_of_calls deltaIndex now new |}
        \/ exists err,
             fst (evaluate ops journal delta now e) = Throw err
             /\ last new = Some (Completed (Throw err))).
Proof.
  intros deltaIndex. unfold evaluate.
  destruct (length delta =? 0)%nat.
  - exists []. unfold ret. simpl. rewrite app_nil_r.
    split_and!; [done|unfold count_completed; simpl; lia|by left].
  - set (w := mkWorld _ e).
    destruct (rounds_outcome MAX_TOOL_ITERATIONS journal now [] w)
      as (new & Hcalls & Hcount & Hres).
    exists new.
    destruct (rounds ops MAX_TOOL_ITERATIONS journal now [] w) as [outcome w'].
    cbn [fst snd] in *. rewrite Hcalls.
    split_and!; [done|done|].
    destruct Hres as [->|(err & -> & Hlast)]; [by left|right; eauto].
Qed.

End DecisionFacts.

(* ====================================================================== *)
(** * LLMDecisionMaker: properties                                          *)
(* ====================================================================== *)

Section DecisionProperties.
Context {A O : Type} `{chat : ChatAdapter A} `{codec : NumberCodec}.
Variable ops : MemoryOps O.

(** [evaluate] rejects only with what a [complete()] call rejected with, that
    call being the last thing it did. *)
Lemma evaluate_rejects_with_complete journal delta now e :
  (exists result, fst (evaluate ops journal delta now e) = Ok result)
  \/ (exists err,
        fst (evaluate ops journal delta now e) = Throw err
        /\ last (calls (snd (evaluate ops journal delta now e)))
           = Some (Completed (Throw err))).
Proof.
  destruct (evaluate_outcome ops journal delta now e) as (new & Hcalls & _ & Hres).
  destruct Hres as [Hok|(err & Herr & Hlast)]; [left; eauto|].
  right. exists err. split; [done|]. rewrite Hcalls.
  destruct new as [|ev new]; [done|]. by rewrite last_app_cons.
Qed.

(** With an adapter whose [complete()] always answers, the loop returns. *)
Lemma rounds_returns remaining journal now logs w :
  (forall a, exists response a', complete a = (Ok response, a')) ->
  exists result, fst (rounds ops remaining journal now logs w) = Ok result.
Proof.
  intros Hanswers. revert logs w.
  induction remaining as [|remaining IH]; intros logs w; [by exists logs|].
  rewrite rounds_S. cbv zeta.
  destruct (Hanswers (adapter w)) as (response & a' & ->).
  set (w1 := mkWorld _ _). set (deltaIndex := Z.of_nat _).
  destruct (handleToolCalls_outcome ops (toolCalls response) deltaIndex now logs w1)
    as (new1 & w2 & Hcalls & _ & _).
  destruct ((length (toolCalls response) =? 0)%nat || done response).
  - rewrite Hcalls. eauto.
  - erewrite bind_Ok by exact Hcalls. apply IH.
Qed.

(** The first thing [evaluate] does on a delta that is not empty is a
    [complete()] call. *)
Lemma evaluate_first_call journal m delta now e :
  exists outcome rest,
    calls (snd (evaluate ops journal (m :: delta) now e))
    = calls e ++ Completed outcome :: rest.
Proof.
  unfold evaluate. cbn [length Nat.eqb]. set (w := mkWorld _ e).
  change MAX_TOOL_ITERATIONS with 5%nat.
  assert (Hfirst : exists outcome rest,
            calls (env (snd (rounds ops 5 journal now [] w)))
            = calls e ++ Completed outcome :: rest).
  { rewrite rounds_S. cbv zeta.
    destruct (complete (adapter w)) as [[response|err] a']; [|by exists (Throw err), []].
    set (w1 := mkWorld _ _). set (deltaIndex := Z.of_nat _).
    destruct (handleToolCalls_outcome ops (toolCalls response) deltaIndex now [] w1)
      as (new1 & w2 & Hcalls & Hcalls1 & _).
    destruct ((length (toolCalls response) =? 0)%nat || done response).
    - exists (Ok response), new1. rewrite Hcalls. cbn [snd]. rewrite Hcalls1.
      subst w1. cbn [env calls]. by rewrite <- app_assoc.
    - erewrite bind_Ok by exact Hcalls.
      destruct (rounds_outcome ops 4 journal now
                  ([] ++ logs_of_calls deltaIndex now new1) w2) as (new2 & Hcalls2 & _).
      exists (Ok response), (new1 ++ new2). rewrite Hcalls2, Hcalls1.
      subst w1. cbn [env calls]. by rewrite <- !app_assoc. }
  destruct (rounds ops 5 journal now [] w) as [outcome w']. exact Hfirst.
Qed.

(** C7.  On an empty delta [evaluate] returns no logs and calls nothing:
    neither the adapter, which is not even constructed, nor the memory
    operations, nor the logger; the state and the record of calls are as
    before.  It is the emptiness of the delta that decides: on any other
    delta the adapter is called. *)
Theorem evaluate_empty_delta journal now e :
  evaluate ops journal [] now e = (Ok {| logs := [] |}, e)
  /\ count_completed (calls (snd (evaluate ops journal [] now e)))
     = count_completed (calls e)
  /\ forall m delta,
       (count_completed (calls e)
        < count_completed (calls (snd (evaluate ops journal (m :: delta) now e))))%nat.
Proof.
  split_and!; [reflexivity|reflexivity|].
  intros m delta.
  destruct (evaluate_first_call journal m delta now e) as (outcome & rest & ->).
  rewrite count_completed_app.
  change (Completed outcome :: rest) with ([Completed outcome] ++ rest).
  rewrite count_completed_app.
  change (count_completed [Completed outcome]) with 1%nat. lia.
Qed.

(** Every entry [evaluate] returns has the length of the journal's clean
    context as its [deltaIndex]. *)
Lemma evaluate_deltaIndex journal delta now e result log :
  fst (evaluate ops journal delta now e) = Ok result ->
  log ∈ logs result ->
  deltaIndex log = Z.of_nat (length (cleanContext journal)).
Proof.
  intros Hres Hin.
  destruct (evaluate_outcome ops journal delta now e) as (new & _ & _ & Hout).
  destruct Hout as [Hok|(err & Herr & _)]; [|congruence].
  rewrite Hres in Hok. injection Hok as ->.
  by eapply logs_of_calls_deltaIndex.
Qed.

End DecisionProperties.

(** ** A model that never stops asking *)

Section Insistent.
Context {O : Type} `{codec : NumberCodec}.
Variable ops : MemoryOps O.
Variable tc : ToolCallRequest.

(** The model that asks for a tool call on every round is stopped when the
    rounds are used up, whatever the memory operations do. *)
Lemma rounds_insistent remaining journal now logs (w : World unit O) :
  let r := rounds (chat := insistent_adapter tc) ops remaining journal now logs w in
  exists new result,
    fst r = Ok result
    /\ calls (env (snd r)) = calls (env w) ++ new
    /\ count_completed new = remaining.
Proof.
  cbv zeta. revert logs w. induction remaining as [|remaining IH]; intros logs w.
  - exists [], logs. simpl. by rewrite app_nil_r.
  - rewrite rounds_S. cbn [complete insistent_adapter toolCalls done length]. cbv zeta.
    change ((1 =? 0)%nat || false) with false. cbv iota.
    set (w1 := mkWorld _ _).
    destruct (handleToolCalls_outcome (chat := insistent_adapter tc) ops [tc]
                (Z.of_nat (length (cleanContext journal))) now logs w1)
      as (new1 & w2 & Hcalls & Hcalls1 & Hcount1).
    erewrite bind_Ok by exact Hcalls.
    destruct (IH (logs ++ logs_of_calls (Z.of_nat (length (cleanContext journal))) now new1) w2)
      as (new2 & result & Hres & Hcalls2 & Hcount2).
    eexists ([_] ++ new1 ++ new2), result. rewrite Hcalls2, Hcalls1. subst w1. cbn [env calls].
    rewrite <- !app_assoc. split_and!; [done|done|].
    rewrite !count_completed_app, Hcount1, Hcount2. reflexivity.
Qed.

Lemma evaluate_insistent journal m delta now (o : O) :
  let r := evaluate (chat := insistent_adapter tc) ops journal (m :: delta) now (mkEnv o []) in
  count_completed (calls (snd r)) = 5%nat /\ exists result, fst r = Ok result.
Proof.
  intros r. subst r. unfold evaluate. cbn [length Nat.eqb].
  set (w := mkWorld _ _).
  destruct (rounds_insistent MAX_TOOL_ITERATIONS journal now [] w)
    as (new & result & Hres & Hcalls & Hcount).
  destruct (rounds ops MAX_TOOL_ITERATIONS journal now [] w) as [outcome w'].
  cbn [fst snd] in *. rewrite Hcalls, Hres. subst w. cbn [env calls]. split; [done|eauto].
Qed.

(** When the call it keeps asking for fails every time, every round is still
    run, and the logs stay as they were. *)
Lemma rounds_insistent_failing remaining journal now logs (w : World unit O) :
  (forall o, exists msg, tool_failure ops tc o msg) ->
  let r := rounds (chat := insistent_adapter tc) ops remaining journal now logs w in
  exists new,
    fst r = Ok logs
    /\ calls (env (snd r)) = calls (env w) ++ new
    /\ count_completed new = remaining.
Proof.
  intros Hfails. cbv zeta. revert w. induction remaining as [|remaining IH]; intros w.
  - exists []. simpl. by rewrite app_nil_r.
  - rewrite rounds_S. cbn [complete insistent_adapter toolCalls done length]. cbv zeta.
    change ((1 =? 0)%nat || false) with false. cbv iota.
    set (w1 := mkWorld _ _). set (deltaIndex := Z.of_nat _).
    destruct (Hfails (backend (env w1))) as (msg & Hfail).
    destruct (handleToolCall_failure (chat := insistent_adapter tc) ops tc deltaIndex now w1
                msg Hfail) as (attempted & o' & Hcall & Hcount & _).
    match type of Hcall with _ = (_, ?w') => set (w2 := w') in Hcall end.
    erewrite bind_Ok; cycle 1.
    { cbn [handleToolCalls]. erewrite bind_Ok by exact Hcall. reflexivity. }
    destruct (IH w2) as (new2 & Hres & Hcalls2 & Hcount2).
    eexists ([_] ++ (attempted ++ [_; _]) ++ new2).
    rewrite Hres, Hcalls2. subst w2 w1. cbn [env calls].
    rewrite <- !app_assoc. split_and!; [done|done|].
    rewrite !count_completed_app, Hcount, Hcount2. reflexivity.
Qed.

Lemma evaluate_insistent_failing journal m delta now (o : O) :
  (forall o, exists msg, tool_failure ops tc o msg) ->
  let r := evaluate (chat := insistent_adapter tc) ops journal (m :: delta) now (mkEnv o []) in
  fst r = Ok {| logs := [] |} /\ count_completed (calls (snd r)) = 5%nat.
Proof.
  intros Hfails r. subst r. unfold evaluate. cbn [length Nat.eqb].
  set (w := mkWorld _ _).
  destruct (rounds_insistent_failing MAX_TOOL_ITERATIONS journal now [] w Hfails)
    as (new & Hres & Hcalls & Hcount).
  destruct (rounds ops MAX_TOOL_ITERATIONS journal now [] w) as [outcome w'].
  cbn [fst snd] in *. rewrite Hcalls, Hres. subst w. by cbn [env calls].
Qed.

End Insistent.

(** A memory store that rejects everything: the model asks five times to
    store the same text, is told five times why not, and [evaluate] returns
    without logs. *)
Lemma evaluate_failing_ops toolCallId journal m delta now :
  let r := evaluate (chat := insistent_adapter (dark_mode_call toolCallId))
             (codec := example_codec) failing_ops journal (m :: delta) now (mkEnv tt []) in
  fst r = Ok {| logs := [] |} /\ count_completed (calls (snd r)) = 5%nat.
Proof.
  apply evaluate_insistent_failing. intros o.
  exists "Similar memory already exists".
  by eapply (store_throws failing_ops (dark_mode_call toolCallId) o
               (mkError "Similar memory already exists") o).
Qed.

(** C4.  When executing a tool call fails, for a missing [text] or
    [memoryId], an unknown tool name, or a memory operation that throws,
    [handleToolCall] logs a warning, pushes [Error: <message>] to the adapter
    as a tool result with [isError = true], and returns no log entry; the
    loop over the tool calls goes on with the next one and the logs it had.
    [evaluate] itself rejects only with what a [complete()] call rejected
    with; and when the model keeps asking for a call that fails every time,
    [evaluate] still runs its five rounds and returns, with no logs. *)
Theorem tool_failure_is_fed_back :
  (forall A O (chat : ChatAdapter A) (codec : NumberCodec) (ops : MemoryOps O)
          tc deltaIndex now w msg,
     tool_failure ops tc (backend (env w)) msg ->
     exists attempted o',
       let w' :=
         mkWorld (pushToolResult (id tc) ("Error: " +:+ msg) true (adapter w))
           (mkEnv o'
              (calls (env w) ++ attempted ++
               [LoggedWarn ("memory-lancedb: tool " +:+ name tc +:+ " failed: "
                            +:+ "Error: " +:+ msg);
                PushedToolResult (id tc) ("Error: " +:+ msg) true])) in
       handleToolCall ops tc deltaIndex now w = (Ok None, w')
       /\ logs_of_calls deltaIndex now attempted = []
       /\ count_completed attempted = 0%nat
       /\ forall rest logs,
            handleToolCalls ops (tc :: rest) deltaIndex now logs w
            = handleToolCalls ops rest deltaIndex now logs w')
  /\ (forall A O (chat : ChatAdapter A) (codec : NumberCodec) (ops : MemoryOps O)
             journal delta now e,
        (exists result, fst (evaluate ops journal delta now e) = Ok result)
        \/ (exists err,
              fst (evaluate ops journal delta now e) = Throw err
              /\ last (calls (snd (evaluate ops journal delta now e)))
                 = Some (Completed (Throw err))))
  /\ (forall O (codec : NumberCodec) (ops : MemoryOps O) tc journal m delta now o,
        (forall o, exists msg, tool_failure ops tc o msg) ->
        let r := evaluate (chat := insistent_adapter tc) ops journal (m :: delta) now
                   (mkEnv o []) in
        fst r = Ok {| logs := [] |} /\ count_completed (calls (snd r)) = 5%nat).
Proof.
  split_and!.
  - intros A O chat codec ops tc deltaIndex now w msg Hfail.
    destruct (handleToolCall_failure ops tc deltaIndex now w msg Hfail)
      as (attempted & o' & Hcall & Hcount & Hlogs).
    exists attempted, o'. cbv zeta. split_and!; [done|done|done|].
    intros rest logs. cbn [handleToolCalls]. by erewrite bind_Ok by exact Hcall.
  - intros A O chat codec ops. apply evaluate_rejects_with_complete.
  - intros O codec ops tc journal m delta now o Hfails.
    by apply evaluate_insistent_failing.
Qed.

(** C5.  [evaluate] always returns, after at most five [complete()] calls:
    with the log entries of the memory operations that succeeded on the way,
    or, when a [complete()] rejects, with that rejection.  With an adapter
    that answers every [complete()], whatever it answers, [evaluate] returns
    those log entries. *)
Theorem evaluate_bounded :
  (forall A O (chat : ChatAdapter A) (codec : NumberCodec) (ops : MemoryOps O)
          journal delta now e,
     exists new,
       calls (snd (evaluate ops journal delta now e)) = calls e ++ new
       /\ (count_completed new <= 5)%nat
       /\ (fst (evaluate ops journal delta now e)
           = Ok {| logs := logs_of_calls (Z.of_nat (length (cleanContext journal))) now new |}
           \/ exists err,
                fst (evaluate ops journal delta now e) = Throw err
                /\ last new = Some (Completed (Throw err))))
  /\ (forall A O (chat : ChatAdapter A) (codec : NumberCodec) (ops : MemoryOps O)
             journal delta now e,
        (forall a, exists response a', complete a = (Ok response, a')) ->
        exists new,
          calls (snd (evaluate ops journal delta now e)) = calls e ++ new
          /\ (count_completed new <= 5)%nat
          /\ fst (evaluate ops journal delta now e)
             = Ok {| logs := logs_of_calls (Z.of_nat (length (cleanContext journal)))
                               now new |}).
Proof.
  split.
  - intros A O chat codec ops. apply evaluate_outcome.
  - intros A O chat codec ops journal delta now e Hanswers.
    destruct (evaluate_outcome ops journal delta now e) as (new & Hcalls & Hcount & Hres).
    exists new. split_and!; [done|done|].
    destruct Hres as [Hok|(err & Herr & _)]; [done|].
    exfalso. revert Herr. unfold evaluate.
    destruct (length delta =? 0)%nat; [done|].
    set (w := mkWorld _ e).
    destruct (rounds_returns ops MAX_TOOL_ITERATIONS journal now [] w Hanswers)
      as (result & Hres).
    destruct (rounds ops MAX_TOOL_ITERATIONS journal now [] w) as [outcome w'].
    cbn [fst] in *. by rewrite Hres.
Qed.

Section StoreExample.
Context {A O : Type} `{chat : ChatAdapter A} `{codec : NumberCodec}.
Variable ops : MemoryOps O.

Lemma executeTool_store tc deltaIndex e memoryId o' :
  name tc = "store_memory" ->
  arg_string (args tc) "text" "" ≠ "" ->
  store ops (arg_string (args tc) "text" "") (arg_string (args tc) "category" "other")
    (arg_number (args tc) "importance" 0.7%float) (backend e) = (Ok memoryId, o') ->
  executeTool ops (name tc) (args tc) deltaIndex e
  = (Ok (Some {| deltaIndex := deltaIndex; action := ActStore; memoryId := memoryId;
                 log_text := arg_string (args tc) "text" ""; timestamp := 0 |}),
     mkEnv o'
       (calls e ++
        [Stored (arg_string (args tc) "text" "") (arg_string (args tc) "category" "other")
           (arg_number (args tc) "importance" 0.7%float) (Ok memoryId);
         LoggedInfo ("memory-lancedb: stored " +:+ str_take 8 memoryId +:+ ": "
                     +:+ dquote +:+ str_take 60 (arg_string (args tc) "text" "")
                     +:+ dquote)])).
Proof.
  intros Hn Ht Hop. unfold executeTool.
  fold (arg_string (args tc) "text" "") (arg_string (args tc) "category" "other")
       (arg_number (args tc) "importance" 0.7%float).
  rewrite Hn. known_name. apply is_empty_false in Ht. rewrite Ht.
  unfold bind, call_ops. rewrite Hop.
  unfold logger_info, emit, modify, ret. cbn [backend calls].
  by rewrite <- app_assoc.
Qed.

(** A [store_memory] call that succeeds: the entry is stamped with [now] and
    the success message goes back to the model. *)
Lemma handleToolCall_store tc deltaIndex now w memoryId o' :
  name tc = "store_memory" ->
  arg_string (args tc) "text" "" ≠ "" ->
  store ops (arg_string (args tc) "text" "") (arg_string (args tc) "category" "other")
    (arg_number (args tc) "importance" 0.7%float) (backend (env w)) = (Ok memoryId, o') ->
  handleToolCall ops tc deltaIndex now w
  = (Ok (Some {| deltaIndex := deltaIndex; action := ActStore; memoryId := memoryId;
                 log_text := arg_string (args tc) "text" ""; timestamp := now |}),
     mkWorld (pushToolResult (id tc) ("Success: store memory " +:+ memoryId) false (adapter w))
       (mkEnv o'
          (calls (env w) ++
           [Stored (arg_string (args tc) "text" "") (arg_string (args tc) "category" "other")
              (arg_number (args tc) "importance" 0.7%float) (Ok memoryId);
            LoggedInfo ("memory-lancedb: stored " +:+ str_take 8 memoryId +:+ ": "
                        +:+ dquote +:+ str_take 60 (arg_string (args tc) "text" "")
                        +:+ dquote);
            PushedToolResult (id tc) ("Success: store memory " +:+ memoryId) false]))).
Proof.
  intros Hn Ht Hop. unfold handleToolCall, try_catch, bind, lift.
  rewrite (executeTool_store tc deltaIndex (env w) memoryId o' Hn Ht Hop).
  unfold adapter_pushToolResult, modify, ret. cbn.
  by rewrite <- app_assoc.
Qed.

End StoreExample.

(** C6.  Every entry [evaluate] returns has the length of the journal's clean
    context as its [deltaIndex].  In the end-to-end example, where the model
    asks for [store_memory] of the one message of the context and the store
    answers [abc123], [evaluate] returns the single entry with [deltaIndex]
    1, action [store], that id and that text (and the time of the call). *)
Theorem deltaIndex_is_context_length :
  (forall A O (chat : ChatAdapter A) (codec : NumberCodec) (ops : MemoryOps O)
          journal delta now e result log,
     fst (evaluate ops journal delta now e) = Ok result ->
     log ∈ logs result ->
     deltaIndex log = Z.of_nat (length (cleanContext journal)))
  /\ (forall O (codec : NumberCodec) (ops : MemoryOps O) toolCallId isDone now o o',
        store ops "I like dark mode" "preference" 0.8%float o = (Ok "abc123", o') ->
        fst (evaluate
               (chat := scripted_adapter
                          [{| toolCalls := [dark_mode_call toolCallId]; done := isDone |}])
               ops dark_mode_journal [dark_mode] now (mkEnv o []))
        = Ok {| logs := [{| deltaIndex := 1; action := ActStore; memoryId := "abc123";
                            log_text := "I like dark mode"; timestamp := now |}] |}).
Proof.
  split.
  - intros A O chat codec ops journal delta now e result log. apply evaluate_deltaIndex.
  - intros O codec ops toolCallId isDone now o o' Hstore.
    unfold evaluate. cbn [length Nat.eqb]. set (w := mkWorld _ _).
    change MAX_TOOL_ITERATIONS with 5%nat. rewrite rounds_S.
    cbn [complete scripted_adapter newAdapter adapter script w toolCalls done length]. cbv zeta.
    change ((1 =? 0)%nat) with false. cbn [orb].
    set (w1 := mkWorld _ _).
    change (Z.of_nat (length (cleanContext dark_mode_journal))) with 1%Z.
    assert (Htext : arg_string (args (dark_mode_call toolCallId)) "text" "" ≠ "")
      by (vm_compute; discriminate).
    pose proof (handleToolCall_store
                  (chat := scripted_adapter
                             [{| toolCalls := [dark_mode_call toolCallId]; done := isDone |}])
                  ops (dark_mode_call toolCallId) 1 now w1 "abc123" o' eq_refl Htext Hstore)
      as Hcall.
    match type of Hcall with _ = (_, ?w') => set (w2 := w') in Hcall end.
    assert (Hcalls : handleToolCalls
                       (chat := scripted_adapter
                                  [{| toolCalls := [dark_mode_call toolCallId];
                                      done := isDone |}])
                       ops [dark_mode_call toolCallId] 1 now [] w1
                     = (Ok [{| deltaIndex := 1; action := ActStore; memoryId := "abc123";
                               log_text := "I like dark mode"; timestamp := now |}], w2)).
    { cbn [handleToolCalls]. by erewrite bind_Ok by exact Hcall. }
    destruct isDone.
    + by rewrite Hcalls.
    + erewrite bind_Ok by exact Hcalls. by rewrite rounds_S.
Qed.

Lemma deltaIndex_is_context_length_witness :
  let entry := {| deltaIndex := 1; action := ActStore; memoryId := "abc123";
                  log_text := "I like dark mode"; timestamp := 1700000000000 |} in
  deltaIndex entry = 1%Z
  /\ fst (evaluate
            (chat := scripted_adapter
                       [{| toolCalls := [dark_mode_call "call_1"]; done := false |}])
            (codec := example_codec) (counting_ops ["abc123"] "")
            dark_mode_journal [dark_mode] 1700000000000 (mkEnv 0%nat []))
     = Ok {| logs := [entry] |}.
Proof.
  intros entry. split.
  - refine (proj1 deltaIndex_is_context_length _ _
              (scripted_adapter [{| toolCalls := [dark_mode_call "call_1"]; done := true |}])
              example_codec (counting_ops ["abc123"] "")
              dark_mode_journal [dark_mode] 1700000000000%Z (mkEnv 0%nat [])
              {| logs := [entry] |} entry _ _).
    + vm_compute. reflexivity.
    + apply list_elem_of_here.
  - exact (proj2 deltaIndex_is_context_length nat example_codec
             (counting_ops ["abc123"] "") "call_1" false 1700000000000%Z 0%nat 1%nat
             eq_refl).
Defined.

Lemma tool_failure_is_fed_back_witness :
  let tc := {| id := "call_1"; name := "store_memory"; args := ∅ |} in
  let r := evaluate (chat := insistent_adapter tc) (codec := example_codec)
             (counting_ops [] "") dark_mode_journal [dark_mode] 1700000000000
             (mkEnv 0%nat []) in
  (exists attempted o',
     handleToolCall (chat := insistent_adapter tc) (codec := example_codec)
       (counting_ops [] "") tc 1 1700000000000 (mkWorld tt (mkEnv 0%nat []))
     = (Ok None,
        mkWorld tt
          (mkEnv o'
             ([] ++ attempted ++
              [LoggedWarn ("memory-lancedb: tool store_memory failed: "
                           +:+ "Error: text is required for store_memory");
               PushedToolResult "call_1" "Error: text is required for store_memory"
                 true]))))
  /\ fst r = Ok {| logs := [] |}
  /\ count_completed (calls (snd r)) = 5%nat.
Proof.
  intros tc r.
  assert (Hfail : forall o : nat,
            tool_failure (codec := example_codec) (counting_ops [] "") tc o
              "text is required for store_memory")
    by (intros o; apply store_without_text; reflexivity).
  pose proof tool_failure_is_fed_back as (Hcall & _ & Hloop).
  split.
  - destruct (Hcall unit nat (insistent_adapter tc) example_codec (counting_ops [] "")
                tc 1%Z 1700000000000%Z (mkWorld tt (mkEnv 0%nat []))
                "text is required for store_memory" (Hfail 0%nat))
      as (attempted & o' & Heq & _).
    exists attempted, o'. exact Heq.
  - apply (Hloop nat example_codec (counting_ops [] "") tc dark_mode_journal dark_mode []
             1700000000000%Z 0%nat).
    intros o. eexists. apply Hfail.
Defined.

Lemma evaluate_bounded_witness :
  let tc := dark_mode_call "call_1" in
  exists new,
    calls (snd (evaluate (chat := insistent_adapter tc) (codec := example_codec)
                  (counting_ops ["abc123"] "") dark_mode_journal [dark_mode]
                  1700000000000 (mkEnv 0%nat [])))
    = [] ++ new
    /\ (count_completed new <= 5)%nat
    /\ fst (evaluate (chat := insistent_adapter tc) (codec := example_codec)
              (counting_ops ["abc123"] "") dark_mode_journal [dark_mode]
              1700000000000 (mkEnv 0%nat []))
       = Ok {| logs := logs_of_calls 1 1700000000000 new |}.
Proof.
  intros tc.
  refine (proj2 evaluate_bounded unit nat (insistent_adapter tc) example_codec
            (counting_ops ["abc123"] "") dark_mode_journal [dark_mode] 1700000000000%Z
            (mkEnv 0%nat []) _).
  intros a. by exists {| toolCalls := [tc]; done := false |}, a.
Defined.

(* ====================================================================== *)
(** * SessionJournal: further properties                                    *)
(* ====================================================================== *)

Section JournalKeys.
Context `{host : Host}.

Lemma dedup_key_inj m1 m2 : dedup_key m1 = dedup_key m2 -> m1 = m2.
Proof.
  destruct m1 as [r1 t1], m2 as [r2 t2]. unfold dedup_key. cbn [role text].
  destruct r1, r2; cbn; intros Heq; try discriminate.
  - by simplify_eq.
  - by simplify_eq.
Qed.

Lemma elem_of_existing_keys_iff journal m :
  dedup_key m ∈ existing_keys journal <-> m ∈ cleanContext journal.
Proof.
  rewrite elem_of_existing_keys. split.
  - intros (m' & Hm' & Hkey). by rewrite <- (dedup_key_inj _ _ Hkey).
  - intros Hm. by exists m.
Qed.

Lemma fresh_of_filter journal messages :
  fresh_of journal messages = filter (fun m => m ∉ cleanContext journal) messages.
Proof.
  unfold fresh_of. apply list_filter_iff. intros m. by rewrite elem_of_existing_keys_iff.
Qed.

(** X1.  The key [role:text] under which messages are compared identifies the
    pair: two messages have the same key only if they have the same role and
    the same text.  So a message of a batch is skipped exactly when the clean
    context holds that very message. *)
Theorem dedup_key_identifies_message :
  (forall m1 m2, dedup_key m1 = dedup_key m2 -> m1 = m2)
  /\ (forall journal m,
        dedup_key m ∈ existing_keys journal <-> m ∈ cleanContext journal)
  /\ (forall journal messages,
        fresh_of journal messages
        = filter (fun m => m ∉ cleanContext journal) messages).
Proof.
  split_and!.
  - apply dedup_key_inj.
  - apply elem_of_existing_keys_iff.
  - apply fresh_of_filter.
Qed.

Lemma sanitize_all_safe sessionKey : all_safe (sanitize sessionKey) = true.
Proof.
  induction sessionKey as [|c rest IH]; [done|]. cbn [sanitize all_safe].
  rewrite IH, andb_true_r. by destruct (safe_char c) eqn:Hc.
Qed.

Lemma sanitize_id_iff sessionKey : sanitize sessionKey = sessionKey <-> all_safe sessionKey = true.
Proof.
  induction sessionKey as [|c rest IH]; [done|]. cbn [sanitize all_safe].
  rewrite andb_true_iff, <- IH. destruct (safe_char c) eqn:Hc.
  - split; [intros [= ->]; eauto|intros [_ ->]; done].
  - split; [|intros [? _]; done].
    intros [= Hc' _]. rewrite <- Hc' in Hc. discriminate Hc.
Qed.

(** X2.  Sanitizing a session key keeps its length, leaves only characters
    of [[a-zA-Z0-9_-]], changes nothing when applied again, and is the
    identity exactly on the keys made of such characters.  So every key has
    the journal path of its sanitized form: a key with any other character
    shares its file with a different key, and keys of safe characters are
    told apart. *)
Theorem sanitize_properties :
  (forall sessionKey,
     String.length (sanitize sessionKey) = String.length sessionKey
     /\ all_safe (sanitize sessionKey) = true
     /\ sanitize (sanitize sessionKey) = sanitize sessionKey
     /\ (sanitize sessionKey = sessionKey <-> all_safe sessionKey = true)
     /\ journalPath (sanitize sessionKey) = journalPath sessionKey)
  /\ (forall key1 key2,
        all_safe key1 = true -> all_safe key2 = true ->
        sanitize key1 = sanitize key2 -> key1 = key2).
Proof.
  split.
  - intros sessionKey.
    assert (Hidem : sanitize (sanitize sessionKey) = sanitize sessionKey)
      by (apply sanitize_id_iff, sanitize_all_safe).
    split_and!.
    + clear Hidem. induction sessionKey as [|c rest IH]; [done|].
      cbn [sanitize String.length]. by rewrite IH.
    + apply sanitize_all_safe.
    + exact Hidem.
    + apply sanitize_id_iff.
    + unfold journalPath. by rewrite Hidem.
  - intros key1 key2 H1%sanitize_id_iff H2%sanitize_id_iff. congruence.
Qed.

(** ** What [appendMessages] and [commitDecisions] change *)

Lemma appended_cleanContext journal messages :
  cleanContext (appended journal messages)
  = cleanContext journal ++ fresh_of journal messages.
Proof.
  unfold appended. destruct (fresh_of journal messages); [|done].
  by rewrite app_nil_r.
Qed.

Lemma appended_memoryLogs journal messages :
  memoryLogs (appended journal messages) = memoryLogs journal.
Proof. unfold appended. by destruct (fresh_of journal messages). Qed.

(** X3.  [appendMessages] only appends: the clean context it returns is the
    one the session had, followed by the messages of the batch that the
    context did not hold, in the order of the batch; [processedIndex] and
    [memoryLogs] are as before; and the cache holds the journal returned. *)
Theorem appendMessages_appends sessionKey messages uuid s :
  exists journal' delta s',
    appendMessages sessionKey messages uuid s = (Ok (journal', delta), s')
    /\ cleanContext journal'
       = cleanContext (loaded sessionKey s)
         ++ filter (fun m => m ∉ cleanContext (loaded sessionKey s)) messages
    /\ processedIndex journal' = processedIndex (loaded sessionKey s)
    /\ memoryLogs journal' = memoryLogs (loaded sessionKey s)
    /\ cache s' !! sessionKey = Some journal'.
Proof.
  rewrite appendMessages_spec. do 3 eexists. split; [done|].
  rewrite appended_cleanContext, appended_processedIndex, appended_memoryLogs.
  rewrite fresh_of_filter.
  split_and!; try done. cbn [cache]. apply lookup_insert_eq.
Qed.

Lemma saved_files_tmp sessionKey data uuid fs :
  saved_files sessionKey data uuid fs !! tmpPathOf (journalPath sessionKey) uuid = None.
Proof.
  unfold saved_files. rewrite lookup_insert_ne by (symmetry; apply tmpPath_distinct).
  apply lookup_delete_eq.
Qed.

Lemma saved_files_other sessionKey data uuid fs path :
  path ≠ journalPath sessionKey ->
  path ≠ tmpPathOf (journalPath sessionKey) uuid ->
  saved_files sessionKey data uuid fs !! path = fs !! path.
Proof.
  intros H1 H2. unfold saved_files.
  rewrite lookup_insert_ne by done. rewrite lookup_delete_ne by done.
  by rewrite lookup_insert_ne.
Qed.

(** X4.  [appendMessages] writes only when it appended something.  When every
    message of the batch is in the clean context already, the files are left
    as they are.  Otherwise the session's file holds the serialized journal
    that is returned, no temporary file is left, and every other file is
    untouched. *)
Theorem appendMessages_persists_changes sessionKey messages uuid s :
  let s' := snd (appendMessages sessionKey messages uuid s) in
  (Forall (fun m => m ∈ cleanContext (loaded sessionKey s)) messages ->
   files s' = files s)
  /\ (forall journal' delta,
        fst (appendMessages sessionKey messages uuid s) = Ok (journal', delta) ->
        Exists (fun m => m ∉ cleanContext (loaded sessionKey s)) messages ->
        files s' !! journalPath sessionKey = Some (JSON_stringify journal')
        /\ files s' !! tmpPathOf (journalPath sessionKey) uuid = None
        /\ forall path,
             path ≠ journalPath sessionKey ->
             path ≠ tmpPathOf (journalPath sessionKey) uuid ->
             files s' !! path = files s !! path).
Proof.
  cbv zeta. rewrite appendMessages_spec. cbn [fst snd files].
  rewrite fresh_of_filter.
  split.
  - intros Hall. rewrite filter_all_out; [done|].
    eapply List.Forall_impl; [|exact Hall]. intros m Hin Hout. by apply Hout.
  - intros journal' delta [= <- _] Hex.
    destruct (filter _ messages) as [|m0 fresh] eqn:Hfilter.
    { exfalso. apply Exists_exists in Hex as (m & Hm & Hout).
      assert (Hin : m ∈ filter (fun m => m ∉ cleanContext (loaded sessionKey s)) messages)
        by (apply list_elem_of_filter; split; [exact Hout|exact Hm]).
      rewrite Hfilter in Hin. by apply elem_of_nil in Hin. }
    split_and!.
    + apply saved_files_canonical.
    + apply saved_files_tmp.
    + intros path. apply saved_files_other.
Qed.

(** X5.  [commitDecisions] appends the given logs to [memoryLogs], sets
    [processedIndex], keeps the clean context, and always writes the
    session's file, also when there is nothing to add; no temporary file is
    left and every other file is untouched. *)
Theorem commitDecisions_commits sessionKey logs newProcessedIndex uuid s :
  exists s' journal',
    commitDecisions sessionKey logs newProcessedIndex uuid s = (Ok tt, s')
    /\ cache s' !! sessionKey = Some journal'
    /\ memoryLogs journal' = memoryLogs (loaded sessionKey s) ++ logs
    /\ cleanContext journal' = cleanContext (loaded sessionKey s)
    /\ processedIndex journal' = newProcessedIndex
    /\ files s' !! journalPath sessionKey = Some (JSON_stringify journal')
    /\ files s' !! tmpPathOf (journalPath sessionKey) uuid = None
    /\ forall path,
         path ≠ journalPath sessionKey ->
         path ≠ tmpPathOf (journalPath sessionKey) uuid ->
         files s' !! path = files s !! path.
Proof.
  rewrite commitDecisions_spec.
  eexists _, (committed (loaded sessionKey s) logs newProcessedIndex). split; [done|].
  cbn [cache files]. split_and!; try done.
  - apply lookup_insert_eq.
  - apply saved_files_canonical.
  - apply saved_files_tmp.
  - intros path. apply saved_files_other.
Qed.

End JournalKeys.


Lemma bits_to_pos_to_bits p : bits_to_pos (pos_to_bits p) = Some p.
Proof. induction p as [p IH|p IH|]; simpl; by rewrite ?IH. Qed.

Lemma storage_host_lawful : lawful storage_host.
Proof. intros data. simpl. rewrite bits_to_pos_to_bits. apply decode_encode. Qed.

Section JournalDelta.
Context `{host : Host}.

Lemma slice_in_range {A} (n : Z) (arr : list A) :
  (0 <= n)%Z -> slice n arr = drop (Z.to_nat n) arr.
Proof.
  intros Hn. unfold slice. destruct (n <? 0)%Z eqn:Hneg; [lia|].
  destruct (Z.min_spec n (Z.of_nat (length arr))) as [[_ ->]|[Hge ->]]; [done|].
  rewrite Nat2Z.id, drop_all. symmetry. apply drop_ge. lia.
Qed.

Lemma slice_negative {A} (n : Z) (arr : list A) :
  (n < 0)%Z -> slice n arr = drop (length arr - Z.to_nat (- n)) arr.
Proof.
  intros Hn. unfold slice. destruct (n <? 0)%Z eqn:Hneg; [|lia].
  f_equal. lia.
Qed.

(** X6.  The delta [appendMessages] returns is the clean context from
    [processedIndex] on.  With the index inside the old context it is the
    unprocessed rest of the old context followed by the messages just
    appended, so with everything processed before, exactly the new messages.
    With the index beyond the new context it is empty, and with a negative
    index it is the last [-processedIndex] messages (all of them when there
    are fewer). *)
Theorem appendMessages_delta sessionKey messages uuid s journal' delta :
  fst (appendMessages sessionKey messages uuid s) = Ok (journal', delta) ->
  let old := loaded sessionKey s in
  let new := filter (fun m => m ∉ cleanContext old) messages in
  ((0 <= processedIndex old <= Z.of_nat (length (cleanContext old)))%Z ->
   delta = drop (Z.to_nat (processedIndex old)) (cleanContext old) ++ new)
  /\ (processedIndex old = Z.of_nat (length (cleanContext old)) -> delta = new)
  /\ ((Z.of_nat (length (cleanContext journal')) <= processedIndex old)%Z -> delta = [])
  /\ ((processedIndex old < 0)%Z ->
      delta = drop (length (cleanContext journal') - Z.to_nat (- processedIndex old))
                (cleanContext journal')).
Proof.
  rewrite appendMessages_spec. cbn [fst]. intros [= <- <-]. cbv zeta.
  unfold delta_of. rewrite appended_processedIndex, appended_cleanContext.
  rewrite fresh_of_filter.
  set (old := loaded sessionKey s). set (new := filter _ messages).
  assert (Hin : (0 <= processedIndex old <= Z.of_nat (length (cleanContext old)))%Z ->
                slice (processedIndex old) (cleanContext old ++ new)
                = drop (Z.to_nat (processedIndex old)) (cleanContext old) ++ new).
  { intros [H0 Hle]. rewrite slice_in_range by done.
    rewrite drop_app_le by lia. done. }
  split_and!.
  - exact Hin.
  - intros Heq. rewrite Hin by lia. rewrite Heq, Nat2Z.id. by rewrite drop_all.
  - intros Hge. rewrite slice_in_range by lia. apply drop_ge. lia.
  - intros Hneg. by apply slice_negative.
Qed.

(** X7.  A session that is in the cache is never read from its file again:
    whatever has become of the files, [appendMessages] returns the same
    journal and the same delta. *)
Theorem cached_session_ignores_files sessionKey messages uuid s data other_files :
  cache s !! sessionKey = Some data ->
  fst (appendMessages sessionKey messages uuid (set_files (fun _ => other_files) s))
  = fst (appendMessages sessionKey messages uuid s)
  /\ fst (load sessionKey (set_files (fun _ => other_files) s)) = Ok data.
Proof.
  intros Hc. rewrite !appendMessages_spec, load_loaded. cbn [fst].
  assert (Hl : loaded sessionKey (set_files (fun _ => other_files) s) = data).
  { apply loaded_cached. by destruct s. }
  by rewrite Hl, (loaded_cached _ _ _ Hc).
Qed.

(** X8.  Sessions with different keys do not touch each other's cached
    journal, and a call on one session changes no file but that session's
    own and its temporary file. *)
Theorem sessions_are_separate sessionKey other s s' :
  journal_step_on other s s' ->
  (sessionKey ≠ other -> cache s' !! sessionKey = cache s !! sessionKey)
  /\ (forall path,
        path ≠ journalPath other ->
        (forall uuid, path ≠ tmpPathOf (journalPath other) uuid) ->
        files s' !! path = files s !! path).
Proof.
  intros [messages uuid|logs n uuid].
  - rewrite appendMessages_spec. cbn [snd cache files]. split.
    + intros Hne. by rewrite lookup_insert_ne.
    + intros path H1 H2. destruct (fresh_of _ messages); [done|].
      by apply saved_files_other.
  - rewrite commitDecisions_spec. cbn [snd cache files]. split.
    + intros Hne. by rewrite lookup_insert_ne.
    + intros path H1 H2. by apply saved_files_other.
Qed.

(** X9.  With a lawful codec, what a call has saved is what a journal
    constructed anew over the same files loads: after [commitDecisions], or
    after an [appendMessages] that appended something, a new instance starts
    the session from the very journal the old instance holds in its cache. *)
Theorem saved_journal_survives_restart sessionKey s :
  lawful host ->
  (forall logs newProcessedIndex uuid,
     let s' := snd (commitDecisions sessionKey logs newProcessedIndex uuid s) in
     cache s' !! sessionKey = Some (loaded sessionKey (new (files s'))))
  /\ (forall messages uuid,
        Exists (fun m => m ∉ cleanContext (loaded sessionKey s)) messages ->
        let s' := snd (appendMessages sessionKey messages uuid s) in
        cache s' !! sessionKey = Some (loaded sessionKey (new (files s')))).
Proof.
  intros Hlawful. split.
  - intros logs n uuid. cbv zeta. rewrite commitDecisions_spec. cbn [snd cache files].
    rewrite lookup_insert_eq. unfold loaded. cbn [cache files new].
    rewrite lookup_empty, saved_files_canonical, Hlawful. done.
  - intros messages uuid Hex. cbv zeta.
    rewrite appendMessages_spec. cbn [snd cache files].
    destruct (fresh_of (loaded sessionKey s) messages) as [|m0 fresh] eqn:Hfresh.
    { exfalso. apply Exists_exists in Hex as (m & Hm & Hout).
      assert (Hin : m ∈ fresh_of (loaded sessionKey s) messages).
      { rewrite fresh_of_filter.
        by apply list_elem_of_filter. }
      rewrite Hfresh in Hin. by apply elem_of_nil in Hin. }
    rewrite lookup_insert_eq. unfold loaded. cbn [cache files new].
    rewrite lookup_empty, saved_files_canonical, Hlawful. done.
Qed.

(** X10.  Two keys with the same sanitized form share their history: with a
    lawful codec, once a call on one of them has saved its journal, the
    other, if the cache does not hold it yet, starts from that journal, and
    its next [appendMessages] returns the first session's messages. *)
Theorem colliding_keys_share_history key1 key2 logs newProcessedIndex uuid s :
  lawful host ->
  sanitize key1 = sanitize key2 ->
  key1 ≠ key2 ->
  cache s !! key2 = None ->
  let s' := snd (commitDecisions key1 logs newProcessedIndex uuid s) in
  exists journal1,
    cache s' !! key1 = Some journal1
    /\ loaded key2 s' = journal1
    /\ forall uuid', fst (appendMessages key2 [] uuid' s')
                     = Ok (journal1, slice (processedIndex journal1) (cleanContext journal1)).
Proof.
  intros Hlawful Hsan Hne Hc. cbv zeta.
  assert (Hpath : journalPath key2 = journalPath key1)
    by (unfold journalPath; by rewrite Hsan).
  rewrite commitDecisions_spec. cbn [snd].
  set (journal1 := committed (loaded key1 s) logs newProcessedIndex).
  set (s' := mkState _ _ _).
  assert (Hl : loaded key2 s' = journal1).
  { unfold loaded, s'. cbn [cache files].
    rewrite lookup_insert_ne by done. rewrite Hc, Hpath, saved_files_canonical.
    by rewrite Hlawful. }
  exists journal1. split_and!.
  - apply lookup_insert_eq.
  - exact Hl.
  - intros uuid'. rewrite appendMessages_spec. cbn [fst]. rewrite Hl.
    by rewrite appended_present by constructor.
Qed.

End JournalDelta.

Lemma dedup_key_identifies_message_witness :
  {| role := user; text := "hi" |} = {| role := user; text := "hi" |}.
Proof.
  exact (proj1 dedup_key_identifies_message
           {| role := user; text := "hi" |} {| role := user; text := "hi" |} eq_refl).
Defined.

Lemma sanitize_properties_witness : "agent-7_main" = "agent-7_main".
Proof.
  exact (proj2 (sanitize_properties (host := example_host))
           "agent-7_main" "agent-7_main" eq_refl eq_refl eq_refl).
Defined.

Lemma appendMessages_persists_changes_witness :
  let hi := {| role := user; text := "hi" |} in
  let bye := {| role := assistant; text := "bye" |} in
  files (snd (appendMessages (host := example_host) "s" [hi] "0a1b2c3d-cccc" example_loaded))
  = files example_loaded
  /\ files (snd (appendMessages (host := example_host) "s" [hi; bye] "0a1b2c3d-cccc"
                   example_loaded)) !! "/db/sessions/s.json.0a1b2c3d.tmp" = None.
Proof.
  intros hi bye. split.
  - apply (proj1 (appendMessages_persists_changes (host := example_host)
                    "s" [hi] "0a1b2c3d-cccc" example_loaded)).
    repeat constructor.
  - refine (proj1 (proj2 (proj2 (appendMessages_persists_changes (host := example_host)
                     "s" [hi; bye] "0a1b2c3d-cccc" example_loaded)
              {| processedIndex := 0; cleanContext := [hi; bye]; memoryLogs := [] |}
              [hi; bye] _ _))).
    + vm_compute. reflexivity.
    + apply Exists_cons_tl, Exists_cons_hd. vm_compute. by inversion 1 as [|? ? ? H]; inversion H.
Defined.

Lemma appendMessages_delta_witness :
  let hi := {| role := user; text := "hi" |} in
  let bye := {| role := assistant; text := "bye" |} in
  [hi; bye] = drop 0 [hi] ++ [bye].
Proof.
  intros hi bye.
  refine (proj1 (appendMessages_delta (host := example_host) "s" [hi; bye] "0a1b2c3d-cccc"
                   example_loaded
                   {| processedIndex := 0; cleanContext := [hi; bye]; memoryLogs := [] |}
                   [hi; bye] _) _).
  - vm_compute. reflexivity.
  - vm_compute. split; discriminate.
Defined.

Lemma cached_session_ignores_files_witness :
  fst (load (host := example_host) "s" (set_files (fun _ => ∅) example_loaded))
  = Ok {| processedIndex := 0; cleanContext := [{| role := user; text := "hi" |}];
          memoryLogs := [] |}.
Proof.
  refine (proj2 (cached_session_ignores_files (host := example_host) "s" [] "0a1b2c3d-cccc"
                   example_loaded _ ∅ _)).
  vm_compute. reflexivity.
Defined.

Lemma sessions_are_separate_witness :
  cache (snd (commitDecisions (host := example_host) "t" [] 0 "0a1b2c3d-cccc" example_loaded))
    !! "s"
  = cache example_loaded !! "s".
Proof.
  refine (proj1 (sessions_are_separate (host := example_host) "s" "t" example_loaded _
                   (step_on_commitDecisions "t" example_loaded [] 0%Z "0a1b2c3d-cccc")) _).
  discriminate.
Defined.

Lemma saved_journal_survives_restart_witness :
  let s' := snd (commitDecisions (host := storage_host) "s" [] 0 "0a1b2c3d-cccc" (new ∅)) in
  cache s' !! "s" = Some (loaded (host := storage_host) "s" (new (files s'))).
Proof.
  exact (proj1 (saved_journal_survives_restart (host := storage_host) "s" (new ∅)
                  storage_host_lawful) [] 0%Z "0a1b2c3d-cccc").
Defined.

Lemma colliding_keys_share_history_witness :
  let s' := snd (commitDecisions (host := storage_host) "a.b" [] 0 "0a1b2c3d-cccc" (new ∅)) in
  exists journal1,
    cache s' !! "a.b" = Some journal1
    /\ loaded (host := storage_host) "a:b" s' = journal1
    /\ forall uuid', fst (appendMessages (host := storage_host) "a:b" [] uuid' s')
                     = Ok (journal1, slice (processedIndex journal1) (cleanContext journal1)).
Proof.
  apply (colliding_keys_share_history (host := storage_host) "a.b" "a:b" [] 0%Z
           "0a1b2c3d-cccc" (new ∅) storage_host_lawful); [reflexivity|discriminate|reflexivity].
Defined.


(* ====================================================================== *)
(** * LLMDecisionMaker: further properties                                  *)
(* ====================================================================== *)

Lemma pushed_ids_app evs1 evs2 : pushed_ids (evs1 ++ evs2) = pushed_ids evs1 ++ pushed_ids evs2.
Proof. apply omap_app. Qed.

Lemma requested_ids_app evs1 evs2 :
  requested_ids (evs1 ++ evs2) = requested_ids evs1 ++ requested_ids evs2.
Proof. unfold requested_ids. by rewrite map_app, concat_app. Qed.

Lemma backend_events_quiet evs :
  forallb is_backend_event evs = true ->
  pushed_ids evs = [] /\ requested_ids evs = [] /\ count_completed evs = 0%nat.
Proof.
  induction evs as [|ev evs IH]; [done|]. cbn [forallb].
  intros [Hev Hevs]%andb_true_iff. destruct (IH Hevs) as (IH1 & IH2 & IH3).
  destruct ev; try discriminate Hev; cbn; rewrite ?IH1; auto.
Qed.

Section DecisionCalls.
Context {A O : Type} `{chat : ChatAdapter A} `{codec : NumberCodec}.
Variable ops : MemoryOps O.

(** What [executeTool] does to the outside: nothing, when it rejects the call
    itself; else one memory operation, followed by an info line when that
    succeeded. *)
Lemma executeTool_events tc deltaIndex e :
  exists new o',
    snd (executeTool ops (name tc) (args tc) deltaIndex e) = mkEnv o' (calls e ++ new)
    /\ forallb is_backend_event new = true
    /\ (new = [] -> o' = backend e)
    /\ (forall ev rest, new = ev :: rest -> is_ops_event ev = true).
Proof.
  unfold executeTool.
  fold (arg_string (args tc) "text" "") (arg_string (args tc) "category" "other")
       (arg_number (args tc) "importance" 0.7%float) (arg_string (args tc) "memoryId" "").
  assert (Hnone : exists new o',
            snd (throw (S := Env O) (A := option MemoryLogEntry) (mkError "") e)
            = mkEnv o' (calls e ++ new)
            /\ forallb is_backend_event new = true
            /\ (new = [] -> o' = backend e)
            /\ (forall ev rest, new = ev :: rest -> is_ops_event ev = true)).
  { exists [], (backend e). rewrite app_nil_r. by destruct e. }
  destruct (String.eqb (name tc) "store_memory").
  { destruct (is_empty (arg_string (args tc) "text" "")); [exact Hnone|].
    unfold bind, call_ops, logger_info, emit, modify, ret.
    destruct (store ops _ _ _ (backend e)) as [[memoryId|err] o']; cbn.
    - eexists [_; _], o'. rewrite <- app_assoc. split_and!; try done.
      by intros ev rest [= <- _].
    - eexists [_], o'. split_and!; try done. by intros ev rest [= <- _]. }
  destruct (String.eqb (name tc) "forget_memory").
  { destruct (is_empty (arg_string (args tc) "memoryId" "")); [exact Hnone|].
    unfold bind, call_ops, logger_info, emit, modify, ret.
    destruct (forget ops _ (backend e)) as [[b|err] o']; cbn.
    - eexists [_; _], o'. rewrite <- app_assoc. split_and!; try done.
      by intros ev rest [= <- _].
    - eexists [_], o'. split_and!; try done. by intros ev rest [= <- _]. }
  destruct (String.eqb (name tc) "update_memory"); [|exact Hnone].
  destruct (is_empty (arg_string (args tc) "memoryId" "")); [exact Hnone|].
  destruct (is_empty (arg_string (args tc) "text" "")); [exact Hnone|].
  unfold bind, call_ops, logger_info, emit, modify, ret.
  destruct (update ops _ _ _ _ (backend e)) as [[newId|err] o']; cbn.
  - eexists [_; _], o'. rewrite <- app_assoc. split_and!; try done.
    by intros ev rest [= <- _].
  - eexists [_], o'. split_and!; try done. by intros ev rest [= <- _].
Qed.

(** Each tool call is answered by one tool result, which carries its id. *)
Lemma handleToolCall_answers tc deltaIndex now w :
  exists log new w',
    handleToolCall ops tc deltaIndex now w = (Ok log, w')
    /\ calls (env w') = calls (env w) ++ new
    /\ pushed_ids new = [id tc]
    /\ requested_ids new = [].
Proof.
  destruct (executeTool_events tc deltaIndex (env w)) as (new & o' & Hsnd & Hquiet & _).
  destruct (backend_events_quiet new Hquiet) as (Hp & Hr & _).
  unfold handleToolCall, try_catch, bind, lift, adapter_pushToolResult, logger_warn,
    emit, modify, ret.
  destruct (executeTool ops (name tc) (args tc) deltaIndex (env w)) as [[log|err] e'];
    simpl in Hsnd; subst e'; simpl.
  - eexists _, (new ++ [_]), _. split; [done|]. simpl.
    rewrite app_assoc, pushed_ids_app, requested_ids_app, Hp, Hr. done.
  - eexists None, (new ++ [_; _]), _. split; [done|]. simpl.
    rewrite <- !app_assoc, pushed_ids_app, requested_ids_app, Hp, Hr. done.
Qed.

Lemma handleToolCalls_answers tcs deltaIndex now logs w :
  exists logs' new w',
    handleToolCalls ops tcs deltaIndex now logs w = (Ok logs', w')
    /\ calls (env w') = calls (env w) ++ new
    /\ pushed_ids new = map id tcs
    /\ requested_ids new = [].
Proof.
  revert logs w. induction tcs as [|tc rest IH]; intros logs w.
  - exists logs, [], w. simpl. unfold ret. by rewrite app_nil_r.
  - destruct (handleToolCall_answers tc deltaIndex now w)
      as (log & new1 & w1 & Hcall & Hcalls1 & Hp1 & Hr1).
    simpl. erewrite bind_Ok by exact Hcall.
    destruct (IH (match log with Some l => logs ++ [l] | None => logs end) w1)
      as (logs' & new2 & w2 & Hrest & Hcalls2 & Hp2 & Hr2).
    exists logs', (new1 ++ new2), w2. split_and!.
    + done.
    + by rewrite Hcalls2, Hcalls1, app_assoc.
    + by rewrite pushed_ids_app, Hp1, Hp2.
    + by rewrite requested_ids_app, Hr1, Hr2.
Qed.

Lemma rounds_answers remaining journal now logs w :
  exists new,
    calls (env (snd (rounds ops remaining journal now logs w))) = calls (env w) ++ new
    /\ pushed_ids new = requested_ids new.
Proof.
  revert logs w. induction remaining as [|remaining IH]; intros logs w.
  - exists []. simpl. by rewrite app_nil_r.
  - rewrite rounds_S. cbv zeta.
    destruct (complete (adapter w)) as [[response|err] a'].
    + set (w1 := mkWorld _ _). set (deltaIndex := Z.of_nat _).
      destruct (handleToolCalls_answers (toolCalls response) deltaIndex now logs w1)
        as (logs' & new1 & w2 & Hcalls & Hcalls1 & Hp1 & Hr1).
      destruct ((length (toolCalls response) =? 0)%nat || done response).
      * exists ([Completed (Ok response)] ++ new1).
        rewrite Hcalls. cbn [snd]. rewrite Hcalls1. subst w1. cbn [env calls].
        rewrite <- app_assoc. split; [done|].
        rewrite pushed_ids_app, requested_ids_app, Hp1, Hr1. cbn.
        by rewrite !app_nil_r.
      * erewrite bind_Ok by exact Hcalls.
        destruct (IH logs' w2) as (new2 & Hcalls2 & Hanswered).
        exists ([Completed (Ok response)] ++ new1 ++ new2).
        rewrite Hcalls2, Hcalls1. subst w1. cbn [env calls].
        rewrite <- !app_assoc. split; [done|].
        rewrite !pushed_ids_app, !requested_ids_app, Hp1, Hr1, Hanswered. cbn.
        by rewrite !app_nil_r.
    + exists [Completed (Throw err)]. cbn [snd env calls]. done.
Qed.

(** X11.  [evaluate] answers every tool call the adapter returns: it pushes
    exactly one tool result for each, with the id of the call, in the order
    in which the calls were returned, and pushes nothing else. *)
Theorem evaluate_answers_every_call journal delta now e :
  exists new,
    calls (snd (evaluate ops journal delta now e)) = calls e ++ new
    /\ pushed_ids new = requested_ids new.
Proof.
  unfold evaluate. destruct (length delta =? 0)%nat.
  - exists []. unfold ret. cbn. by rewrite app_nil_r.
  - set (w := mkWorld _ e).
    destruct (rounds_answers MAX_TOOL_ITERATIONS journal now [] w) as (new & Hcalls & Hanswered).
    exists new. destruct (rounds ops MAX_TOOL_ITERATIONS journal now [] w) as [outcome w'].
    by cbn [fst snd] in *.
Qed.

End DecisionCalls.


Section DecisionRounds.
Context {A O : Type} `{chat : ChatAdapter A} `{codec : NumberCodec}.
Variable ops : MemoryOps O.



(** X13.  The entries [evaluate] returns all carry the time at which it
    started, whenever their operations ran, and never the placeholder that
    [executeTool] fills in. *)
Theorem evaluate_stamps_logs journal delta now e result :
  fst (evaluate ops journal delta now e) = Ok result ->
  Forall (fun log => timestamp log = now) (logs result).
Proof.
  intros Hres.
  destruct (evaluate_outcome ops journal delta now e) as (new & _ & _ & Hout).
  destruct Hout as [Hok|(err & Herr & _)]; [|congruence].
  rewrite Hres in Hok. injection Hok as ->. cbn [logs].
  apply Forall_forall. intros log Hin. unfold logs_of_calls in Hin.
  apply list_elem_of_omap in Hin as (ev & _ & Hev).
  destruct ev as [| |? ? ? [?|?]|? [?|?]|? ? ? ? [?|?]| |]; simpl in Hev;
    by inversion Hev.
Qed.





(** X16.  The tools declared to the model and the tools [executeTool] knows
    are the same three.  A call under an undeclared name fails as an unknown
    tool before anything is called; a call under a declared name that gives
    every argument the declaration requires reaches the memory operation: it
    is not refused for a missing argument. *)
Theorem declared_tools_are_executed tc deltaIndex e :
  map tool_name TOOL_DEFS = ["store_memory"; "forget_memory"; "update_memory"]
  /\ (name tc ∉ map tool_name TOOL_DEFS ->
      executeTool ops (name tc) (args tc) deltaIndex e
      = (Throw (mkError ("Unknown tool: " +:+ name tc)), e))
  /\ (forall def,
        def ∈ TOOL_DEFS -> name tc = tool_name def ->
        Forall (fun key => arg_string (args tc) key "" ≠ "") (tool_required def) ->
        exists ev rest,
          calls (snd (executeTool ops (name tc) (args tc) deltaIndex e))
          = calls e ++ ev :: rest
          /\ is_ops_event ev = true).
Proof.
  split_and!; [done| |].
  - intros Hnot. unfold executeTool.
    assert (H1 : name tc ≠ "store_memory") by (intros Heq; apply Hnot; rewrite Heq; set_solver).
    assert (H2 : name tc ≠ "forget_memory") by (intros Heq; apply Hnot; rewrite Heq; set_solver).
    assert (H3 : name tc ≠ "update_memory") by (intros Heq; apply Hnot; rewrite Heq; set_solver).
    apply String.eqb_neq in H1, H2, H3. by rewrite H1, H2, H3.
  - intros def Hdef Hname Hreq.
    destruct (executeTool_events ops tc deltaIndex e) as (new & o' & Hsnd & _ & _ & Hfirst).
    rewrite Hsnd. cbn [calls].
    destruct new as [|ev rest]; [|exists ev, rest; split; [done|by eapply Hfirst]].
    exfalso. revert Hsnd. unfold executeTool.
    fold (arg_string (args tc) "text" "") (arg_string (args tc) "category" "other")
         (arg_number (args tc) "importance" 0.7%float) (arg_string (args tc) "memoryId" "").
    apply list_elem_of_In in Hdef. simpl in Hdef.
    destruct Hdef as [<-|[<-|[<-|[]]]]; cbn [tool_name tool_required] in *;
      rewrite Hname; known_name.
    + apply Forall_cons in Hreq as [Ht%is_empty_false _]. rewrite Ht.
      unfold bind, call_ops, logger_info, emit, modify, ret.
      destruct (store ops _ _ _ (backend e)) as [[?|?] ?]; cbn; intros [= _ Hc];
        apply (f_equal length) in Hc; rewrite ?length_app in Hc; simpl in Hc; lia.
    + apply Forall_cons in Hreq as [Hi%is_empty_false _]. rewrite Hi.
      unfold bind, call_ops, logger_info, emit, modify, ret.
      destruct (forget ops _ (backend e)) as [[?|?] ?]; cbn; intros [= _ Hc];
        apply (f_equal length) in Hc; rewrite ?length_app in Hc; simpl in Hc; lia.
    + apply Forall_cons in Hreq as [Hi%is_empty_false Hreq].
      apply Forall_cons in Hreq as [Ht%is_empty_false _]. rewrite Hi, Ht.
      unfold bind, call_ops, logger_info, emit, modify, ret.
      destruct (update ops _ _ _ _ (backend e)) as [[?|?] ?]; cbn; intros [= _ Hc];
        apply (f_equal length) in Hc; rewrite ?length_app in Hc; simpl in Hc; lia.
Qed.

End DecisionRounds.



Lemma evaluate_stamps_logs_witness :
  let entry := {| deltaIndex := 1; action := ActStore; memoryId := "abc123";
                  log_text := "I like dark mode"; timestamp := 1700000000000 |} in
  Forall (fun log => timestamp log = 1700000000000%Z) [entry].
Proof.
  intros entry.
  refine (evaluate_stamps_logs
            (chat := scripted_adapter
                       [{| toolCalls := [dark_mode_call "call_1"]; done := true |}])
            (codec := example_codec) (counting_ops ["abc123"] "")
            dark_mode_journal [dark_mode] 1700000000000%Z (mkEnv 0%nat [])
            {| logs := [entry] |} _).
  vm_compute. reflexivity.
Defined.


Lemma declared_tools_are_executed_witness :
  let tc := {| id := "call_1"; name := "forget_memory";
               args := <["memoryId" := Str "abc123"]> ∅ |} in
  exists ev rest,
    calls (snd (executeTool (codec := example_codec) (counting_ops [] "")
                  (name tc) (args tc) 1 (mkEnv 0%nat [])))
    = [] ++ ev :: rest
    /\ is_ops_event ev = true.
Proof.
  intros tc.
  refine (proj2 (proj2 (declared_tools_are_executed (codec := example_codec)
                          (counting_ops [] "") tc 1%Z (mkEnv 0%nat [])))
            (mkInternalToolDef "forget_memory"
               "Delete a memory by its ID. Only use when the user explicitly asks to forget."
               [("memoryId", {| param_type := "string";
                                param_description := "UUID of the memory to delete";
                                param_enum := None |})]
               ["memoryId"]) _ eq_refl _).
  - unfold TOOL_DEFS. apply list_elem_of_further, list_elem_of_here.
  - constructor; [vm_compute; discriminate|constructor].
Defined.


(* ====================================================================== *)
(** * Chat adapters: properties                                             *)
(* ====================================================================== *)

Lemma pushed_results_of_app evs1 evs2 :
  pushed_results_of (evs1 ++ evs2) = pushed_results_of evs1 ++ pushed_results_of evs2.
Proof. apply omap_app. Qed.

Lemma backend_events_unpushed evs :
  forallb is_backend_event evs = true -> pushed_results_of evs = [].
Proof.
  induction evs as [|ev evs IH]; [done|]. cbn [forallb].
  intros [Hev Hevs]%andb_true_iff. destruct ev; try discriminate Hev; cbn; auto.
Qed.

Section AdapterState.
Context {A O : Type} `{chat : ChatAdapter A} `{codec : NumberCodec}.
Variable ops : MemoryOps O.

Lemma replay_results_app results1 results2 (a : A) :
  replay_results (results1 ++ results2) a
  = replay_results results2 (replay_results results1 a).
Proof. apply foldl_app. Qed.

(** Handling a tool call changes the adapter by one pushed result, the one
    recorded among the calls. *)
Lemma handleToolCall_adapter tc deltaIndex now w :
  exists log new w',
    handleToolCall ops tc deltaIndex now w = (Ok log, w')
    /\ calls (env w') = calls (env w) ++ new
    /\ adapter w' = replay_results (pushed_results_of new) (adapter w)
    /\ map (fun r => fst (fst r)) (pushed_results_of new) = [id tc].
Proof.
  destruct (executeTool_events ops tc deltaIndex (env w)) as (new & o' & Hsnd & Hquiet & _).
  pose proof (backend_events_unpushed new Hquiet) as Hp.
  unfold handleToolCall, try_catch, bind, lift, adapter_pushToolResult, logger_warn,
    emit, modify, ret.
  destruct (executeTool ops (name tc) (args tc) deltaIndex (env w)) as [[log|err] e'];
    simpl in Hsnd; subst e'; simpl.
  - eexists _, (new ++ [_]), _. split; [done|]. simpl.
    rewrite app_assoc, pushed_results_of_app, Hp. done.
  - eexists None, (new ++ [_; _]), _. split; [done|]. simpl.
    rewrite <- !app_assoc, pushed_results_of_app, Hp. done.
Qed.

Lemma handleToolCalls_adapter tcs deltaIndex now logs w :
  exists logs' new w',
    handleToolCalls ops tcs deltaIndex now logs w = (Ok logs', w')
    /\ calls (env w') = calls (env w) ++ new
    /\ adapter w' = replay_results (pushed_results_of new) (adapter w)
    /\ map (fun r => fst (fst r)) (pushed_results_of new) = map id tcs.
Proof.
  revert logs w. induction tcs as [|tc rest IH]; intros logs w.
  - exists logs, [], w. simpl. unfold ret. by rewrite app_nil_r.
  - destruct (handleToolCall_adapter tc deltaIndex now w)
      as (log & new1 & w1 & Hcall & Hcalls1 & Ha1 & Hp1).
    simpl. erewrite bind_Ok by exact Hcall.
    destruct (IH (match log with Some l => logs ++ [l] | None => logs end) w1)
      as (logs' & new2 & w2 & Hrest & Hcalls2 & Ha2 & Hp2).
    exists logs', (new1 ++ new2), w2. split_and!.
    + done.
    + by rewrite Hcalls2, Hcalls1, app_assoc.
    + by rewrite pushed_results_of_app, replay_results_app, <- Ha1.
    + by rewrite pushed_results_of_app, map_app, Hp1, Hp2.
Qed.

End AdapterState.

Section OpenAIFacts.
Context {C : Type} `{client : OpenAIClient C} `{parser : ArgumentsCodec}.

Lemma openai_collect_from tool_calls toolCalls :
  Adapters.openai_collect tool_calls toolCalls
  = match Adapters.openai_collect tool_calls [] with
    | Ok collected => Ok (toolCalls ++ collected)
    | Throw err => Throw err
    end.
Proof.
  revert toolCalls. induction tool_calls as [|[call_id fn_name fn_arguments|call_id] rest IH];
    intros toolCalls; simpl.
  - by rewrite app_nil_r.
  - destruct (JSON_parse_arguments fn_arguments) as [parsed|err]; [|done].
    rewrite (IH (toolCalls ++ _)), (IH [_]).
    destruct (Adapters.openai_collect rest []); [|done]. by rewrite <- app_assoc.
  - apply IH.
Qed.

(** The calls collected are the function calls, in order, each with its
    arguments parsed. *)
Lemma openai_collect_Ok tool_calls collected :
  Adapters.openai_collect tool_calls [] = Ok collected ->
  Forall2 (fun tc request =>
             exists fn_arguments,
               tc = FunctionToolCall (id request) (name request) fn_arguments
               /\ JSON_parse_arguments fn_arguments = Ok (args request))
    (List.filter (fun tc => match tc with FunctionToolCall _ _ _ => true | _ => false end)
       tool_calls)
    collected.
Proof.
  revert collected.
  induction tool_calls as [|[call_id fn_name fn_arguments|call_id] rest IH];
    intros collected; simpl.
  - intros [= <-]. constructor.
  - destruct (JSON_parse_arguments fn_arguments) as [parsed|err] eqn:Hparse; [|done].
    rewrite openai_collect_from.
    destruct (Adapters.openai_collect rest []) as [collected'|] eqn:Hrest; [|done].
    intros [= <-]. constructor; [|by apply IH]. by exists fn_arguments.
  - apply IH.
Qed.

Lemma openai_collect_Throw tool_calls err :
  Adapters.openai_collect tool_calls [] = Throw err ->
  exists call_id fn_name fn_arguments,
    FunctionToolCall call_id fn_name fn_arguments ∈ tool_calls
    /\ JSON_parse_arguments fn_arguments = Throw err.
Proof.
  induction tool_calls as [|[call_id fn_name fn_arguments|call_id] rest IH]; simpl.
  - done.
  - destruct (JSON_parse_arguments fn_arguments) as [parsed|err'] eqn:Hparse.
    + rewrite openai_collect_from.
      destruct (Adapters.openai_collect rest []) as [collected'|] eqn:Hrest; [done|].
      intros [= <-]. destruct IH as (i & n & a & Hin & Ha); [done|].
      exists i, n, a. split; [by apply list_elem_of_further|done].
    + intros [= <-]. exists call_id, fn_name, fn_arguments.
      split; [apply list_elem_of_here|done].
  - intros Hthrow. destruct (IH Hthrow) as (i & n & a & Hin & Ha).
    exists i, n, a. split; [by apply list_elem_of_further|done].
Qed.


Lemma openai_collect_ids tool_calls collected :
  Adapters.openai_collect tool_calls [] = Ok collected ->
  map id collected
  = omap (fun tc => match tc with
                    | FunctionToolCall call_id _ _ => Some call_id
                    | CustomToolCall _ => None
                    end) tool_calls.
Proof.
  revert collected.
  induction tool_calls as [|[call_id fn_name fn_arguments|call_id] rest IH];
    intros collected; simpl.
  - by intros [= <-].
  - destruct (JSON_parse_arguments fn_arguments) as [parsed|err] eqn:Hparse; [|done].
    rewrite openai_collect_from.
    destruct (Adapters.openai_collect rest []) as [collected'|] eqn:Hrest; [|done].
    intros [= <-]. simpl. f_equal. by apply IH.
  - apply IH.
Qed.

(** What a round that returns has done to the transcript. *)
Lemma openai_complete_transcript (a : OpenAIAdapter C) response a' :
  Adapters.openai_complete a = (Ok response, a') ->
  (toolCalls response = [] /\ openai_messages a' = openai_messages a)
  \/ exists reply,
       openai_messages a' = openai_messages a ++ [AssistantMessage reply]
       /\ map id (toolCalls response) = function_call_ids reply.
Proof.
  unfold Adapters.openai_complete.
  destruct (chat_completions_create _ _) as [[choices|err] sdk]; [|done].
  destruct choices as [|choice rest].
  - intros [= <- <-]. by left.
  - cbn [openai_sdk openai_model openai_messages openai_tools].
    destruct (Adapters.openai_collect _ []) as [collected|err] eqn:Hcollect; [|done].
    intros [= <- <-]. right. exists (choice_message choice). split; [done|].
    by apply openai_collect_ids.
Qed.

(** X17.  One round of the OpenAI adapter.  When the service answers with
    no choice, the round reports that the model is done, with no tool call,
    and the transcript is as before.  When it answers with a choice, the
    assistant message of the first choice is appended to the transcript
    first; then either the arguments of one of its function calls are not
    JSON and the round throws what [JSON.parse] threw, or the round returns
    the function calls of the message, in order and with their arguments
    parsed, calls of another type left out, and reports that the model is
    done exactly when there is no function call or the finish reason is
    [stop]. *)
Theorem openai_complete_round (a : OpenAIAdapter C) choices sdk :
  chat_completions_create (Adapters.openai_request a) (openai_sdk a) = (Ok choices, sdk) ->
  let r := Adapters.openai_complete a in
  match choices with
  | [] =>
      r = (Ok {| toolCalls := []; done := true |},
           mkOpenAIAdapter sdk (openai_model a) (openai_messages a) (openai_tools a))
  | choice :: _ =>
      let tool_calls := default [] (assistant_tool_calls (choice_message choice)) in
      snd r = mkOpenAIAdapter sdk (openai_model a)
                (openai_messages a ++ [AssistantMessage (choice_message choice)])
                (openai_tools a)
      /\ match fst r with
         | Throw err =>
             exists call_id fn_name fn_arguments,
               FunctionToolCall call_id fn_name fn_arguments ∈ tool_calls
               /\ JSON_parse_arguments fn_arguments = Throw err
         | Ok response =>
             Forall2 (fun tc request =>
                        exists fn_arguments,
                          tc = FunctionToolCall (id request) (name request) fn_arguments
                          /\ JSON_parse_arguments fn_arguments = Ok (args request))
               (List.filter (fun tc => match tc with
                                       | FunctionToolCall _ _ _ => true
                                       | _ => false
                                       end) tool_calls)
               (toolCalls response)
             /\ map id (toolCalls response) = function_call_ids (choice_message choice)
             /\ (done response = true
                 <-> function_call_ids (choice_message choice) = []
                     \/ finish_reason choice = "stop")
         end
  end.
Proof.
  intros Hcreate r. subst r. unfold Adapters.openai_complete. rewrite Hcreate.
  destruct choices as [|choice rest]; [done|]. cbn [openai_sdk openai_model openai_messages
    openai_tools]. cbv zeta.
  destruct (Adapters.openai_collect _ []) as [collected|err] eqn:Hcollect; cbn [fst snd].
  - split; [done|]. split_and!.
    + by apply openai_collect_Ok.
    + by apply openai_collect_ids.
    + cbn [done toolCalls]. unfold function_call_ids.
      rewrite <- (openai_collect_ids _ _ Hcollect), orb_true_iff, Nat.eqb_eq, String.eqb_eq.
      destruct collected; simpl; intuition congruence.
  - split; [done|]. by apply openai_collect_Throw.
Qed.

End OpenAIFacts.


Section AnthropicFacts.
Context {C : Type} `{client : AnthropicClient C}.

Lemma anthropic_collect_from content toolCalls :
  Adapters.anthropic_collect content toolCalls
  = toolCalls ++ Adapters.anthropic_collect content [].
Proof.
  revert toolCalls. induction content as [|block rest IH]; intros toolCalls; simpl.
  - by rewrite app_nil_r.
  - destruct block; try apply IH.
    rewrite (IH (toolCalls ++ _)), (IH [_]). by rewrite <- app_assoc.
Qed.

Lemma anthropic_collect_ids content :
  map id (Adapters.anthropic_collect content []) = tool_use_ids content.
Proof.
  induction content as [|block rest IH]; [done|]. simpl.
  destruct block; try apply IH.
  rewrite anthropic_collect_from. simpl. by rewrite IH.
Qed.

Lemma anthropic_collect_blocks content :
  map (fun request => ToolUseBlock (id request) (name request) (args request))
      (Adapters.anthropic_collect content [])
  = List.filter (fun block => match block with ToolUseBlock _ _ _ => true | _ => false end)
      content.
Proof.
  induction content as [|block rest IH]; [done|]. simpl.
  destruct block; try apply IH.
  rewrite anthropic_collect_from. simpl. by rewrite IH.
Qed.

(** What a round that returns has done to the transcript. *)
Lemma anthropic_complete_transcript (a : AnthropicAdapter C) response a' :
  Adapters.anthropic_complete a = (Ok response, a') ->
  exists content,
    anthropic_messages a' = anthropic_messages a ++ [AssistantReply content]
    /\ map id (toolCalls response) = tool_use_ids content.
Proof.
  unfold Adapters.anthropic_complete.
  destruct (messages_create _ _) as [[reply|err] sdk]; [|done].
  intros [= <- <-]. exists (response_content reply). split; [done|].
  apply anthropic_collect_ids.
Qed.

(** X18.  One round of the Anthropic adapter throws only what the service
    call threw, and then leaves the transcript as it was.  Otherwise it
    appends the whole reply to the transcript and returns its [tool_use]
    blocks as tool calls, in order, with the input of each block as
    arguments; it reports that the model is done exactly when the reply has
    no [tool_use] block or its stop reason is not [tool_use]. *)
Theorem anthropic_complete_round (a : AnthropicAdapter C) :
  let r := Adapters.anthropic_complete a in
  match messages_create (Adapters.anthropic_request a) (anthropic_sdk a) with
  | (Throw err, sdk) =>
      r = (Throw err,
           mkAnthropicAdapter sdk (anthropic_model a) (anthropic_messages a)
             (anthropic_tools a) (anthropic_systemPrompt a))
  | (Ok reply, sdk) =>
      exists response,
        r = (Ok response,
             mkAnthropicAdapter sdk (anthropic_model a)
               (anthropic_messages a ++ [AssistantReply (response_content reply)])
               (anthropic_tools a) (anthropic_systemPrompt a))
        /\ map (fun request => ToolUseBlock (id request) (name request) (args request))
               (toolCalls response)
           = List.filter (fun block => match block with
                                       | ToolUseBlock _ _ _ => true
                                       | _ => false
                                       end) (response_content reply)
        /\ map id (toolCalls response) = tool_use_ids (response_content reply)
        /\ (done response = true
            <-> tool_use_ids (response_content reply) = []
                \/ stop_reason reply <> Some "tool_use")
  end.
Proof.
  intros r. subst r. unfold Adapters.anthropic_complete.
  destruct (messages_create _ _) as [[reply|err] sdk]; [|done].
  eexists. split; [done|]. cbn [toolCalls done]. split_and!.
  - apply anthropic_collect_blocks.
  - apply anthropic_collect_ids.
  - rewrite <- anthropic_collect_ids, orb_true_iff, Nat.eqb_eq, negb_true_iff,
      bool_decide_eq_false.
    destruct (Adapters.anthropic_collect _ []); simpl; intuition congruence.
Qed.

End AnthropicFacts.

Section CreatedAdapter.
Context {CA CO O : Type} `{anthropic : AnthropicClient CA} `{openai : OpenAIClient CO}
  `{parser : ArgumentsCodec} `{codec : NumberCodec}.
Variable ops : MemoryOps O.
Variables api model apiKey baseUrl : string.

Lemma replay_openai results (a : OpenAIAdapter CO) :
  replay_results (chat := Adapters.create api model apiKey baseUrl) results (inr a)
  = inr (mkOpenAIAdapter (openai_sdk a) (openai_model a)
           (openai_messages a
            ++ map (fun r => ToolMessage (fst (fst r)) (snd (fst r))) results)
           (openai_tools a)).
Proof.
  revert a. induction results as [|r results IH]; intros a.
  - simpl. rewrite app_nil_r. by destruct a.
  - unfold replay_results in *. simpl. rewrite IH. simpl.
    by rewrite <- app_assoc.
Qed.

Lemma replay_anthropic results (a : AnthropicAdapter CA) :
  replay_results (chat := Adapters.create api model apiKey baseUrl) results (inl a)
  = inl (mkAnthropicAdapter (anthropic_sdk a) (anthropic_model a)
           (anthropic_messages a
            ++ map (fun r => ToolResult (fst (fst r)) (snd (fst r)) (snd r)) results)
           (anthropic_tools a) (anthropic_systemPrompt a)).
Proof.
  revert a. induction results as [|r results IH]; intros a.
  - simpl. rewrite app_nil_r. by destruct a.
  - unfold replay_results in *. simpl. rewrite IH. simpl.
    by rewrite <- app_assoc.
Qed.

(** A round that returns keeps every call of the transcript answered. *)
Lemma rounds_transcript remaining journal now logs w logs' :
  transcript_answered (adapter w) ->
  fst (rounds (chat := Adapters.create api model apiKey baseUrl) ops remaining journal
         now logs w) = Ok logs' ->
  transcript_answered
    (adapter (snd (rounds (chat := Adapters.create api model apiKey baseUrl) ops
                     remaining journal now logs w))).
Proof.
  revert logs w. induction remaining as [|remaining IH]; intros logs w Hw; [done|].
  rewrite rounds_S. cbv zeta.
  destruct (complete (adapter w)) as [[response|err] a'] eqn:Hcomplete; [|done].
  set (w1 := mkWorld a' _). set (deltaIndex := Z.of_nat _).
  destruct (handleToolCalls_adapter (chat := Adapters.create api model apiKey baseUrl)
              ops (toolCalls response) deltaIndex now logs w1)
    as (logs1 & new & w2 & Hcalls & _ & Hadapter & Hids).
  assert (Hw2 : transcript_answered (adapter w2)).
  { rewrite Hadapter. subst w1. cbn [adapter]. clear Hadapter Hcalls IH.
    cbn [complete Adapters.create] in Hcomplete.
    destruct (adapter w) as [a|a]; cbn [transcript_answered] in Hw.
    - destruct (Adapters.anthropic_complete a) as [outcome a1] eqn:Hround.
      injection Hcomplete as -> <-.
      apply anthropic_complete_transcript in Hround as (content & Hmessages & Hmap).
      rewrite replay_anthropic. cbn. rewrite Hmessages, <- app_assoc.
      apply tool_uses_answered_round; [done|]. congruence.
    - destruct (Adapters.openai_complete a) as [outcome a1] eqn:Hround.
      injection Hcomplete as -> <-.
      apply openai_complete_transcript in Hround
        as [[Hnone Hmessages]|(reply & Hmessages & Hmap)].
      + rewrite Hnone in Hids. simpl in Hids. apply map_eq_nil in Hids.
        rewrite Hids, replay_openai. simpl. by rewrite app_nil_r, Hmessages.
      + rewrite replay_openai. cbn. rewrite Hmessages, <- app_assoc.
        pose proof (answered_round (openai_messages a) reply
                      (map fst (pushed_results_of new)) Hw) as Hround.
        rewrite !map_map in Hround. apply Hround. by rewrite <- Hmap, <- Hids. }
  destruct ((length (toolCalls response) =? 0)%nat || done response).
  - rewrite Hcalls. cbn [snd]. done.
  - unfold bind. rewrite Hcalls. intros Hok. by apply IH.
Qed.

(** X19.  Whichever adapter is created, and however many rounds the loop is
    given, a loop that returns leaves a transcript in which every call is
    answered: after the prompts come rounds of one assistant message
    followed by one tool result for each of its function calls (for
    Anthropic: each of its [tool_use] blocks), in the order of the calls.
    So each request of the loop carries such a transcript. *)
Theorem transcript_stays_answered remaining journal now logs systemPrompt userPrompt e :
  let chat := Adapters.create api model apiKey baseUrl in
  let r := rounds (chat := chat) ops remaining journal now logs
             (mkWorld (newAdapter systemPrompt userPrompt) e) in
  transcript_answered (newAdapter systemPrompt userPrompt)
  /\ forall logs', fst r = Ok logs' -> transcript_answered (adapter (snd r)).
Proof.
  intros chat r.
  assert (Hnew : transcript_answered (newAdapter systemPrompt userPrompt)).
  { cbn. destruct (String.eqb api "anthropic-messages"); cbn; constructor. }
  split; [done|]. intros logs' Hok. by eapply rounds_transcript.
Qed.


End CreatedAdapter.


Lemma openai_complete_round_witness :
  let choice :=
    {| choice_message :=
         {| assistant_content := None;
            assistant_tool_calls :=
              Some [CustomToolCall "call_0";
                    FunctionToolCall "call_1" "store_memory" dark_arguments] |};
       finish_reason := "tool_calls" |} in
  let a := Adapters.openai_new (client := scripted_openai [[choice]])
             "gpt-4o-mini" "sk-test" "https://api.openai.com/v1" "system" "user" in
  openai_messages (snd (Adapters.openai_complete (client := scripted_openai [[choice]])
                          (parser := example_parser) a))
  = [SystemMessage "system"; UserMessage "user"; AssistantMessage (choice_message choice)].
Proof.
  intros choice a.
  pose proof (openai_complete_round (client := scripted_openai [[choice]])
                (parser := example_parser) a [choice] [] eq_refl) as Hround.
  cbv zeta in Hround. destruct Hround as [Hsnd _].
  rewrite Hsnd. reflexivity.
Defined.

Lemma transcript_stays_answered_witness :
  let choice :=
    {| choice_message :=
         {| assistant_content := None;
            assistant_tool_calls :=
              Some [CustomToolCall "call_0";
                    FunctionToolCall "call_1" "store_memory" dark_arguments] |};
       finish_reason := "tool_calls" |} in
  let chat := Adapters.create (anthropic := scripted_anthropic []) (openai := scripted_openai [[choice]])
                (parser := example_parser) "openai-completions" "gpt-4o-mini" "sk-test"
                "https://api.openai.com/v1" in
  transcript_answered
    (adapter (snd (rounds (chat := chat) (codec := example_codec)
                     (counting_ops ["abc123"] "") 1 dark_mode_journal 1700000000000 []
                     (mkWorld (newAdapter "system" "user") (mkEnv 0%nat []))))).
Proof.
  intros choice chat.
  eapply (proj2 (transcript_stays_answered (anthropic := scripted_anthropic [])
                   (openai := scripted_openai [[choice]]) (parser := example_parser)
                   (codec := example_codec) (counting_ops ["abc123"] "")
                   "openai-completions" "gpt-4o-mini" "sk-test"
                   "https://api.openai.com/v1" 1 dark_mode_journal 1700000000000%Z []
                   "system" "user" (mkEnv 0%nat []))).
  vm_compute. reflexivity.
Defined.



(* ====================================================================== *)
(** * Message extraction: properties                                        *)
(* ====================================================================== *)

Section Extraction.
Context `{runtime : JsRuntime}.

Lemma extract_block_from role result block :
  Plugin.extract_block role result block = result ++ Plugin.extract_block role [] block.
Proof.
  unfold Plugin.extract_block. destruct block as [| | | | |fields]; try by rewrite app_nil_r.
  destruct (get_field "type" fields) as [[| | |type| |]|]; try by rewrite app_nil_r.
  destruct (get_field "text" fields) as [[| | |block_text| |]|]; try by rewrite app_nil_r.
  destruct (String.eqb type "text"); [|by rewrite app_nil_r].
  destruct (Plugin.capturable (trim block_text)); [done|by rewrite app_nil_r].
Qed.

Lemma extract_blocks_from role result blocks :
  foldl (Plugin.extract_block role) result blocks
  = result ++ foldl (Plugin.extract_block role) [] blocks.
Proof.
  revert result. induction blocks as [|block blocks IH]; intros result; simpl.
  - by rewrite app_nil_r.
  - rewrite IH, (IH (Plugin.extract_block role [] block)), extract_block_from.
    by rewrite app_assoc.
Qed.

Lemma extract_message_from result msg :
  Plugin.extract_message result msg = result ++ Plugin.extract_message [] msg.
Proof.
  unfold Plugin.extract_message. destruct msg as [| | | | |fields]; try by rewrite app_nil_r.
  destruct (match get_field "role" fields with
            | Some (Str role) =>
                if String.eqb role "user" then Some user
                else if String.eqb role "assistant" then Some assistant else None
            | _ => None
            end) as [role|]; [|by rewrite app_nil_r].
  destruct (get_field "content" fields) as [[| | |content|blocks|]|];
    try by rewrite app_nil_r.
  - destruct (Plugin.capturable (trim content)); [done|by rewrite app_nil_r].
  - apply extract_blocks_from.
Qed.

Lemma extract_messages_from result messages :
  foldl Plugin.extract_message result messages
  = result ++ Plugin.extractCleanMessages messages.
Proof.
  unfold Plugin.extractCleanMessages.
  revert result. induction messages as [|msg messages IH]; intros result; simpl.
  - by rewrite app_nil_r.
  - rewrite IH, (IH (Plugin.extract_message [] msg)), extract_message_from.
    by rewrite app_assoc.
Qed.

Lemma extractCleanMessages_cons msg messages :
  Plugin.extractCleanMessages (msg :: messages)
  = Plugin.extract_message [] msg ++ Plugin.extractCleanMessages messages.
Proof. unfold Plugin.extractCleanMessages at 1. simpl. apply extract_messages_from. Qed.


Lemma role_of_string fields role :
  match get_field "role" fields with
  | Some (Str name) =>
      if String.eqb name "user" then Some user
      else if String.eqb name "assistant" then Some assistant else None
  | _ => None
  end = Some role
  <-> get_field "role" fields = Some (Str (role_string role)).
Proof.
  destruct (get_field "role" fields) as [[| | |name| |]|]; try (split; congruence).
  destruct (String.eqb_spec name "user") as [->|Huser].
  { split; [by intros [= <-]|]. destruct role; [done|discriminate]. }
  destruct (String.eqb_spec name "assistant") as [->|Hassistant].
  { split; [by intros [= <-]|]. destruct role; [discriminate|done]. }
  split; [done|]. intros [= ->]. by destruct role.
Qed.

Lemma elem_of_extract_block role block m :
  m ∈ Plugin.extract_block role [] block
  <-> exists fields block_text,
        block = Obj fields
        /\ get_field "type" fields = Some (Str "text")
        /\ get_field "text" fields = Some (Str block_text)
        /\ Plugin.capturable (trim block_text) = true
        /\ m = {| role := role; text := trim block_text |}.
Proof.
  unfold Plugin.extract_block. split.
  - destruct block as [| | | | |fields]; try by intros ?%elem_of_nil.
    destruct (get_field "type" fields) as [[| | |type| |]|] eqn:Htype;
      try by intros ?%elem_of_nil.
    destruct (get_field "text" fields) as [[| | |block_text| |]|] eqn:Htext;
      try by intros ?%elem_of_nil.
    destruct (String.eqb_spec type "text") as [->|]; [|by intros ?%elem_of_nil].
    destruct (Plugin.capturable (trim block_text)) eqn:Hkeep; [|by intros ?%elem_of_nil].
    intros ->%list_elem_of_singleton. by exists fields, block_text.
  - intros (fields & block_text & -> & -> & -> & -> & ->). simpl.
    apply list_elem_of_here.
Qed.

Lemma elem_of_extract_blocks role blocks m :
  m ∈ foldl (Plugin.extract_block role) [] blocks
  <-> exists block, block ∈ blocks /\ m ∈ Plugin.extract_block role [] block.
Proof.
  induction blocks as [|block blocks IH]; simpl.
  - split; [by intros ?%elem_of_nil|]. by intros (block & ?%elem_of_nil & _).
  - rewrite extract_blocks_from, elem_of_app, IH. split.
    + intros [Hm|(block' & Hin & Hm)].
      * exists block. split; [apply list_elem_of_here|done].
      * exists block'. split; [by apply list_elem_of_further|done].
    + intros (block' & Hin & Hm). apply elem_of_cons in Hin as [->|Hin]; [by left|].
      right. by exists block'.
Qed.

Lemma elem_of_extract_message msg m :
  m ∈ Plugin.extract_message [] msg
  <-> Plugin.capturable (text m) = true /\ Plugin.extracted_from msg m.
Proof.
  split.
  - unfold Plugin.extract_message.
    destruct msg as [| | | | |fields]; try by intros ?%elem_of_nil.
    destruct (match get_field "role" fields with
              | Some (Str role) =>
                  if String.eqb role "user" then Some user
                  else if String.eqb role "assistant" then Some assistant else None
              | _ => None
              end) as [role|] eqn:Hrole; [|by intros ?%elem_of_nil].
    apply role_of_string in Hrole.
    destruct (get_field "content" fields) as [[| | |content|blocks|]|] eqn:Hcontent;
      try by intros ?%elem_of_nil.
    + destruct (Plugin.capturable (trim content)) eqn:Hkeep; [|by intros ?%elem_of_nil].
      intros ->%list_elem_of_singleton. split; [done|].
      by eapply Plugin.from_content.
    + intros (block & Hin & Hm)%elem_of_extract_blocks.
      apply elem_of_extract_block in Hm
        as (block_fields & block_text & -> & Htype & Htext & Hkeep & ->).
      split; [done|]. by eapply Plugin.from_block.
  - intros [Hkeep Hfrom]. unfold Plugin.extract_message.
    destruct Hfrom as [fields content -> Hrole Hcontent Htext
                      |fields blocks block block_text -> Hrole Hcontent Hin Htype Hblock Htext].
    + apply role_of_string in Hrole. rewrite Hrole, Hcontent. rewrite <- Htext, Hkeep.
      destruct m. simpl in *. subst. apply list_elem_of_here.
    + apply role_of_string in Hrole. rewrite Hrole, Hcontent.
      apply elem_of_extract_blocks. exists (Obj block). split; [done|].
      apply elem_of_extract_block. exists block, block_text.
      rewrite <- Htext. split_and!; try done. by destruct m.
Qed.

(** X21.  What [extractCleanMessages] returns, exactly: a clean message is
    in the result if and only if its text is not empty, does not contain
    [<relevant-memories>], and is the trimmed string content, or the trimmed
    text of a [text] block, of a message of the event whose role is [user]
    or [assistant] and is the role of the clean message.  So a message with
    another role, a block of another type, an empty text and a text that
    embeds recalled memories never reach the journal. *)
Theorem extractCleanMessages_exactly messages m :
  m ∈ Plugin.extractCleanMessages messages
  <-> Plugin.capturable (text m) = true
      /\ exists msg, msg ∈ messages /\ Plugin.extracted_from msg m.
Proof.
  induction messages as [|msg messages IH].
  - split; [by intros ?%elem_of_nil|]. by intros (_ & msg & ?%elem_of_nil & _).
  - rewrite extractCleanMessages_cons, elem_of_app, IH, elem_of_extract_message. split.
    + intros [[Hkeep Hfrom]|(Hkeep & msg' & Hin & Hfrom)].
      * split; [done|]. exists msg. split; [apply list_elem_of_here|done].
      * split; [done|]. exists msg'. split; [by apply list_elem_of_further|done].
    + intros (Hkeep & msg' & Hin & Hfrom).
      apply elem_of_cons in Hin as [->|Hin]; [by left|].
      right. split; [done|]. by exists msg'.
Qed.

End Extraction.


(* ====================================================================== *)
(** * The capture hook: properties                                          *)
(* ====================================================================== *)

Lemma log_events_quiet lines :
  forallb is_log_event lines = true ->
  forallb is_backend_event lines = true.
Proof.
  induction lines as [|ev lines IH]; [done|]. cbn [forallb].
  intros [Hev Hlines]%andb_true_iff. rewrite IH by done. by destruct ev.
Qed.

Lemma bind_Throw {S A B} (c : Eff S A) (k : A -> Eff S B) s err s' :
  c s = (Throw err, s') -> bind c k s = (Throw err, s').
Proof. unfold bind. by intros ->. Qed.

Section Capture.
Context {A O : Type} `{host : Host} `{chat : ChatAdapter A} `{codec : NumberCodec}
  `{runtime : JsRuntime}.
Variable ops : MemoryOps O.

Lemma info_run msg (s : Plugin.State O) :
  Plugin.info msg s = (Ok tt, Plugin.logged [LoggedInfo msg] s).
Proof. reflexivity. Qed.

Lemma warn_run msg (s : Plugin.State O) :
  Plugin.warn msg s = (Ok tt, Plugin.logged [LoggedWarn msg] s).
Proof. reflexivity. Qed.

Lemma on_journal_run {T} (c : Eff SessionJournal.State T) (s : Plugin.State O) r j :
  c (Plugin.journal s) = (r, j) ->
  Plugin.on_journal c s = (r, Plugin.mkState j (Plugin.world s)).
Proof. unfold Plugin.on_journal. by intros ->. Qed.

Lemma on_world_run {T} (c : Eff (Env O) T) (s : Plugin.State O) r e :
  c (Plugin.world s) = (r, e) ->
  Plugin.on_world c s = (r, Plugin.mkState (Plugin.journal s) e).
Proof. unfold Plugin.on_world. by intros ->. Qed.

Lemma logged_logged lines1 lines2 (s : Plugin.State O) :
  Plugin.logged lines2 (Plugin.logged lines1 s) = Plugin.logged (lines1 ++ lines2) s.
Proof. unfold Plugin.logged. simpl. by rewrite app_assoc. Qed.

(** The handler's early exits: the state after them is the state before
    with some lines logged. *)
Lemma agent_end_early event ctx uuid1 uuid2 now s :
  event_success event = false
  \/ default [] (event_messages event) = []
  \/ Plugin.session_key_of ctx = None
  \/ Plugin.session_key_of ctx = Some ""
  \/ Plugin.extractCleanMessages (default [] (event_messages event)) = [] ->
  exists lines,
    Plugin.agent_end ops event ctx uuid1 uuid2 now s = (Ok tt, Plugin.logged lines s)
    /\ forallb is_log_event lines = true.
Proof.
  intros Hskip. unfold Plugin.agent_end.
  erewrite bind_Ok by apply info_run.
  destruct (event_success event); cycle 1.
  { rewrite info_run, logged_logged. by eexists. }
  destruct (event_messages event) as [[|first others]|];
    try (rewrite info_run, logged_logged; by eexists).
  change (default [] (Some (first :: others))) with (first :: others) in Hskip.
  destruct (Plugin.session_key_of ctx) as [[|c k]|].
  - rewrite warn_run, logged_logged. by eexists.
  - destruct Hskip as [?|[?|[?|[?|Hnone]]]]; try done.
    erewrite bind_Ok by apply info_run. rewrite logged_logged.
    unfold try_catch. erewrite bind_Ok by apply info_run. rewrite logged_logged.
    rewrite Hnone. cbn [length Nat.eqb]. rewrite info_run, logged_logged. by eexists.
  - rewrite warn_run, logged_logged. by eexists.
Qed.

(** The handler past its early exits: the messages are appended; with an
    empty delta that is all, else the delta is evaluated, and committed
    when the evaluation returned. *)
Lemma agent_end_run event ctx uuid1 uuid2 now s msgs k :
  event_success event = true ->
  event_messages event = Some msgs ->
  Plugin.session_key_of ctx = Some k ->
  k <> "" ->
  Plugin.extractCleanMessages msgs <> [] ->
  let cleanMsgs := Plugin.extractCleanMessages msgs in
  let j1 := appended (loaded k (Plugin.journal s)) cleanMsgs in
  let js1 := snd (appendMessages k cleanMsgs uuid1 (Plugin.journal s)) in
  exists lines,
    forallb is_log_event lines = true
    /\ let e1 := mkEnv (backend (Plugin.world s)) (calls (Plugin.world s) ++ lines) in
       match delta_of j1 with
       | [] => Plugin.agent_end ops event ctx uuid1 uuid2 now s
               = (Ok tt, Plugin.mkState js1 e1)
       | _ =>
           let r := evaluate ops j1 (delta_of j1) now e1 in
           exists lines',
             forallb is_log_event lines' = true
             /\ Plugin.agent_end ops event ctx uuid1 uuid2 now s
                = (Ok tt,
                   Plugin.mkState
                     match fst r with
                     | Ok result =>
                         snd (commitDecisions k (logs result)
                                (Z.of_nat (length (cleanContext j1))) uuid2 js1)
                     | Throw _ => js1
                     end
                     (mkEnv (backend (snd r)) (calls (snd r) ++ lines')))
       end.
Proof.
  intros Hsuccess Hmessages Hkey Hk Hclean. cbv zeta.
  set (cleanMsgs := Plugin.extractCleanMessages msgs) in *.
  set (j1 := appended (loaded k (Plugin.journal s)) cleanMsgs).
  unfold Plugin.agent_end. erewrite bind_Ok by apply info_run.
  rewrite Hsuccess, Hmessages, Hkey.
  destruct msgs as [|first others]; [done|]. destruct k as [|c k]; [done|].
  erewrite bind_Ok by apply info_run. rewrite logged_logged.
  unfold try_catch. erewrite bind_Ok by apply info_run. rewrite logged_logged.
  fold cleanMsgs.
  destruct (length cleanMsgs =? 0)%nat eqn:Hlen.
  { apply Nat.eqb_eq, nil_length_inv in Hlen. done. }
  pose proof (appendMessages_spec (String c k) cleanMsgs uuid1 (Plugin.journal s)) as Happend.
  cbv zeta in Happend. fold j1 in Happend.
  rewrite Happend. cbn [snd]. set (js1 := SessionJournal.mkState _ _ _) in *.
  erewrite bind_Ok by (apply on_journal_run; exact Happend).
  cbn [fst snd]. erewrite bind_Ok by apply info_run. flatten_state.
  destruct (delta_of j1) as [|d delta'] eqn:Hdelta.
  - cbn [length Nat.eqb]. rewrite info_run. flatten_state.
    eexists. split; [|reflexivity]. done.
  - cbn [length Nat.eqb]. rewrite <- Hdelta.
    erewrite bind_Ok by apply info_run. flatten_state.
    match goal with
    | |- context [bind (Plugin.on_world (evaluate ops j1 (delta_of j1) now)) _
                    (Plugin.mkState _ (mkEnv _ (_ ++ ?lines)))] => exists lines
    end.
    split; [done|]. cbv zeta.
    destruct (evaluate ops j1 (delta_of j1) now _) as [[result|err] e2] eqn:Heval;
      cbn [fst snd].
    + erewrite bind_Ok by (apply on_world_run; exact Heval).
      erewrite bind_Ok by apply info_run.
      erewrite bind_Ok by (apply on_journal_run; apply commitDecisions_spec).
      rewrite (commitDecisions_spec (String c k)). cbv zeta. cbn [snd].
      erewrite bind_Ok by apply info_run. flatten_state.
      destruct (0 <? length (logs result))%nat.
      * rewrite info_run. flatten_state. eexists. split; [|reflexivity]. done.
      * unfold ret. eexists. split; [|reflexivity]. done.
    + erewrite bind_Throw by (apply on_world_run; exact Heval).
      erewrite bind_Ok by apply warn_run. flatten_state.
      destruct (error_stack err) as [[|c' stack]|].
      * unfold ret. eexists. split; [|reflexivity]. done.
      * rewrite warn_run. flatten_state. eexists. split; [|reflexivity]. done.
      * unfold ret. eexists. split; [|reflexivity]. done.
Qed.

End Capture.


Lemma log_events_logs deltaIndex now lines :
  forallb is_log_event lines = true ->
  logs_of_calls deltaIndex now lines = [] /\ count_completed lines = 0%nat.
Proof.
  induction lines as [|ev lines IH]; [done|]. cbn [forallb].
  intros [Hev Hlines]%andb_true_iff. destruct (IH Hlines) as [IH1 IH2].
  destruct ev; try discriminate Hev; by cbn.
Qed.

Lemma log_events_no_completed lines outcome :
  forallb is_log_event lines = true -> Completed outcome ∉ lines.
Proof.
  intros Hlines Hin. apply list_elem_of_In in Hin.
  rewrite forallb_forall in Hlines. by apply Hlines in Hin.
Qed.

Section CaptureOutcome.
Context {A O : Type} `{host : Host} `{chat : ChatAdapter A} `{codec : NumberCodec}
  `{runtime : JsRuntime}.
Variable ops : MemoryOps O.

Lemma delta_of_committed journal logs :
  delta_of (committed journal logs (Z.of_nat (length (cleanContext journal)))) = [].
Proof.
  unfold delta_of, committed. cbn [processedIndex cleanContext].
  rewrite slice_in_range by lia. rewrite Nat2Z.id. apply drop_all.
Qed.

Lemma fresh_of_same_context journal1 journal2 messages :
  cleanContext journal1 = cleanContext journal2 ->
  fresh_of journal1 messages = fresh_of journal2 messages.
Proof. unfold fresh_of, existing_keys. by intros ->. Qed.

(** What a run of the handler past its early exits comes to. *)
Lemma agent_end_outcome event ctx uuid1 uuid2 now s msgs k :
  event_success event = true ->
  event_messages event = Some msgs ->
  Plugin.session_key_of ctx = Some k ->
  k <> "" ->
  Plugin.extractCleanMessages msgs <> [] ->
  let j1 := appended (loaded k (Plugin.journal s)) (Plugin.extractCleanMessages msgs) in
  let r := Plugin.agent_end ops event ctx uuid1 uuid2 now s in
  let j' := loaded k (Plugin.journal (snd r)) in
  fst r = Ok tt
  /\ exists new,
       calls (Plugin.world (snd r)) = calls (Plugin.world s) ++ new
       /\ (count_completed new <= MAX_TOOL_ITERATIONS)%nat
       /\ ((delta_of j1 = [] /\ j' = j1
            /\ forallb is_log_event new = true
            /\ backend (Plugin.world (snd r)) = backend (Plugin.world s))
           \/ (delta_of j1 <> []
               /\ j' = committed j1
                         (logs_of_calls (Z.of_nat (length (cleanContext j1))) now new)
                         (Z.of_nat (length (cleanContext j1))))
           \/ (delta_of j1 <> [] /\ j' = j1
               /\ exists err, Completed (Throw err) ∈ new)).
Proof.
  intros Hsuccess Hmessages Hkey Hk Hclean j1 r j'.
  destruct (agent_end_run ops event ctx uuid1 uuid2 now s msgs k
              Hsuccess Hmessages Hkey Hk Hclean) as (lines & Hlines & Hrun).
  cbv zeta in Hrun. fold j1 in Hrun.
  pose proof (appendMessages_spec k (Plugin.extractCleanMessages msgs) uuid1
                (Plugin.journal s)) as Happend.
  cbv zeta in Happend. fold j1 in Happend. rewrite Happend in Hrun. cbn [snd] in Hrun.
  destruct (log_events_logs (Z.of_nat (length (cleanContext j1))) now lines Hlines)
    as [Hlogs Hcount].
  destruct (delta_of j1) as [|d delta'] eqn:Hdelta.
  - subst j' r. rewrite Hrun. cbn [fst snd Plugin.journal Plugin.world calls backend].
    split; [done|]. exists lines. split_and!; [done|lia|].
    left. split_and!; try done. apply loaded_cached. cbn [cache].
    apply lookup_insert_eq.
  - destruct Hrun as (lines' & Hlines' & Hrun).
    destruct (log_events_logs (Z.of_nat (length (cleanContext j1))) now lines' Hlines')
      as [Hlogs' Hcount'].
    rewrite <- Hdelta in *.
    set (e1 := mkEnv _ (_ ++ lines)) in *.
    destruct (evaluate_outcome ops j1 (delta_of j1) now e1) as (new & Hcalls & Hbound & Hres).
    subst j' r. rewrite Hrun. cbn [fst snd Plugin.journal Plugin.world calls backend].
    split; [done|]. exists (lines ++ new ++ lines').
    rewrite Hcalls. subst e1. cbn [calls]. rewrite <- !app_assoc.
    split; [done|]. rewrite !count_completed_app, Hcount, Hcount'.
    split; [lia|]. right.
    assert (Hne : delta_of j1 <> []) by (rewrite Hdelta; done).
    destruct Hres as [Hok|(err & Herr & Hlast)].
    + left. split; [done|]. rewrite Hok.
      rewrite (commitDecisions_spec k). cbv zeta. cbn [snd].
      erewrite !loaded_cached by (cbn [cache]; apply lookup_insert_eq).
      rewrite !logs_of_calls_app, Hlogs, Hlogs', app_nil_r. done.
    + right. split; [done|]. rewrite Herr. split.
      * apply loaded_cached. cbn [cache]. apply lookup_insert_eq.
      * exists err. apply last_Some in Hlast as (new' & ->).
        rewrite !elem_of_app. right; left; right. apply list_elem_of_here.
Qed.

(** X22.  The early exits of the capture hook.  When the run did not
    succeed, when the event has no messages, when the context names no
    session, or when no message of the event has capturable text, the
    handler only logs: the journal is not touched, nothing is sent to the
    model and no memory operation runs.  A [sessionId] that is the empty
    string counts as no session even when [sessionKey] is set: the fallback
    is taken only for a missing [sessionId]. *)
Theorem agent_end_skips event ctx uuid1 uuid2 now s :
  event_success event = false
  \/ event_messages event = None
  \/ event_messages event = Some []
  \/ ctx_sessionId ctx = Some ""
  \/ (ctx_sessionId ctx = None
      /\ (ctx_sessionKey ctx = None \/ ctx_sessionKey ctx = Some ""))
  \/ (exists msgs, event_messages event = Some msgs
                   /\ Plugin.extractCleanMessages msgs = []) ->
  exists lines,
    Plugin.agent_end ops event ctx uuid1 uuid2 now s
    = (Ok tt,
       Plugin.mkState (Plugin.journal s)
         (mkEnv (backend (Plugin.world s)) (calls (Plugin.world s) ++ lines)))
    /\ forallb is_log_event lines = true.
Proof.
  intros Hskip. apply agent_end_early.
  destruct Hskip as [?|[Hnone|[Hnil|[Hid|[[Hid Hkey]|(msgs & Hmsgs & Hclean)]]]]].
  - by left.
  - right; left. by rewrite Hnone.
  - right; left. by rewrite Hnil.
  - right; right; right; left. unfold Plugin.session_key_of. by rewrite Hid.
  - unfold Plugin.session_key_of. rewrite Hid. destruct Hkey as [-> | ->]; auto.
  - right; right; right; right. by rewrite Hmsgs.
Qed.

(** X23.  A capture.  Past its early exits the handler never throws and
    asks the model at most [MAX_TOOL_ITERATIONS] times.  It first appends
    the extracted messages to the journal of the session, and then one of
    three things has happened.  The delta was empty: the journal stays as it
    was after the append, and neither the model nor the store was called.
    Or the evaluation returned: the journal holds one more log entry for
    each memory operation that succeeded, and [processedIndex] is the length
    of the clean context.  Or the evaluation threw: the journal stays as it
    was after the append, so the same delta is evaluated again on the next
    event, and the entries of the operations that had succeeded before the
    failure are not logged. *)
Theorem agent_end_captures event ctx uuid1 uuid2 now s msgs k :
  event_success event = true ->
  event_messages event = Some msgs ->
  Plugin.session_key_of ctx = Some k ->
  k <> "" ->
  Plugin.extractCleanMessages msgs <> [] ->
  let j1 := appended (loaded k (Plugin.journal s)) (Plugin.extractCleanMessages msgs) in
  let r := Plugin.agent_end ops event ctx uuid1 uuid2 now s in
  let j' := loaded k (Plugin.journal (snd r)) in
  fst r = Ok tt
  /\ exists new,
       calls (Plugin.world (snd r)) = calls (Plugin.world s) ++ new
       /\ (count_completed new <= MAX_TOOL_ITERATIONS)%nat
       /\ ((delta_of j1 = [] /\ j' = j1
            /\ forallb is_log_event new = true
            /\ backend (Plugin.world (snd r)) = backend (Plugin.world s))
           \/ (delta_of j1 <> []
               /\ j' = committed j1
                         (logs_of_calls (Z.of_nat (length (cleanContext j1))) now new)
                         (Z.of_nat (length (cleanContext j1)))
               /\ delta_of j' = [])
           \/ (delta_of j1 <> [] /\ j' = j1
               /\ exists err, Completed (Throw err) ∈ new)).
Proof.
  intros Hsuccess Hmessages Hkey Hk Hclean. cbv zeta.
  pose proof (agent_end_outcome event ctx uuid1 uuid2 now s msgs k
                Hsuccess Hmessages Hkey Hk Hclean) as Hout.
  cbv zeta in Hout. destruct Hout as (Hok & new & Hcalls & Hbound & Hcases).
  split; [done|]. exists new. split_and!; try done.
  destruct Hcases as [?|[[Hne Hj]|?]]; [by left| |by right; right].
  right; left. split_and!; try done. rewrite Hj. apply delta_of_committed.
Qed.

(** X24.  A capture is not repeated.  When the handler has run on an event
    and the evaluation did not throw, running it again on the same event
    for the same session only logs: nothing is sent to the model, no memory
    operation runs, and the journal and its file stay as they are. *)
Theorem agent_end_again event ctx uuid1 uuid2 uuid3 uuid4 now now' s msgs k :
  event_success event = true ->
  event_messages event = Some msgs ->
  Plugin.session_key_of ctx = Some k ->
  k <> "" ->
  Plugin.extractCleanMessages msgs <> [] ->
  let s1 := snd (Plugin.agent_end ops event ctx uuid1 uuid2 now s) in
  let r := Plugin.agent_end ops event ctx uuid3 uuid4 now' s1 in
  (exists err new,
     calls (Plugin.world s1) = calls (Plugin.world s) ++ new
     /\ Completed (Throw err) ∈ new)
  \/ (fst r = Ok tt
      /\ (exists lines,
            calls (Plugin.world (snd r)) = calls (Plugin.world s1) ++ lines
            /\ forallb is_log_event lines = true)
      /\ backend (Plugin.world (snd r)) = backend (Plugin.world s1)
      /\ loaded k (Plugin.journal (snd r)) = loaded k (Plugin.journal s1)
      /\ files (Plugin.journal (snd r)) = files (Plugin.journal s1)).
Proof.
  intros Hsuccess Hmessages Hkey Hk Hclean s1 r.
  destruct (agent_end_outcome event ctx uuid1 uuid2 now s msgs k
              Hsuccess Hmessages Hkey Hk Hclean) as (_ & new & Hcalls & _ & Hcases).
  fold s1 in Hcalls, Hcases.
  set (cleanMsgs := Plugin.extractCleanMessages msgs) in *.
  set (j1 := appended (loaded k (Plugin.journal s)) cleanMsgs) in *.
  assert (Hdone : (exists err, Completed (Throw err) ∈ new)
                  \/ (cleanContext (loaded k (Plugin.journal s1)) = cleanContext j1
                      /\ delta_of (loaded k (Plugin.journal s1)) = [])).
  { destruct Hcases as [(Hdelta & -> & _)|[(_ & ->)|(_ & _ & Herr)]]; [by right| |by left].
    right. split; [done|apply delta_of_committed]. }
  destruct Hdone as [(err & Herr)|[Hcontext Hdelta]]; [left; by exists err, new|].
  right. clear Hcases.
  assert (Happended : appended (loaded k (Plugin.journal s1)) cleanMsgs
                      = loaded k (Plugin.journal s1)).
  { unfold appended. rewrite (fresh_of_same_context _ j1) by done.
    subst j1. by rewrite fresh_of_appended. }
  destruct (agent_end_run ops event ctx uuid3 uuid4 now' s1 msgs k
              Hsuccess Hmessages Hkey Hk Hclean) as (lines & Hlines & Hrun).
  cbv zeta in Hrun. fold cleanMsgs in Hrun. rewrite Happended, Hdelta in Hrun.
  pose proof (appendMessages_spec k cleanMsgs uuid3 (Plugin.journal s1)) as Happend.
  cbv zeta in Happend. rewrite Happended in Happend. rewrite Happend in Hrun.
  cbn [snd] in Hrun. subst r. rewrite Hrun.
  cbn [fst snd Plugin.journal Plugin.world calls backend files].
  split_and!; try done.
  - by exists lines.
  - apply loaded_cached. cbn [cache]. apply lookup_insert_eq.
  - rewrite (fresh_of_same_context _ j1) by done. subst j1. by rewrite fresh_of_appended.
Qed.

End CaptureOutcome.


Lemma agent_end_skips_witness :
  let event := {| event_success := true;
                  event_messages := Some [Obj [("role", Str "user");
                                               ("content", Str "I like dark mode")]] |} in
  let ctx := {| ctx_sessionId := Some ""; ctx_sessionKey := Some "agent:main" |} in
  let s := Plugin.mkState (new ∅) (mkEnv 0%nat []) in
  exists lines,
    Plugin.agent_end (host := example_host)
      (chat := scripted_adapter [{| toolCalls := [dark_mode_call "call_1"]; done := true |}])
      (codec := example_codec) (runtime := example_runtime)
      (counting_ops ["abc123"] "") event ctx "uuid-1" "uuid-2" 1700000000000 s
    = (Ok tt, Plugin.mkState (new ∅) (mkEnv 0%nat ([] ++ lines)))
    /\ forallb is_log_event lines = true.
Proof.
  intros event ctx s.
  apply (agent_end_skips (host := example_host)
           (chat := scripted_adapter
                      [{| toolCalls := [dark_mode_call "call_1"]; done := true |}])
           (codec := example_codec) (runtime := example_runtime)
           (counting_ops ["abc123"] "") event ctx "uuid-1" "uuid-2" 1700000000000%Z s).
  right; right; right; left. reflexivity.
Defined.

Lemma agent_end_captures_witness :
  let event := {| event_success := true;
                  event_messages := Some [Obj [("role", Str "user");
                                               ("content", Str "I like dark mode")]] |} in
  let ctx := {| ctx_sessionId := None; ctx_sessionKey := Some "agent:main" |} in
  let s := Plugin.mkState (new ∅) (mkEnv 0%nat []) in
  let r := Plugin.agent_end (host := example_host)
             (chat := scripted_adapter
                        [{| toolCalls := [dark_mode_call "call_1"]; done := true |}])
             (codec := example_codec) (runtime := example_runtime)
             (counting_ops ["abc123"] "") event ctx "uuid-1" "uuid-2" 1700000000000 s in
  fst r = Ok tt
  /\ exists new,
       calls (Plugin.world (snd r)) = [] ++ new
       /\ (count_completed new <= MAX_TOOL_ITERATIONS)%nat.
Proof.
  intros event ctx s r.
  assert (Hclean : Plugin.extractCleanMessages (runtime := example_runtime)
                     [Obj [("role", Str "user"); ("content", Str "I like dark mode")]]
                   <> []) by (vm_compute; discriminate).
  assert (Hkey : "agent:main" <> "") by discriminate.
  destruct (agent_end_captures (host := example_host)
              (chat := scripted_adapter
                         [{| toolCalls := [dark_mode_call "call_1"]; done := true |}])
              (codec := example_codec) (runtime := example_runtime)
              (counting_ops ["abc123"] "") event ctx "uuid-1" "uuid-2" 1700000000000%Z s
              _ "agent:main" eq_refl eq_refl eq_refl Hkey Hclean)
    as (Hok & new & Hcalls & Hbound & _).
  split; [exact Hok|]. exists new. split; [exact Hcalls|exact Hbound].
Defined.

Lemma agent_end_again_witness :
  let event := {| event_success := true;
                  event_messages := Some [Obj [("role", Str "user");
                                               ("content", Str "I like dark mode")]] |} in
  let ctx := {| ctx_sessionId := None; ctx_sessionKey := Some "agent:main" |} in
  let s := Plugin.mkState (new ∅) (mkEnv 0%nat []) in
  let handler := Plugin.agent_end (host := example_host)
                   (chat := scripted_adapter
                              [{| toolCalls := [dark_mode_call "call_1"]; done := true |}])
                   (codec := example_codec) (runtime := example_runtime)
                   (counting_ops ["abc123"] "") event ctx in
  let s1 := snd (handler "uuid-1" "uuid-2" 1700000000000%Z s) in
  let r := handler "uuid-3" "uuid-4" 1700000060000%Z s1 in
  (exists err new, calls (Plugin.world s1) = [] ++ new /\ Completed (Throw err) ∈ new)
  \/ (fst r = Ok tt /\ backend (Plugin.world (snd r)) = backend (Plugin.world s1)).
Proof.
  intros event ctx s handler s1 r.
  assert (Hclean : Plugin.extractCleanMessages (runtime := example_runtime)
                     [Obj [("role", Str "user"); ("content", Str "I like dark mode")]]
                   <> []) by (vm_compute; discriminate).
  assert (Hkey : "agent:main" <> "") by discriminate.
  destruct (agent_end_again (host := example_host)
              (chat := scripted_adapter
                         [{| toolCalls := [dark_mode_call "call_1"]; done := true |}])
              (codec := example_codec) (runtime := example_runtime)
              (counting_ops ["abc123"] "") event ctx "uuid-1" "uuid-2" "uuid-3" "uuid-4"
              1700000000000%Z 1700000060000%Z s
              _ "agent:main" eq_refl eq_refl eq_refl Hkey Hclean)
    as [Hthrew|(Hok & _ & Hbackend & _)].
  - left. exact Hthrew.
  - right. split; [exact Hok|exact Hbackend].
Defined.


(* ====================================================================== *)
(** * The memory store: properties                                          *)
(* ====================================================================== *)

Lemma hex_run_Some n s rest :
  hex_run n s = Some rest ->
  exists digits,
    s = digits +:+ rest /\ String.length digits = n /\ all_chars uuid_char digits = true.
Proof.
  revert s. induction n as [|n IH]; intros s; simpl.
  - intros [= ->]. by exists "".
  - destruct s as [|c s]; [done|]. destruct (is_hex c) eqn:Hc; [|done].
    intros (digits & -> & <- & Hall)%IH. exists (String c digits).
    split_and!; try done. simpl. unfold uuid_char at 1. by rewrite Hc, Hall.
Qed.

Lemma all_chars_app p s1 s2 :
  all_chars p (s1 +:+ s2) = all_chars p s1 && all_chars p s2.
Proof.
  induction s1 as [|c s1 IH]; [done|].
  change (String c s1 +:+ s2) with (String c (s1 +:+ s2)). simpl.
  by rewrite IH, andb_assoc.
Qed.

Lemma length_app_string s1 s2 :
  String.length (s1 +:+ s2) = (String.length s1 + String.length s2)%nat.
Proof.
  induction s1 as [|c s1 IH]; [done|].
  change (String c s1 +:+ s2) with (String c (s1 +:+ s2)). simpl. by rewrite IH.
Qed.

Lemma hex_groups_true groups s :
  hex_groups groups s = true ->
  String.length s = (list_sum groups + (length groups - 1))%nat
  /\ all_chars uuid_char s = true.
Proof.
  revert s. induction groups as [|n groups IH]; intros s; [done|].
  destruct groups as [|n' groups].
  - simpl. destruct (hex_run n s) as [[|]|] eqn:Hrun; try done.
    apply hex_run_Some in Hrun as (digits & -> & <- & Hall). intros _.
    rewrite length_app_string, all_chars_app, Hall. simpl. split; [lia|done].
  - change (hex_groups (n :: n' :: groups) s)
      with (match hex_run n s with
            | Some (String c s') => Ascii.eqb c "-" && hex_groups (n' :: groups) s'
            | _ => false
            end).
    destruct (hex_run n s) as [[|c s']|] eqn:Hrun; try done.
    apply hex_run_Some in Hrun as (digits & -> & <- & Hall).
    intros [Hc Hrest]%andb_true_iff. apply IH in Hrest as [Hlen Hrest].
    rewrite length_app_string, all_chars_app, Hall. cbn [String.length all_chars].
    rewrite Hlen, Hrest. unfold uuid_char at 1. rewrite Hc, orb_true_r.
    split; [|done]. unfold list_sum. cbn [fold_right length]. lia.
Qed.

Lemma all_chars_includes p needle c s :
  p c = false -> all_chars p s = true -> includes (String c needle) s = false.
Proof.
  intros Hc. induction s as [|c' s IH]; [done|]. cbn [all_chars includes].
  intros [Hc' Hs]%andb_true_iff. rewrite IH by done. rewrite orb_false_r.
  simpl. destruct (Ascii.eqb_spec c c') as [->|]; [congruence|].
  destruct (ascii_dec c c'); [congruence|done].
Qed.

(** An id the pattern accepts has 36 characters, each a hexadecimal digit
    or a hyphen, so no quote. *)
Lemma uuidRegex_test_true id :
  uuidRegex_test id = true ->
  String.length id = 36%nat
  /\ all_chars uuid_char id = true
  /\ includes "'" id = false.
Proof.
  intros [Hlen Hall]%hex_groups_true. split_and!; try done.
  by apply (all_chars_includes uuid_char "" "'"%char).
Qed.

Section StoreFacts.
Context {L R : Type} `{driver : LanceDB L} `{random : Entropy R} `{runtime : JsRuntime}.

(** X25.  [delete] validates the id before it touches the table.  Once the
    store is initialised, an id that is not of the form of a UUID makes it
    throw [Invalid memory ID format: <id>] with the database as it was; for
    any other id the filter given to the table is [id = '<id>'], in which
    the id has 36 characters, each a hexadecimal digit or a hyphen, and so
    holds no quote that could end the literal. *)
Theorem delete_validates_id id (s : MemoryDB.State L R) :
  MemoryDB.table s = true ->
  if uuidRegex_test id then
    String.length id = 36%nat
    /\ all_chars uuid_char id = true
    /\ includes "'" id = false
    /\ MemoryDB.delete id s
       = (let '(outcome, s') :=
            MemoryDB.on_lance (table_delete ("id = '" +:+ id +:+ "'")) s in
          (match outcome with Ok _ => Ok true | Throw err => Throw err end, s'))
  else
    MemoryDB.delete id s = (Throw (mkError ("Invalid memory ID format: " +:+ id)), s).
Proof.
  intros Htable. unfold MemoryDB.delete.
  assert (Hinit : MemoryDB.ensureInitialized s = (Ok tt, s)).
  { unfold MemoryDB.ensureInitialized. by rewrite Htable. }
  erewrite bind_Ok by exact Hinit.
  destruct (uuidRegex_test id) eqn:Hid; cbn [negb]; [|done].
  destruct (uuidRegex_test_true id Hid) as (Hlen & Hall & Hquote).
  split_and!; try done. unfold bind, MemoryDB.id_filter, ret.
  by destruct (MemoryDB.on_lance _ s) as [[[]|err] s'].
Qed.

End StoreFacts.


Section StoreInitialization.
Context {L R : Type} `{driver : LanceDB L} `{random : Entropy R} `{runtime : JsRuntime}.

Lemma loadLanceDB_table (s : MemoryDB.State L R) :
  MemoryDB.table (snd (MemoryDB.loadLanceDB s)) = MemoryDB.table s.
Proof.
  unfold MemoryDB.loadLanceDB, MemoryDB.on_lance.
  destruct (MemoryDB.lancedbImportPromise s) as [[[]|err]|]; try done.
  by destruct (lancedb_import (MemoryDB.lance s)) as [[[]|err] l].
Qed.

(** An initialisation that throws with the table set has thrown in the
    removal of the schema row. *)
Lemma doInitialize_Throw (s : MemoryDB.State L R) err s' :
  MemoryDB.table s = false ->
  MemoryDB.doInitialize s = (Throw err, s') ->
  MemoryDB.table s' = true ->
  exists l, table_delete MemoryDB.schema_filter l = (Throw err, MemoryDB.lance s').
Proof.
  intros Htable. unfold MemoryDB.doInitialize.
  pose proof (loadLanceDB_table s) as Hload.
  destruct (MemoryDB.loadLanceDB s) as [[[]|err0] s0] eqn:Hl; cbn [snd] in Hload.
  2:{ erewrite bind_Throw by exact Hl. intros [= <- <-]. congruence. }
  erewrite bind_Ok by exact Hl. erewrite bind_Ok by reflexivity.
  unfold bind at 1. unfold MemoryDB.on_lance at 1.
  destruct (lancedb_connect _ (MemoryDB.lance s0)) as [[[]|err1] l1].
  2:{ intros [= <- <-]. cbn. congruence. }
  erewrite bind_Ok by reflexivity.
  unfold bind at 1. unfold MemoryDB.on_lance at 1. cbn [MemoryDB.lance].
  destruct (db_tableNames l1) as [[tables|err2] l2].
  2:{ intros [= <- <-]. cbn. congruence. }
  destruct (existsb (String.eqb MemoryDB.TABLE_NAME) tables).
  - unfold bind at 1. unfold MemoryDB.on_lance at 1. cbn [MemoryDB.lance].
    destruct (db_openTable _ l2) as [[[]|err3] l3].
    + done.
    + intros [= <- <-]. cbn. congruence.
  - erewrite bind_Ok by reflexivity.
    unfold bind at 1. unfold MemoryDB.on_lance at 1. cbn [MemoryDB.lance].
    destruct (db_createTable _ _ l2) as [[[]|err3] l3].
    2:{ intros [= <- <-]. cbn. congruence. }
    erewrite bind_Ok by reflexivity.
    unfold MemoryDB.on_lance. cbn [MemoryDB.lance].
    destruct (table_delete MemoryDB.schema_filter l3) as [[[]|err4] l4] eqn:Hdelete.
    + done.
    + intros [= <- <-] _. cbn. by exists l3.
Qed.

(** X26.  A failed initialisation is not tried again.  When the first use
    of the store throws while it initialises, the error is kept.  If the
    table had not been obtained, every later call on the store throws the
    same error again, without calling the driver.  If the table had been
    created and the error came from removing the schema row, later calls
    take the store for initialised and use the table as it is. *)
Theorem initialization_failure_is_kept (s : MemoryDB.State L R) err s1 :
  MemoryDB.table s = false ->
  MemoryDB.initPromise s = None ->
  MemoryDB.ensureInitialized s = (Throw err, s1) ->
  MemoryDB.initPromise s1 = Some (Throw err)
  /\ if MemoryDB.table s1 then
       MemoryDB.ensureInitialized s1 = (Ok tt, s1)
       /\ exists l, table_delete MemoryDB.schema_filter l = (Throw err, MemoryDB.lance s1)
     else
       MemoryDB.ensureInitialized s1 = (Throw err, s1)
       /\ (forall vector limit minScore,
             MemoryDB.search vector limit minScore s1 = (Throw err, s1))
       /\ (forall text vector importance category,
             MemoryDB.store text vector importance category s1 = (Throw err, s1))
       /\ (forall id, MemoryDB.delete id s1 = (Throw err, s1))
       /\ MemoryDB.count s1 = (Throw err, s1).
Proof.
  intros Htable Hpromise. unfold MemoryDB.ensureInitialized at 1.
  rewrite Htable, Hpromise.
  destruct (MemoryDB.doInitialize s) as [outcome s'] eqn:Hinit.
  intros [= -> <-]. split; [done|]. cbn [MemoryDB.table MemoryDB.set_initPromise].
  destruct (MemoryDB.table s') eqn:Htable'.
  - split.
    + unfold MemoryDB.ensureInitialized. cbn. by rewrite Htable'.
    + exact (doInitialize_Throw s err s' Htable Hinit Htable').
  - assert (Hagain : MemoryDB.ensureInitialized (MemoryDB.set_initPromise (Throw err) s')
                     = (Throw err, MemoryDB.set_initPromise (Throw err) s')).
    { unfold MemoryDB.ensureInitialized. cbn. by rewrite Htable'. }
    split_and!; try done.
    + intros. unfold MemoryDB.search. by erewrite bind_Throw.
    + intros. unfold MemoryDB.store. by erewrite bind_Throw.
    + intros. unfold MemoryDB.delete. by erewrite bind_Throw.
    + unfold MemoryDB.count. by erewrite bind_Throw.
Qed.

End StoreInitialization.


Section OpsFacts.
Context {L E R : Type} `{driver : LanceDB L} `{client : EmbeddingsClient E}
  `{random : Entropy R} `{runtime : JsRuntime}.

Lemma on_db_run {T} (c : Eff (MemoryDB.State L R) T) (o : Backend L E R) r d :
  c (memory_db o) = (r, d) ->
  Capture.on_db c o = (r, mkBackend d (embeddings o) (embedding_model o)).
Proof. unfold Capture.on_db. by intros ->. Qed.

Lemma embed_run text (o : Backend L E R) r e :
  Embeddings.embed (embedding_model o) text (embeddings o) = (r, e) ->
  Capture.embed text o = (r, mkBackend (memory_db o) e (embedding_model o)).
Proof. unfold Capture.embed. by intros ->. Qed.

(** The results of a search are the rows the table returned whose score is
    at least [minScore]. *)
Lemma search_results vector limit minScore (s : MemoryDB.State L R) results s' r :
  MemoryDB.search vector limit minScore s = (Ok results, s') ->
  r ∈ results ->
  PrimFloat.leb minScore (result_score r) = true
  /\ exists row, r = {| result_entry := row_entry row;
                        result_score := MemoryDB.score_of row |}.
Proof.
  unfold MemoryDB.search.
  destruct (MemoryDB.ensureInitialized s) as [[[]|err] s0] eqn:Hinit.
  2:{ by erewrite bind_Throw by exact Hinit. }
  erewrite bind_Ok by exact Hinit.
  destruct (MemoryDB.on_lance (table_vectorSearch vector limit) s0) as [[rows|err] s1]
    eqn:Hrows.
  2:{ by erewrite bind_Throw by exact Hrows. }
  erewrite bind_Ok by exact Hrows. unfold ret. intros [= <- <-] Hin.
  apply list_elem_of_In, filter_In in Hin as [Hin Hscore]. split; [done|].
  apply in_map_iff in Hin as (row & <- & _). by exists row.
Qed.

(** X27.  [update] is not atomic.  It deletes the old memory before it
    embeds the new text, so when the embedding fails [update] throws that
    error and leaves the store as the delete left it: the old memory is
    gone and nothing was added in its place. *)
Theorem failed_update_loses_memory memoryId text category importance
    (o : Backend L E R) d err e :
  MemoryDB.delete memoryId (memory_db o) = (Ok true, d) ->
  Embeddings.embed (embedding_model o) text (embeddings o) = (Throw err, e) ->
  update Capture.ops memoryId text category importance o
  = (Throw err, mkBackend d e (embedding_model o))
  /\ forget Capture.ops memoryId o
     = (Ok true, mkBackend d (embeddings o) (embedding_model o)).
Proof.
  intros Hdelete Hembed. cbn [update forget Capture.ops]. split.
  - erewrite bind_Ok by (apply on_db_run; exact Hdelete).
    erewrite bind_Throw; [reflexivity|].
    exact (embed_run text (mkBackend d (embeddings o) (embedding_model o)) _ _ Hembed).
  - by apply on_db_run.
Qed.

(** X28.  [store] adds what it returns.  When it returns an id, the text
    was embedded, the search for near-duplicates found no row with a score
    of 0.95 or more, and one entry was added to the table: the one with
    that id, the text, category and importance given, and the embedding of
    the text as its vector.  When the search finds such a row, [store]
    throws an error that names the id of the row, and adds nothing. *)
Theorem store_adds_what_it_returns text category importance (o : Backend L E R) :
  match store Capture.ops text category importance o with
  | (Ok id, o') =>
      exists vector e d now l,
        Embeddings.embed (embedding_model o) text (embeddings o) = (Ok vector, e)
        /\ MemoryDB.search vector 1 0.95%float (memory_db o) = (Ok [], d)
        /\ table_add [{| entry_id := id;
                         entry_text := text;
                         entry_vector := vector;
                         entry_importance := importance;
                         entry_category := category;
                         entry_createdAt := now |}] l
           = (Ok tt, MemoryDB.lance (memory_db o'))
  | (Throw err, o') =>
      forall vector e nearest others d,
        Embeddings.embed (embedding_model o) text (embeddings o) = (Ok vector, e) ->
        MemoryDB.search vector 1 0.95%float (memory_db o) = (Ok (nearest :: others), d) ->
        PrimFloat.leb 0.95%float (result_score nearest) = true
        /\ message err
           = "Similar memory already exists: " +:+ dquote
             +:+ str_take 60 (entry_text (result_entry nearest)) +:+ dquote
             +:+ " (id: " +:+ entry_id (result_entry nearest)
             +:+ "). Use update_memory to modify it."
        /\ o' = mkBackend d e (embedding_model o)
  end.
Proof.
  cbn [store Capture.ops].
  destruct (Embeddings.embed (embedding_model o) text (embeddings o)) as [[vector|err] e]
    eqn:Hembed.
  2:{ erewrite bind_Throw by (apply embed_run; exact Hembed). by intros. }
  erewrite bind_Ok by (apply embed_run; exact Hembed).
  destruct (MemoryDB.search vector 1 0.95%float (memory_db o)) as [[existing|err] d]
    eqn:Hsearch.
  2:{ erewrite bind_Throw by (apply on_db_run; exact Hsearch).
      intros ? ? ? ? ? [= <- <-] Hfound. congruence. }
  erewrite bind_Ok by (apply on_db_run; exact Hsearch).
  destruct existing as [|nearest others].
  - set (o1 := mkBackend d e (embedding_model o)).
    destruct (MemoryDB.store text vector importance category d) as [[entry|err] d'] eqn:Hstore.
    2:{ erewrite bind_Throw by (apply on_db_run; exact Hstore).
        intros ? ? ? ? ? [= <- <-] Hfound. congruence. }
    erewrite bind_Ok by (apply on_db_run; exact Hstore). unfold ret.
    cbn [memory_db]. revert Hstore. unfold MemoryDB.store.
    destruct (MemoryDB.ensureInitialized d) as [[[]|err] d0] eqn:Hinit.
    2:{ by erewrite bind_Throw by exact Hinit. }
    erewrite bind_Ok by exact Hinit.
    destruct (MemoryDB.on_entropy randomUUID d0) as [[uuid|err] d1] eqn:Huuid.
    2:{ by erewrite bind_Throw by exact Huuid. }
    erewrite bind_Ok by exact Huuid.
    destruct (MemoryDB.on_entropy Date_now d1) as [[now|err] d2] eqn:Hnow.
    2:{ by erewrite bind_Throw by exact Hnow. }
    erewrite bind_Ok by exact Hnow.
    unfold bind, MemoryDB.on_lance, ret.
    destruct (table_add _ (MemoryDB.lance d2)) as [[[]|err] l'] eqn:Hadd; [|done].
    intros [= <- <-]. exists vector, e, d, now, (MemoryDB.lance d2). done.
  - unfold throw. intros vector' e' nearest' others' d' [= <- <-] Hfound.
    rewrite Hsearch in Hfound. injection Hfound as <- <- <-.
    split_and!; try done.
    eapply search_results; [exact Hsearch|apply list_elem_of_here].
Qed.

End OpsFacts.






Section Recall.
Context `{runtime : JsRuntime}.


End Recall.


Lemma delete_validates_id_witness :
  let id := "x' OR id <> '" in
  MemoryDB.delete (driver := list_driver) (runtime := example_runtime) id example_db
  = (Throw (mkError ("Invalid memory ID format: " +:+ id)), example_db).
Proof.
  intros id.
  pose proof (delete_validates_id (driver := list_driver) (runtime := example_runtime)
                id example_db eq_refl) as Hdelete.
  assert (Hid : uuidRegex_test id = false) by (vm_compute; reflexivity).
  rewrite Hid in Hdelete. exact Hdelete.
Defined.

Lemma initialization_failure_is_kept_witness :
  let s := MemoryDB.create tt tt "/db/memory" 2 in
  let r := MemoryDB.ensureInitialized (driver := missing_driver)
             (runtime := example_runtime) s in
  exists err,
    fst r = Throw err
    /\ MemoryDB.count (driver := missing_driver) (runtime := example_runtime) (snd r)
       = (Throw err, snd r).
Proof.
  intros s r.
  destruct r as [[[]|err] s1] eqn:Hr; [vm_compute in Hr; discriminate Hr|].
  exists err. split; [reflexivity|].
  pose proof (initialization_failure_is_kept (driver := missing_driver)
                (random := fixed_entropy example_uuid 0) (runtime := example_runtime)
                s err s1 eq_refl eq_refl Hr) as [_ Hkept].
  assert (Htable : MemoryDB.table s1 = false)
    by (vm_compute in Hr; injection Hr as _ <-; reflexivity).
  rewrite Htable in Hkept. exact (proj2 (proj2 (proj2 (proj2 Hkept)))).
Defined.

Lemma failed_update_loses_memory_witness :
  let o := mkBackend example_db tt "text-embedding-3-small" in
  MemoryDB.lance
    (memory_db
       (snd (update (Capture.ops (driver := list_driver) (client := failing_embeddings)
                       (random := fixed_entropy example_uuid 0)
                       (runtime := example_runtime))
               example_uuid "I like light mode" "preference" 0.8%float o)))
  = [].
Proof.
  intros o.
  destruct (failed_update_loses_memory (driver := list_driver)
              (client := failing_embeddings) (random := fixed_entropy example_uuid 0)
              (runtime := example_runtime)
              example_uuid "I like light mode" "preference" 0.8%float o
              (MemoryDB.mkState [] tt (Some (Ok tt)) true true (Some (Ok tt))
                 "/db/memory" 2)
              (mkError "Connection error.") tt)
    as [Hupdate _].
  - vm_compute. reflexivity.
  - vm_compute. reflexivity.
  - rewrite Hupdate. reflexivity.
Defined.



Section ForgetTool.
Context {L E R : Type} `{driver : LanceDB L} `{client : EmbeddingsClient E}
  `{random : Entropy R} `{runtime : JsRuntime}.

(** X30.  [memory_forget] by query deletes only on a single confident
    match.  Without a [memoryId], the tool deletes a memory only when the
    search for the query returns exactly one result and its score is above
    0.9: then it deletes that one.  With no result, with several, or with
    one of a lower score, it returns without deleting and leaves the store
    as the search left it; with neither a query nor an id it does nothing
    at all. *)
Theorem forget_by_query_needs_one_match query memoryId (o : Backend L E R) :
  memoryId = None \/ memoryId = Some "" ->
  let r := Tools.memory_forget query memoryId o in
  match query with
  | None | Some EmptyString =>
      r = (Ok {| reply_text := "Provide query or memoryId.";
                 reply_details := ForgetError "missing_param" |}, o)
  | Some query =>
      forall vector e results d,
        Embeddings.embed (embedding_model o) query (embeddings o) = (Ok vector, e) ->
        MemoryDB.search vector 5 0.7%float (memory_db o) = (Ok results, d) ->
        (exists match_,
           results = [match_]
           /\ PrimFloat.ltb 0.9%float (result_score match_) = true
           /\ r = (let '(outcome, d') :=
                     MemoryDB.delete (entry_id (result_entry match_)) d in
                   (match outcome with
                    | Ok _ =>
                        Ok {| reply_text := "Forgotten: " +:+ dquote
                                            +:+ entry_text (result_entry match_) +:+ dquote;
                              reply_details :=
                                ForgetDeleted (entry_id (result_entry match_)) |}
                    | Throw err => Throw err
                    end, mkBackend d' e (embedding_model o))))
        \/ ((forall match_, results = [match_] ->
               PrimFloat.ltb 0.9%float (result_score match_) = false)
            /\ snd r = mkBackend d e (embedding_model o)
            /\ exists reply,
                 fst r = Ok reply
                 /\ forall id, reply_details reply <> ForgetDeleted id)
  end.
Proof.
  intros Hid r. subst r.
  assert (Hrun : Tools.memory_forget query memoryId o
                 = Tools.memory_forget query None o) by (by destruct Hid as [-> | ->]).
  rewrite Hrun. clear Hrun Hid. unfold Tools.memory_forget.
  destruct query as [[|c query]|]; try done.
  intros vector e results d Hembed Hsearch.
  erewrite bind_Ok by (apply embed_run; exact Hembed).
  erewrite bind_Ok
    by exact (on_db_run _ (mkBackend (memory_db o) e (embedding_model o)) _ _ Hsearch).
  cbn [embeddings embedding_model].
  destruct results as [|first others].
  { right. unfold ret. cbn [fst snd]. split_and!; try done. by eexists. }
  destruct others as [|second others]; cbn [length Nat.eqb andb].
  - destruct (PrimFloat.ltb 0.9%float (result_score first)) eqn:Hscore.
    + left. exists first. split_and!; try done.
      unfold bind, Capture.on_db, ret. cbn [memory_db embeddings embedding_model].
      by destruct (MemoryDB.delete _ d) as [[b|err] d'].
    + right. unfold ret. cbn [fst snd]. split_and!.
      * by intros match_ [= <-].
      * done.
      * by eexists.
  - right. unfold ret. cbn [fst snd]. split_and!; try done. by eexists.
Qed.

End ForgetTool.

Lemma forget_by_query_needs_one_match_witness :
  let o := mkBackend example_db tt "text-embedding-3-small" in
  MemoryDB.lance
    (memory_db
       (snd (Tools.memory_forget (driver := list_driver) (client := constant_embeddings)
               (runtime := example_runtime) (Some "dark mode") None o)))
  = [].
Proof.
  intros o.
  pose proof (forget_by_query_needs_one_match (driver := list_driver)
                (client := constant_embeddings) (runtime := example_runtime)
                (Some "dark mode") None o (or_introl eq_refl)) as Hforget.
  cbv zeta in Hforget.
  destruct (Hforget [1%float; 0%float] tt
              [{| result_entry := example_entry; result_score := 1%float |}]
              example_db)
    as [(match_ & Hone & _ & Hrun)|(Hlow & _)].
  - vm_compute. reflexivity.
  - vm_compute. reflexivity.
  - injection Hone as <-. rewrite Hrun. vm_compute. reflexivity.
  - specialize (Hlow _ eq_refl). vm_compute in Hlow. discriminate Hlow.
Defined.
